(** * JBL Synthesis receiver client: protocol codec and connection engine

    A shallow embedding of [src/lib/JblProtocol.ts] (frame codec) and
    [src/lib/JblConnection.ts] (command queue, receive loop, reconnect
    policy), with the properties of the specification proved against it.

    Conventions.
    - A Node [Buffer] is a [list byte]; [Buffer.from(number[])] stores each
      number modulo 256 ([to_u8]); reading [buffer[i]] yields a number ([Z]).
    - JavaScript numbers that hold byte values, delays and codes are [Z];
      lengths and offsets into a buffer are [nat].
    - [indexOf] returns [None] where the source gets [-1]. *)

From Stdlib Require Import ZArith QArith Qround List String Ascii Lia Bool Arith.
From Stdlib Require Import DecimalString.
From Stdlib.Strings Require Import Byte HexString.
From stdpp Require Import base option list sorting strings gmap.
From Equations Require Import Equations.
Import ListNotations.

Set Default Proof Using "Type".
#[local] Set Warnings "-clear-no-such-hyp".
Local Open Scope Z_scope.

(** ** Bytes and buffers *)

Definition Buffer := list byte.

Definition byte_val (b : byte) : Z := Z.of_N (Byte.to_N b).

(** ToUint8 of an integral number: the value modulo 256. *)
Definition to_u8 (n : Z) : byte :=
  match Byte.of_N (Z.to_N (Z.land n 255)) with
  | Some b => b
  | None => x00
  end.

Definition Buffer_from (xs : list Z) : Buffer := map to_u8 xs.

(** [buffer[i]]; every read in this development is guarded by a length check,
    so the default is never observed. *)
Definition Buffer_get (buffer : Buffer) (i : nat) : Z :=
  byte_val (nth i buffer x00).

(** [buffer.subarray(start)] and [buffer.subarray(start, end)]. *)
Definition subarray (start : nat) (buffer : Buffer) : Buffer := skipn start buffer.
Definition subarray2 (start stop : nat) (buffer : Buffer) : Buffer :=
  firstn (stop - start) (skipn start buffer).

(** [buffer.indexOf(value)]: offset of the first byte equal to [value]. *)
Fixpoint indexOf (value : Z) (buffer : Buffer) : option nat :=
  match buffer with
  | [] => None
  | b :: rest =>
      if byte_val b =? Z.land value 255 then Some O
      else match indexOf value rest with
           | Some i => Some (S i)
           | None => None
           end
  end.

(** ** RS232 protocol constants *)

Definition STX : Z := 0x21.
Definition ETX : Z := 0x0D.
Definition REQUEST : Z := 0xF0.

Inductive Zone := MASTER | ZONE2.

Definition Zone_code (z : Zone) : Z :=
  match z with MASTER => 0x01 | ZONE2 => 0x02 end.

Inductive Cmd :=
| POWER | DISPLAY_BRIGHTNESS | HEADPHONES | FM_GENRE | SOFTWARE_VERSION
| FACTORY_RESET | SAVE_RESTORE | SIMULATE_RC5 | DISPLAY_INFO_TYPE
| SELECT_ANALOG_DIGITAL | IMAX_ENHANCED | VOLUME | MUTE | DIRECT_MODE
| DECODE_MODE_2CH | DECODE_MODE_MCH | RDS_INFO | VIDEO_OUTPUT_RES
| MENU_STATUS | TUNER_PRESET | TUNE | DAB_STATION | PROG_TYPE | DLS_PDT_INFO
| PRESET_DETAILS | NETWORK_PLAYBACK | CURRENT_SOURCE | HEADPHONE_OVERRIDE
| INPUT_NAME | FM_SCAN | DAB_SCAN | HEARTBEAT | REBOOT | SETUP | INPUT_CONFIG
| GENERAL_SETUP | SPEAKER_TYPES | SPEAKER_DISTANCES | SPEAKER_LEVELS
| VIDEO_INPUTS | HDMI_SETTINGS | ZONE_SETTINGS | NETWORK_SETTINGS
| BLUETOOTH_SETTINGS | ENGINEERING | ROOM_EQ_NAMES | TREBLE | BASS | ROOM_EQ
| DOLBY_AUDIO | BALANCE | SUBWOOFER_TRIM | LIPSYNC_DELAY | COMPRESSION
| INCOMING_VIDEO | INCOMING_AUDIO | INCOMING_SAMPLE_RATE | SUB_STEREO_TRIM
| ZONE1_OSD | VIDEO_OUTPUT_SWITCH | BLUETOOTH_STATUS | NOW_PLAYING.

Definition Cmd_code (c : Cmd) : Z :=
  match c with
  | POWER => 0x00 | DISPLAY_BRIGHTNESS => 0x01 | HEADPHONES => 0x02
  | FM_GENRE => 0x03 | SOFTWARE_VERSION => 0x04 | FACTORY_RESET => 0x05
  | SAVE_RESTORE => 0x06 | SIMULATE_RC5 => 0x08 | DISPLAY_INFO_TYPE => 0x09
  | SELECT_ANALOG_DIGITAL => 0x0B | IMAX_ENHANCED => 0x0C | VOLUME => 0x0D
  | MUTE => 0x0E | DIRECT_MODE => 0x0F | DECODE_MODE_2CH => 0x10
  | DECODE_MODE_MCH => 0x11 | RDS_INFO => 0x12 | VIDEO_OUTPUT_RES => 0x13
  | MENU_STATUS => 0x14 | TUNER_PRESET => 0x15 | TUNE => 0x16
  | DAB_STATION => 0x18 | PROG_TYPE => 0x19 | DLS_PDT_INFO => 0x1A
  | PRESET_DETAILS => 0x1B | NETWORK_PLAYBACK => 0x1C | CURRENT_SOURCE => 0x1D
  | HEADPHONE_OVERRIDE => 0x1F | INPUT_NAME => 0x20 | FM_SCAN => 0x23
  | DAB_SCAN => 0x24 | HEARTBEAT => 0x25 | REBOOT => 0x26 | SETUP => 0x27
  | INPUT_CONFIG => 0x28 | GENERAL_SETUP => 0x29 | SPEAKER_TYPES => 0x2A
  | SPEAKER_DISTANCES => 0x2B | SPEAKER_LEVELS => 0x2C | VIDEO_INPUTS => 0x2D
  | HDMI_SETTINGS => 0x2E | ZONE_SETTINGS => 0x2F | NETWORK_SETTINGS => 0x30
  | BLUETOOTH_SETTINGS => 0x32 | ENGINEERING => 0x33 | ROOM_EQ_NAMES => 0x34
  | TREBLE => 0x35 | BASS => 0x36 | ROOM_EQ => 0x37 | DOLBY_AUDIO => 0x38
  | BALANCE => 0x3B | SUBWOOFER_TRIM => 0x3F | LIPSYNC_DELAY => 0x40
  | COMPRESSION => 0x41 | INCOMING_VIDEO => 0x42 | INCOMING_AUDIO => 0x43
  | INCOMING_SAMPLE_RATE => 0x44 | SUB_STEREO_TRIM => 0x45 | ZONE1_OSD => 0x4E
  | VIDEO_OUTPUT_SWITCH => 0x4F | BLUETOOTH_STATUS => 0x50 | NOW_PLAYING => 0x64
  end.

(** [AnswerCode] *)
Definition STATUS_UPDATE : Z := 0x00.
Definition ZONE_INVALID : Z := 0x82.
Definition COMMAND_NOT_RECOGNISED : Z := 0x83.
Definition PARAMETER_NOT_RECOGNISED : Z := 0x84.
Definition COMMAND_INVALID : Z := 0x85.
Definition INVALID_DATA_LENGTH : Z := 0x86.

(** ** Command builder *)

Definition buildCommand (zone : Zone) (cmd : Cmd) (data : list Z) : Buffer :=
  Buffer_from ([STX; Zone_code zone; Cmd_code cmd; Z.of_nat (length data)]
               ++ data ++ [ETX]).

Definition buildQuery (zone : Zone) (cmd : Cmd) : Buffer :=
  buildCommand zone cmd [REQUEST].

Definition buildRC5 (zone : Zone) (system command : Z) : Buffer :=
  buildCommand zone SIMULATE_RC5 [system; command].

(** ** Response parser *)

Record JblResponse := mkResponse {
  zone : Z;
  command : Z;
  answer : Z;
  data : Buffer;
}.

Record ParseResult := mkParseResult {
  response : JblResponse;
  bytesConsumed : nat;
}.

(** Remember the equation of a scrutinee in a [with] clause. *)
Definition inspect {A} (a : A) : {b | a = b} := exist _ a eq_refl.

(** Direct transcription of [parseResponse]; the recursive call after a
    failed ETX check is on [buffer.subarray(startIdx + 1)], and its result is
    returned unchanged. *)
Equations? parseResponse (buffer : Buffer) : option ParseResult
  by wf (length buffer) lt :=
parseResponse buffer with inspect (indexOf STX buffer) := {
  | exist _ None _ => None
  | exist _ (Some startIdx) Hidx =>
      if (length buffer - startIdx <? 6)%nat then None else
      let zone := Buffer_get buffer (startIdx + 1) in
      let command := Buffer_get buffer (startIdx + 2) in
      let answer := Buffer_get buffer (startIdx + 3) in
      let dataLength := Z.to_nat (Buffer_get buffer (startIdx + 4)) in
      let totalLength := (5 + dataLength + 1)%nat in
      if (length buffer - startIdx <? totalLength)%nat then None else
      if negb (Buffer_get buffer (startIdx + totalLength - 1) =? ETX) then
        parseResponse (subarray (startIdx + 1) buffer)
      else
        let data := subarray2 (startIdx + 5) (startIdx + 5 + dataLength) buffer in
        Some {| response := {| zone := zone; command := command;
                               answer := answer; data := data |};
                bytesConsumed := (startIdx + totalLength)%nat |} }.
Proof.
  assert (Hlt : forall bs i, indexOf STX bs = Some i -> (i < length bs)%nat).
  { clear. induction bs as [|b rest IH]; simpl; intros i H; [discriminate|].
    destruct (byte_val b =? Z.land STX 255).
    - injection H as <-. lia.
    - destruct (indexOf STX rest) as [j|]; [|discriminate].
      injection H as <-. specialize (IH j eq_refl). lia. }
  apply Hlt in Hidx. unfold subarray. rewrite length_skipn. lia.
Qed.

Definition isError (r : JblResponse) : bool := 0x82 <=? answer r.

(** [answer.toString(16)]: lower-case hexadecimal digits, no padding. *)
Definition toString16 (n : Z) : string :=
  match n with
  | Z0 => "0"
  | Zpos p => HexString.Raw.of_pos p ""
  | Zneg p => String "-" (HexString.Raw.of_pos p "")
  end.

Definition errorMessage (answer : Z) : string :=
  if answer =? ZONE_INVALID then "Zone invalid"
  else if answer =? COMMAND_NOT_RECOGNISED then "Command not recognised"
  else if answer =? PARAMETER_NOT_RECOGNISED then "Parameter not recognised"
  else if answer =? COMMAND_INVALID then "Command invalid at this time"
  else if answer =? INVALID_DATA_LENGTH then "Invalid data length"
  else String.append "Unknown error (0x" (String.append (toString16 answer) ")").

(** ** Value encodings

    [encodeSubTrim], [decodeSubTrim] and [encodeLipsync] compute with
    fractions. A finite JavaScript number is modelled by the rational it
    denotes: [db * 2], [byte / 2] and [Math.round] are exact on doubles, and
    the rounding of [ms / 5] cannot carry an integral [ms] across a tie of
    [Math.round]. *)

Definition encodeSignedValue (value : Z) : Z :=
  if 0 <=? value then value else 0x80 + Z.abs value.

Definition decodeSignedValue (byte : Z) : Z :=
  if byte <=? 0x7F then byte else - (byte - 0x80).

(** [Math.round]: the nearest integer, ties towards plus infinity. *)
Definition Math_round (x : Q) : Z := Qfloor (x + (1 # 2)).

Definition encodeSubTrim (db : Q) : Z :=
  let steps := Math_round (db * 2) in
  if 0 <=? steps then steps else 0x80 + Z.abs steps.

Definition decodeSubTrim (byte : Z) : Q :=
  if byte <=? 0x7F then inject_Z byte / 2
  else - inject_Z (byte - 0x80) / 2.

Definition encodeLipsync (ms : Q) : Z := Math_round (ms / 5).

Definition decodeLipsync (byte : Z) : Z := byte * 5.

(** ** Lookup tables

    An object literal used as a table is the finite map built from its
    entries in source order, a later entry replacing an earlier one with the
    same key ([Object_fromEntries] is also [Object.fromEntries]). *)

Definition Object_fromEntries `{Countable K} {V} (entries : list (K * V)) : gmap K V :=
  fold_left (fun m kv => <[kv.1 := kv.2]> m) entries ∅.

(** [table[key] || fallback] for a table of strings. *)
Definition or_else (found : option string) (fallback : string) : string :=
  match found with
  | Some EmptyString => fallback
  | Some name => name
  | None => fallback
  end.

(** [InputSourceId] *)
Definition FOLLOW_ZONE1 : Z := 0x00.
Definition SRC_CD : Z := 0x01.
Definition SRC_BD : Z := 0x02.
Definition SRC_AV : Z := 0x03.
Definition SRC_SAT : Z := 0x04.
Definition SRC_PVR : Z := 0x05.
Definition SRC_UHD : Z := 0x06.
Definition SRC_AUX : Z := 0x08.
Definition SRC_DISPLAY : Z := 0x09.
Definition SRC_TUNER_FM : Z := 0x0B.
Definition SRC_TUNER_DAB : Z := 0x0C.
Definition SRC_NET : Z := 0x0E.
Definition SRC_STB : Z := 0x10.
Definition SRC_GAME : Z := 0x11.
Definition SRC_BT : Z := 0x12.

Definition INPUT_SOURCE_NAMES : gmap Z string :=
  Object_fromEntries
    [(SRC_CD, "CD"); (SRC_BD, "Blu-ray"); (SRC_AV, "AV"); (SRC_SAT, "SAT");
     (SRC_PVR, "PVR"); (SRC_UHD, "UHD"); (SRC_AUX, "AUX");
     (SRC_DISPLAY, "Display"); (SRC_TUNER_FM, "FM Tuner");
     (SRC_TUNER_DAB, "DAB Tuner"); (SRC_NET, "Network"); (SRC_STB, "STB");
     (SRC_GAME, "Game"); (SRC_BT, "Bluetooth")]%string.

(** The entries of the [INPUT_SOURCE_MAP] literal, which are also
    [Object.entries(INPUT_SOURCE_MAP)]: its keys are distinct and none is an
    array index. *)
Definition INPUT_SOURCE_MAP_entries : list (string * Z) :=
  [("cd", SRC_CD); ("bd", SRC_BD); ("av", SRC_AV); ("sat", SRC_SAT);
   ("pvr", SRC_PVR); ("uhd", SRC_UHD); ("aux", SRC_AUX);
   ("display", SRC_DISPLAY); ("fm", SRC_TUNER_FM); ("dab", SRC_TUNER_DAB);
   ("net", SRC_NET); ("stb", SRC_STB); ("game", SRC_GAME); ("bt", SRC_BT)]%string.

Definition INPUT_SOURCE_MAP : gmap string Z :=
  Object_fromEntries INPUT_SOURCE_MAP_entries.

Definition INPUT_SOURCE_REVERSE : gmap Z string :=
  Object_fromEntries ((fun kv => (kv.2, kv.1)) <$> INPUT_SOURCE_MAP_entries).

Definition AUDIO_FORMAT_NAMES : gmap Z string :=
  Object_fromEntries
    [(0x00, "PCM"); (0x01, "Analog Direct"); (0x02, "Dolby Digital");
     (0x03, "Dolby Digital EX"); (0x04, "Dolby Digital Surround");
     (0x05, "Dolby Digital Plus"); (0x06, "Dolby TrueHD"); (0x07, "DTS");
     (0x08, "DTS 96/24"); (0x09, "DTS ES Matrix"); (0x0A, "DTS ES Discrete");
     (0x0B, "DTS ES Matrix 96/24"); (0x0C, "DTS ES Discrete 96/24");
     (0x0D, "DTS-HD Master Audio"); (0x0E, "DTS-HD High Res");
     (0x0F, "DTS Low Bit Rate"); (0x10, "DTS Core"); (0x13, "PCM (Silent)");
     (0x14, "Unsupported"); (0x15, "Undetected"); (0x16, "Dolby Atmos");
     (0x17, "DTS:X"); (0x18, "IMAX Enhanced"); (0x19, "Auro-3D")]%string.

Definition DECODE_MODE_2CH_NAMES : gmap Z string :=
  Object_fromEntries
    [(0x01, "Stereo"); (0x04, "Dolby Surround"); (0x07, "Neo:6 Cinema");
     (0x08, "Neo:6 Music"); (0x09, "5/7ch Stereo"); (0x0A, "DTS Neural:X");
     (0x0C, "DTS Virtual:X"); (0x0D, "Dolby Virtual Height");
     (0x0E, "Auro Native"); (0x0F, "Auro-Matic 3D"); (0x10, "Auro-2D")]%string.

Definition DECODE_MODE_MCH_NAMES : gmap Z string :=
  Object_fromEntries
    [(0x01, "Stereo Downmix"); (0x02, "Multi-Channel"); (0x03, "DTS Neural:X");
     (0x06, "Dolby Surround"); (0x0C, "DTS Virtual:X");
     (0x0D, "Dolby Virtual Height"); (0x0E, "Auro Native");
     (0x0F, "Auro-Matic 3D"); (0x10, "Auro-2D")]%string.

(** [DECODE_MODE_MAP]: Homey id to [(is2ch, value)]. *)
Definition DECODE_MODE_MAP : gmap string (bool * Z) :=
  Object_fromEntries
    [("stereo", (true, 0x01)); ("dolby_surround", (true, 0x04));
     ("neo6_cinema", (true, 0x07)); ("neo6_music", (true, 0x08));
     ("multi_stereo", (true, 0x09)); ("neural_x", (true, 0x0A));
     ("virtual_x", (true, 0x0C)); ("dolby_virtual_height", (true, 0x0D));
     ("auro_native", (true, 0x0E)); ("auro_matic", (true, 0x0F));
     ("auro_2d", (true, 0x10)); ("stereo_downmix", (false, 0x01));
     ("multi_channel", (false, 0x02)); ("mch_neural_x", (false, 0x03));
     ("mch_dolby_surround", (false, 0x06)); ("mch_virtual_x", (false, 0x0C));
     ("mch_dolby_virtual_height", (false, 0x0D));
     ("mch_auro_native", (false, 0x0E)); ("mch_auro_matic", (false, 0x0F));
     ("mch_auro_2d", (false, 0x10))]%string.

Definition DECODE_MODE_2CH_REVERSE : gmap Z string :=
  Object_fromEntries
    [(0x01, "stereo"); (0x04, "dolby_surround"); (0x07, "neo6_cinema");
     (0x08, "neo6_music"); (0x09, "multi_stereo"); (0x0A, "neural_x");
     (0x0C, "virtual_x"); (0x0D, "dolby_virtual_height");
     (0x0E, "auro_native"); (0x0F, "auro_matic"); (0x10, "auro_2d")]%string.

Definition DECODE_MODE_MCH_REVERSE : gmap Z string :=
  Object_fromEntries
    [(0x01, "stereo_downmix"); (0x02, "multi_channel"); (0x03, "mch_neural_x");
     (0x06, "mch_dolby_surround"); (0x0C, "mch_virtual_x");
     (0x0D, "mch_dolby_virtual_height"); (0x0E, "mch_auro_native");
     (0x0F, "mch_auro_matic"); (0x10, "mch_auro_2d")]%string.

Definition HDR_FORMAT_NAMES : gmap Z string :=
  Object_fromEntries
    [(0x00, "SDR"); (0x01, "HDR10"); (0x02, "Dolby Vision"); (0x03, "HLG");
     (0x04, "HDR10+")]%string.

(** ** Video and audio information *)

(** [data[i]] where the read may be out of range: [None] is [undefined]. *)
Definition Buffer_at (b : Buffer) (i : nat) : option Z := byte_val <$> b !! i.

(** The operand conversion of [<<] and [|]: [undefined] becomes 0, a byte
    stays as it is. *)
Definition ToInt32 (x : option Z) : Z := default 0 x.

Record VideoInfo := mkVideoInfo {
  width : Z;
  height : Z;
  refreshRate : option Z;
  interlaced : bool;
  aspectRatio : string;
  hdrFormat : string;
}.

Definition getAspectRatio (value : option Z) : string :=
  match value with
  | Some 1 => "4:3"
  | Some 2 => "16:9"
  | _ => "Unknown"
  end.

Definition parseVideoInfo (d : Buffer) : VideoInfo :=
  {| width := Z.lor (Z.shiftl (ToInt32 (Buffer_at d 0)) 8) (ToInt32 (Buffer_at d 1));
     height := Z.lor (Z.shiftl (ToInt32 (Buffer_at d 2)) 8) (ToInt32 (Buffer_at d 3));
     refreshRate := Buffer_at d 4;
     interlaced := bool_decide (Buffer_at d 5 = Some 0x01);
     aspectRatio := getAspectRatio (Buffer_at d 6);
     hdrFormat := or_else (Buffer_at d 7 ≫= fun k => HDR_FORMAT_NAMES !! k) "Unknown" |}.

(** The text of an integral number in a template literal. *)
Definition Number_toString (n : Z) : string := NilEmpty.string_of_int (Z.to_int n).

Definition formatVideoResolution (info : VideoInfo) : string :=
  if (width info =? 0) && (height info =? 0) then "No Signal"
  else
    let scan := if interlaced info then "i" else "p" in
    String.append (Number_toString (width info))
      (String.append "x"
         (String.append (Number_toString (height info))
            (String.append scan
               (match refreshRate info with
                | Some rate => Number_toString rate
                | None => "undefined"
                end)))).

Record AudioInfo := mkAudioInfo {
  format : string;
  formatId : Z;
  channelConfig : Z;
}.

(** [None]: the call throws a TypeError, which happens when [data[0]] is
    [undefined] and [data[0].toString(16)] is evaluated. *)
Definition parseAudioInfo (d : Buffer) : option AudioInfo :=
  match Buffer_at d 0 with
  | None => None
  | Some id =>
      Some {| formatId := id;
              format := or_else (AUDIO_FORMAT_NAMES !! id)
                          (String.append "Unknown (0x"
                             (String.append (toString16 id) ")"));
              channelConfig := if (1 <? length d)%nat then Buffer_get d 1 else 0 |}
  end.

(** ** Connection state

    The fields of the [JblConnection] object, followed by the part of the
    runtime the object talks to: the timer table behind [setTimeout] /
    [setInterval] / [clearTimeout], the sockets that carry this object's
    listeners, the bytes handed to [socket.write], the calls made to the
    [resolve] / [reject] functions of the promises created by [enqueue], and
    the events passed to [emit]. *)

Record ConnectionOptions := mkConnectionOptions {
  opt_host : string;
  opt_port : Z;
  opt_reconnectDelay : option Z;
  opt_maxReconnectDelay : option Z;
  opt_heartbeatInterval : option Z;
  opt_commandTimeout : option Z;
}.

Record RequiredOptions := mkOptions {
  host : string;
  port : Z;
  reconnectDelay : Z;
  maxReconnectDelay : Z;
  heartbeatInterval : Z;
  commandTimeout : Z;
}.

(** A queued command. Its [resolve] and [reject] functions belong to the
    promise created by the same [enqueue] call that created [timeout], so the
    timer handle identifies the promise. *)
Record QueuedCommand := mkQueued {
  buffer : Buffer;
  timeout : nat;
}.

Inductive Outcome :=
| Resolved (r : JblResponse)
| Rejected (message : string).

Inductive TimerKind :=
| TCommandTimeout      (* enqueue: per-command timeout *)
| TProcessQueue        (* onData: delayed processQueue *)
| TReconnect           (* scheduleReconnect *)
| THeartbeat           (* startHeartbeat (setInterval) *)
| TConnectTimeout.     (* connect: 10 s connect timeout *)

Inductive Emitted :=
| EmConnected
| EmDisconnected
| EmError
| EmReconnecting (attempt : nat) (delay : Z)
| EmStatus (r : JblResponse).

Record State := mkState {
  socket : option nat;
  options : RequiredOptions;
  receiveBuffer : Buffer;
  commandQueue : list QueuedCommand;
  currentCommand : option QueuedCommand;
  reconnectTimer : option nat;
  heartbeatTimer : option nat;
  reconnectAttempts : nat;
  intentionalDisconnect : bool;
  _connected : bool;
  (* runtime *)
  timers : gmap nat (TimerKind * Z);   (* pending timers: handle -> kind, delay *)
  nextTimer : nat;                     (* next fresh timer handle *)
  listeners : gmap nat nat;            (* sockets with our handlers -> their connectTimeout *)
  nextSocket : nat;                    (* next fresh socket *)
  wire : list (nat * QueuedCommand);   (* socket.write calls: socket, command written *)
  settled : list (nat * Outcome);      (* resolve / reject calls, by promise *)
  emitted : list Emitted;              (* emit calls *)
}.

Definition set_socket v s := mkState v (options s) (receiveBuffer s) (commandQueue s) (currentCommand s) (reconnectTimer s) (heartbeatTimer s) (reconnectAttempts s) (intentionalDisconnect s) (_connected s) (timers s) (nextTimer s) (listeners s) (nextSocket s) (wire s) (settled s) (emitted s).
Definition set_receiveBuffer v s := mkState (socket s) (options s) v (commandQueue s) (currentCommand s) (reconnectTimer s) (heartbeatTimer s) (reconnectAttempts s) (intentionalDisconnect s) (_connected s) (timers s) (nextTimer s) (listeners s) (nextSocket s) (wire s) (settled s) (emitted s).
Definition set_commandQueue v s := mkState (socket s) (options s) (receiveBuffer s) v (currentCommand s) (reconnectTimer s) (heartbeatTimer s) (reconnectAttempts s) (intentionalDisconnect s) (_connected s) (timers s) (nextTimer s) (listeners s) (nextSocket s) (wire s) (settled s) (emitted s).
Definition set_currentCommand v s := mkState (socket s) (options s) (receiveBuffer s) (commandQueue s) v (reconnectTimer s) (heartbeatTimer s) (reconnectAttempts s) (intentionalDisconnect s) (_connected s) (timers s) (nextTimer s) (listeners s) (nextSocket s) (wire s) (settled s) (emitted s).
Definition set_reconnectTimer v s := mkState (socket s) (options s) (receiveBuffer s) (commandQueue s) (currentCommand s) v (heartbeatTimer s) (reconnectAttempts s) (intentionalDisconnect s) (_connected s) (timers s) (nextTimer s) (listeners s) (nextSocket s) (wire s) (settled s) (emitted s).
Definition set_heartbeatTimer v s := mkState (socket s) (options s) (receiveBuffer s) (commandQueue s) (currentCommand s) (reconnectTimer s) v (reconnectAttempts s) (intentionalDisconnect s) (_connected s) (timers s) (nextTimer s) (listeners s) (nextSocket s) (wire s) (settled s) (emitted s).
Definition set_reconnectAttempts v s := mkState (socket s) (options s) (receiveBuffer s) (commandQueue s) (currentCommand s) (reconnectTimer s) (heartbeatTimer s) v (intentionalDisconnect s) (_connected s) (timers s) (nextTimer s) (listeners s) (nextSocket s) (wire s) (settled s) (emitted s).
Definition set_intentionalDisconnect v s := mkState (socket s) (options s) (receiveBuffer s) (commandQueue s) (currentCommand s) (reconnectTimer s) (heartbeatTimer s) (reconnectAttempts s) v (_connected s) (timers s) (nextTimer s) (listeners s) (nextSocket s) (wire s) (settled s) (emitted s).
Definition set_connected v s := mkState (socket s) (options s) (receiveBuffer s) (commandQueue s) (currentCommand s) (reconnectTimer s) (heartbeatTimer s) (reconnectAttempts s) (intentionalDisconnect s) v (timers s) (nextTimer s) (listeners s) (nextSocket s) (wire s) (settled s) (emitted s).
Definition set_timers v s := mkState (socket s) (options s) (receiveBuffer s) (commandQueue s) (currentCommand s) (reconnectTimer s) (heartbeatTimer s) (reconnectAttempts s) (intentionalDisconnect s) (_connected s) v (nextTimer s) (listeners s) (nextSocket s) (wire s) (settled s) (emitted s).
Definition set_nextTimer v s := mkState (socket s) (options s) (receiveBuffer s) (commandQueue s) (currentCommand s) (reconnectTimer s) (heartbeatTimer s) (reconnectAttempts s) (intentionalDisconnect s) (_connected s) (timers s) v (listeners s) (nextSocket s) (wire s) (settled s) (emitted s).
Definition set_listeners v s := mkState (socket s) (options s) (receiveBuffer s) (commandQueue s) (currentCommand s) (reconnectTimer s) (heartbeatTimer s) (reconnectAttempts s) (intentionalDisconnect s) (_connected s) (timers s) (nextTimer s) v (nextSocket s) (wire s) (settled s) (emitted s).
Definition set_nextSocket v s := mkState (socket s) (options s) (receiveBuffer s) (commandQueue s) (currentCommand s) (reconnectTimer s) (heartbeatTimer s) (reconnectAttempts s) (intentionalDisconnect s) (_connected s) (timers s) (nextTimer s) (listeners s) v (wire s) (settled s) (emitted s).
Definition set_wire v s := mkState (socket s) (options s) (receiveBuffer s) (commandQueue s) (currentCommand s) (reconnectTimer s) (heartbeatTimer s) (reconnectAttempts s) (intentionalDisconnect s) (_connected s) (timers s) (nextTimer s) (listeners s) (nextSocket s) v (settled s) (emitted s).
Definition set_settled v s := mkState (socket s) (options s) (receiveBuffer s) (commandQueue s) (currentCommand s) (reconnectTimer s) (heartbeatTimer s) (reconnectAttempts s) (intentionalDisconnect s) (_connected s) (timers s) (nextTimer s) (listeners s) (nextSocket s) (wire s) v (emitted s).
Definition set_emitted v s := mkState (socket s) (options s) (receiveBuffer s) (commandQueue s) (currentCommand s) (reconnectTimer s) (heartbeatTimer s) (reconnectAttempts s) (intentionalDisconnect s) (_connected s) (timers s) (nextTimer s) (listeners s) (nextSocket s) (wire s) (settled s) v.

(** *** Runtime primitives *)

(** [setTimeout] / [setInterval]: register a timer, return its handle. *)
Definition setTimeout (kind : TimerKind) (delay : Z) (s : State) : nat * State :=
  let h := nextTimer s in
  (h, set_nextTimer (S h) (set_timers (<[h := (kind, delay)]> (timers s)) s)).

(** [clearTimeout] / [clearInterval]; a handle that is not pending is ignored. *)
Definition clearTimeout (h : nat) (s : State) : State :=
  set_timers (delete h (timers s)) s.

(** Calls of the [resolve] / [reject] function of promise [p]. *)
Definition resolve (p : nat) (r : JblResponse) (s : State) : State :=
  set_settled (settled s ++ [(p, Resolved r)]) s.

Definition reject (p : nat) (message : string) (s : State) : State :=
  set_settled (settled s ++ [(p, Rejected message)]) s.

Definition emit (e : Emitted) (s : State) : State :=
  set_emitted (emitted s ++ [e]) s.

(** The constructor: defaults, overridden by the caller's options. *)
Definition constructor_options (o : ConnectionOptions) : RequiredOptions :=
  {| host := opt_host o;
     port := opt_port o;
     reconnectDelay := default 3000 (opt_reconnectDelay o);
     maxReconnectDelay := default 60000 (opt_maxReconnectDelay o);
     heartbeatInterval := default 30000 (opt_heartbeatInterval o);
     commandTimeout := default 5000 (opt_commandTimeout o) |}.

Definition constructor (o : ConnectionOptions) : State :=
  {| socket := None;
     options := constructor_options o;
     receiveBuffer := [];
     commandQueue := [];
     currentCommand := None;
     reconnectTimer := None;
     heartbeatTimer := None;
     reconnectAttempts := 0;
     intentionalDisconnect := false;
     _connected := false;
     timers := ∅;
     nextTimer := 0;
     listeners := ∅;
     nextSocket := 0;
     wire := [];
     settled := [];
     emitted := [] |}.

(** ** The connection's methods and handlers *)

Section Connection.

(** Whether [socket.write(buffer)] throws, and with which error message. *)
Variable write_error : Buffer -> option string.

(** [processQueue]. [queue] is always [commandQueue s]; it is passed along so
    that the retry after a failed write recurses on the tail left by
    [shift()]. *)
Fixpoint processQueue_from (queue : list QueuedCommand) (s : State) : State :=
  match currentCommand s with
  | Some _ => s
  | None =>
      match queue with
      | [] => s
      | q :: rest =>
          match _connected s, socket s with
          | true, Some sock =>
              let s := set_commandQueue rest (set_currentCommand (Some q) s) in
              match write_error (buffer q) with
              | None => set_wire (wire s ++ [(sock, q)]) s
              | Some err =>
                  let s := clearTimeout (timeout q) s in
                  let s := reject (timeout q) err s in
                  let s := set_currentCommand None s in
                  processQueue_from rest s
              end
          | _, _ => s
          end
      end
  end.

Definition processQueue (s : State) : State :=
  processQueue_from (commandQueue s) s.

Definition enqueue (b : Buffer) (s : State) : State :=
  let (h, s) := setTimeout TCommandTimeout (commandTimeout (options s)) s in
  let queued := {| buffer := b; timeout := h |} in
  let s := set_commandQueue (commandQueue s ++ [queued]) s in
  processQueue s.

(** [commandQueue.splice(idx, 1)] at the first entry whose timer is [h]. *)
Fixpoint splice_timeout (h : nat) (queue : list QueuedCommand) : list QueuedCommand :=
  match queue with
  | [] => []
  | q :: rest => if Nat.eqb (timeout q) h then rest else q :: splice_timeout h rest
  end.

(** The callback given to [setTimeout] in [enqueue], for timer [h]. *)
Definition onCommandTimeout (h : nat) (s : State) : State :=
  let s := set_commandQueue (splice_timeout h (commandQueue s)) s in
  let s :=
    match currentCommand s with
    | Some c =>
        if Nat.eqb (timeout c) h
        then processQueue (set_currentCommand None s)
        else s
    | None => s
    end in
  reject h "Command timeout" s.

Definition sendCommand (zone : Zone) (cmd : Cmd) (payload : list Z) : State -> State :=
  enqueue (buildCommand zone cmd payload).

Definition query (zone : Zone) (cmd : Cmd) : State -> State :=
  enqueue (buildQuery zone cmd).

Definition sendRC5 (zone : Zone) (system command : Z) : State -> State :=
  enqueue (buildRC5 zone system command).

(** One iteration of the [while (result)] loop of [onData]. *)
Definition onResponse (result : ParseResult) (s : State) : State :=
  let s := set_receiveBuffer (subarray (bytesConsumed result) (receiveBuffer s)) s in
  match currentCommand s with
  | Some c =>
      let s := clearTimeout (timeout c) s in
      let s := if isError (response result)
               then reject (timeout c) (errorMessage (answer (response result))) s
               else resolve (timeout c) (response result) s in
      let s := set_currentCommand None s in
      snd (setTimeout TProcessQueue 50 s)
  | None => emit (EmStatus (response result)) s
  end.

(** The loop itself; [None] means the iteration budget [fuel] was exhausted
    before [parseResponse] returned [null]. *)
Fixpoint onData_loop (fuel : nat) (s : State) : option State :=
  match parseResponse (receiveBuffer s) with
  | None => Some s
  | Some result =>
      match fuel with
      | O => None
      | S fuel' => onData_loop fuel' (onResponse result s)
      end
  end.

Definition onData (chunk : Buffer) (s : State) : option State :=
  let s := set_receiveBuffer (receiveBuffer s ++ chunk) s in
  match onData_loop (length (receiveBuffer s)) s with
  | Some s =>
      Some (if (1024 <? length (receiveBuffer s))%nat
            then set_receiveBuffer [] s else s)
  | None => None
  end.

Definition stopHeartbeat (s : State) : State :=
  match heartbeatTimer s with
  | Some h => set_heartbeatTimer None (clearTimeout h s)
  | None => s
  end.

Definition startHeartbeat (s : State) : State :=
  let s := stopHeartbeat s in
  let (h, s) := setTimeout THeartbeat (heartbeatInterval (options s)) s in
  set_heartbeatTimer (Some h) s.

Definition clearReconnect (s : State) : State :=
  match reconnectTimer s with
  | Some h => set_reconnectTimer None (clearTimeout h s)
  | None => s
  end.

(** [Math.min(reconnectDelay * Math.pow(2, attempts), maxReconnectDelay)] *)
Definition reconnect_delay (o : RequiredOptions) (attempts : nat) : Z :=
  Z.min (reconnectDelay o * 2 ^ Z.of_nat attempts) (maxReconnectDelay o).

Definition scheduleReconnect (s : State) : State :=
  let s := clearReconnect s in
  let delay := reconnect_delay (options s) (reconnectAttempts s) in
  let s := set_reconnectAttempts (S (reconnectAttempts s)) s in
  let s := emit (EmReconnecting (reconnectAttempts s) delay) s in
  let (h, s) := setTimeout TReconnect delay s in
  set_reconnectTimer (Some h) s.

Definition rejectPending (reason : string) (s : State) : State :=
  let s :=
    match currentCommand s with
    | Some c =>
        set_currentCommand None (reject (timeout c) reason (clearTimeout (timeout c) s))
    | None => s
    end in
  let s := fold_left (fun s queued => reject (timeout queued) reason (clearTimeout (timeout queued) s))
                     (commandQueue s) s in
  set_commandQueue [] s.

(** [connect()]: the synchronous part, up to [socket.connect(port, host)]. *)
Definition connect (s : State) : State :=
  let s := set_intentionalDisconnect false s in
  let s := match socket s with
           | Some old => set_listeners (delete old (listeners s)) s
           | None => s
           end in
  let sock := nextSocket s in
  let s := set_nextSocket (S sock) (set_socket (Some sock) s) in
  let (connectTimeout, s) := setTimeout TConnectTimeout 10000 s in
  set_listeners (<[sock := connectTimeout]> (listeners s)) s.

(** [socket.once('connect', ...)] *)
Definition onSocketConnect (connectTimeout : nat) (s : State) : State :=
  let s := clearTimeout connectTimeout s in
  let s := set_connected true s in
  let s := set_reconnectAttempts 0 s in
  let s := startHeartbeat s in
  emit EmConnected s.

(** [socket.on('error', ...)] *)
Definition onSocketError (connectTimeout : nat) (s : State) : State :=
  emit EmError (clearTimeout connectTimeout s).

(** [socket.on('close', ...)]. The extra [once('close')] listener that
    [disconnect] adds only repeats [_connected = false]. *)
Definition onSocketClose (s : State) : State :=
  let wasConnected := _connected s in
  let s := set_connected false s in
  let s := stopHeartbeat s in
  let s := rejectPending "Connection closed" s in
  let s := if wasConnected then emit EmDisconnected s else s in
  if negb (intentionalDisconnect s) then scheduleReconnect s else s.

Definition disconnect (s : State) : State :=
  let s := set_intentionalDisconnect true s in
  let s := stopHeartbeat s in
  let s := clearReconnect s in
  let s := rejectPending "Disconnecting" s in
  match socket s with
  | None => set_connected false s
  | Some _ => set_socket None s
  end.

(** *** Events

    What can happen to a connection: a call of its public API, an event of
    a socket that carries its listeners, or a pending timer firing. Handlers
    run to completion, one at a time. The environment is not constrained
    further: a socket may deliver its events in any order and any pending
    timer may fire next, so what holds for every trace holds in particular
    for the traces Node.js can produce. [testConnection] is a composition of
    [connect], [query] and [disconnect] and has no event of its own. *)

Inductive Event :=
| CallConnect
| CallDisconnect
| CallSendCommand (zone : Zone) (cmd : Cmd) (payload : list Z)
| CallQuery (zone : Zone) (cmd : Cmd)
| CallSendRC5 (zone : Zone) (system command : Z)
| SocketConnect (sock : nat)
| SocketData (sock : nat) (chunk : Buffer)
| SocketError (sock : nat)
| SocketClose (sock : nat)
| TimerFires (h : nat).

(** The callback of a pending timer. A one-shot timer leaves the table when
    it fires; the heartbeat interval stays. *)
Definition onTimer (h : nat) (kind : TimerKind) (s : State) : State :=
  match kind with
  | TCommandTimeout => onCommandTimeout h (clearTimeout h s)
  | TProcessQueue => processQueue (clearTimeout h s)
  | TReconnect => connect (clearTimeout h s)
  | THeartbeat => query MASTER HEARTBEAT s
  | TConnectTimeout => clearTimeout h s
  end.

(** [None]: the event cannot happen in this state (the socket does not carry
    our listeners, the timer is not pending). *)
Definition step (s : State) (e : Event) : option State :=
  match e with
  | CallConnect => Some (connect s)
  | CallDisconnect => Some (disconnect s)
  | CallSendCommand zone cmd payload => Some (sendCommand zone cmd payload s)
  | CallQuery zone cmd => Some (query zone cmd s)
  | CallSendRC5 zone system command => Some (sendRC5 zone system command s)
  | SocketConnect sock =>
      match listeners s !! sock with
      | Some ct => Some (onSocketConnect ct s)
      | None => None
      end
  | SocketData sock chunk =>
      match listeners s !! sock with
      | Some _ => onData chunk s
      | None => None
      end
  | SocketError sock =>
      match listeners s !! sock with
      | Some ct => Some (onSocketError ct s)
      | None => None
      end
  | SocketClose sock =>
      match listeners s !! sock with
      | Some _ => Some (onSocketClose (set_listeners (delete sock (listeners s)) s))
      | None => None
      end
  | TimerFires h =>
      match timers s !! h with
      | Some (kind, _) => Some (onTimer h kind s)
      | None => None
      end
  end.

Fixpoint run (s : State) (trace : list Event) : option State :=
  match trace with
  | [] => Some s
  | e :: rest =>
      match step s e with
      | Some s' => run s' rest
      | None => None
      end
  end.

End Connection.

(** * Definitions used to state the properties *)

(** The layout of a reply frame, from the comment in [parseResponse]:
    STX + Zone + Cmd + Answer + DL + Data[DL] + ETX. *)
Definition responseFrame (zone command answer : Z) (payload : Buffer) : Buffer :=
  Buffer_from [STX; zone; command; answer; Z.of_nat (length payload)]
  ++ payload ++ Buffer_from [ETX].

(** Timer handles of a list of commands, which also identify their promises. *)
Definition ids (l : list QueuedCommand) : list nat := timeout <$> l.

(** The part of a state the queue invariants speak about. [v_settled] lists
    the promises settled so far; [v_aux] holds the timer handles kept in
    [heartbeatTimer], [reconnectTimer] and the socket listeners. *)
Record View := mkView {
  v_queue : list QueuedCommand;
  v_current : option QueuedCommand;
  v_timers : gmap nat (TimerKind * Z);
  v_next : nat;
  v_settled : list nat;
  v_wire : list QueuedCommand;
  v_delay : Z;
  v_aux : nat -> Prop;
}.

Definition v_pending (v : View) : list QueuedCommand :=
  option_list (v_current v) ++ v_queue v.

(** The invariant, relative to a list [X] of promises that the running
    handler has taken out of the queue and is about to reject. *)
Record InvV (X : list nat) (v : View) : Prop := mkInvV {
  inv_fifo : StronglySorted lt (ids (v_wire v) ++ ids (v_queue v));
  inv_current_written :
    forall c, v_current v = Some c -> last (v_wire v) = Some c;
  inv_wire_settled :
    forall q, q ∈ v_wire v -> timeout q ∈ v_settled v ++ X \/ v_current v = Some q;
  inv_pending_unsettled :
    forall q, q ∈ v_pending v -> timeout q ∉ v_settled v ++ X;
  inv_settled_once : NoDup (v_settled v ++ X);
  inv_pending_fresh : forall q, q ∈ v_pending v -> (timeout q < v_next v)%nat;
  inv_settled_fresh : forall h, h ∈ v_settled v ++ X -> (h < v_next v)%nat;
  inv_timers_fresh : forall h, is_Some (v_timers v !! h) -> (h < v_next v)%nat;
  inv_aux_fresh : forall h, v_aux v h -> (h < v_next v)%nat;
  inv_pending_timer :
    forall q, q ∈ v_pending v ->
              v_timers v !! timeout q = Some (TCommandTimeout, v_delay v);
  inv_timer_pending :
    forall h d, v_timers v !! h = Some (TCommandTimeout, d) -> h ∈ ids (v_pending v);
  inv_aux_not_pending : forall h, v_aux v h -> h ∉ ids (v_pending v);
}.

Definition aux_handle (s : State) (h : nat) : Prop :=
  heartbeatTimer s = Some h \/ reconnectTimer s = Some h \/
  exists sock, listeners s !! sock = Some h.

Definition view (s : State) : View :=
  {| v_queue := commandQueue s;
     v_current := currentCommand s;
     v_timers := timers s;
     v_next := nextTimer s;
     v_settled := fst <$> settled s;
     v_wire := snd <$> wire s;
     v_delay := commandTimeout (options s);
     v_aux := aux_handle s |}.

Definition InvX (X : list nat) (s : State) : Prop := InvV X (view s).
Definition Inv (s : State) : Prop := InvX [] s.

Definition pending (s : State) : list QueuedCommand :=
  option_list (currentCommand s) ++ commandQueue s.

(** [s'] is [s] after more handler code ran: nothing is ever removed from
    the log of settled promises, and the options never change. *)
Definition extends (s s' : State) : Prop :=
  settled s `prefix_of` settled s' /\ options s' = options s.

(** How [onData] settles the command in flight with a parsed frame. *)
Definition outcome_of (r : JblResponse) : Outcome :=
  if isError r then Rejected (errorMessage (answer r)) else Resolved r.

Definition queue_frame (s s' : State) : Prop :=
  currentCommand s' = currentCommand s /\ commandQueue s' = commandQueue s /\
  wire s' = wire s /\ settled s' = settled s.

(** The commands written to a socket whose promise is not settled yet. *)
Definition in_flight (s : State) : list QueuedCommand :=
  filter (fun q => timeout q ∉ fst <$> settled s) (snd <$> wire s).

(** While the command in flight is not settled, nothing else is written and
    the queued commands stay queued unless they time out. *)
Definition kept_in_flight (c : QueuedCommand) (s s' : State) : Prop :=
  currentCommand s' = Some c /\ wire s' = wire s /\
  forall q, q ∈ commandQueue s ->
            q ∈ commandQueue s' \/ timeout q ∈ fst <$> settled s'.

(** Sample inputs: a socket whose [write] never throws, a connection with
    default options, and a session that connects and sends one query. *)
Definition no_write_error : Buffer -> option string := fun _ => None.

Definition sample_options : ConnectionOptions :=
  {| opt_host := "192.168.1.50"; opt_port := 50000;
     opt_reconnectDelay := None; opt_maxReconnectDelay := None;
     opt_heartbeatInterval := None; opt_commandTimeout := None |}.

Definition sample_session : list Event :=
  [CallConnect; SocketConnect 0; CallQuery MASTER VOLUME].

(** The link fails seven times in a row: each close schedules a reconnect,
    whose timer calls [connect] on a new socket that closes again. *)
Definition failing_link : list Event :=
  [CallConnect;
   SocketClose 0; TimerFires 1; SocketClose 1; TimerFires 3;
   SocketClose 2; TimerFires 5; SocketClose 3; TimerFires 7;
   SocketClose 4; TimerFires 9; SocketClose 5; TimerFires 11;
   SocketClose 6].

(** The state at the end of [sample_session]: connected, the query in
    flight, its timer and the heartbeat timer pending. *)
Definition sample_state : State :=
  Eval vm_compute in
    default (constructor sample_options)
            (run no_write_error (constructor sample_options) sample_session).




(** More sample inputs: a volume reply; the connection right after
    [connect()], its socket still connecting; and the sample session after
    the timeout of its query has fired. *)
Definition sample_reply : Buffer :=
  Buffer_from [0x21; 0x01; 0x0D; 0x00; 0x01; 0x32; 0x0D].


Definition sample_timed_out_state : State :=
  Eval vm_compute in
    default (constructor sample_options)
            (run no_write_error sample_state [TimerFires 2]).

(** ** Definitions for the further properties *)

(** The heartbeat interval and the reconnect timer are owned by the fields
    [heartbeatTimer] and [reconnectTimer]: a pending timer of either kind is
    the one its field holds. The heartbeat runs with the configured period
    and only while the connection counts as connected; no reconnect waits
    longer than [maxReconnectDelay]. *)
Definition timer_owners (s : State) : Prop :=
  (forall h d, timers s !! h = Some (THeartbeat, d) ->
     heartbeatTimer s = Some h /\ d = heartbeatInterval (options s)) /\
  (forall h d, timers s !! h = Some (TReconnect, d) ->
     reconnectTimer s = Some h /\ d <= maxReconnectDelay (options s)) /\
  (forall h, heartbeatTimer s = Some h -> _connected s = true).

(** What the handlers of the command queue leave alone: the fields of the
    link, its heartbeat and reconnect timers, the 'reconnecting' events, and
    the socket writes when there is no socket. *)
Definition link_kept (s s' : State) : Prop :=
  heartbeatTimer s' = heartbeatTimer s /\ reconnectTimer s' = reconnectTimer s /\
  options s' = options s /\ _connected s' = _connected s /\
  socket s' = socket s /\ intentionalDisconnect s' = intentionalDisconnect s /\
  (forall h k d, timers s' !! h = Some (k, d) -> k = THeartbeat \/ k = TReconnect ->
                 timers s !! h = Some (k, d)) /\
  (socket s = None -> wire s' = wire s) /\
  (forall n d, EmReconnecting n d ∈ emitted s' -> EmReconnecting n d ∈ emitted s).

(** A handler that neither reconnects nor gives a closed connection a
    socket: it leaves [intentionalDisconnect] and [socket] alone, arms no
    reconnect timer, emits no 'reconnecting', and writes nothing while there
    is no socket. *)
Definition stays_down (s s' : State) : Prop :=
  intentionalDisconnect s' = intentionalDisconnect s /\ socket s' = socket s /\
  (forall h d, timers s' !! h = Some (TReconnect, d) ->
               timers s !! h = Some (TReconnect, d)) /\
  (socket s = None -> wire s' = wire s) /\
  (forall n d, EmReconnecting n d ∈ emitted s' -> EmReconnecting n d ∈ emitted s).

(** Every request pending in [s] is still pending in [s'] or has been
    settled; and [s'] is [s] after more handler code ran. *)
Definition requests_kept (s s' : State) : Prop :=
  extends s s' /\
  forall q, q ∈ pending s -> q ∈ pending s' \/ timeout q ∈ (settled s').*1.

(** Sample inputs for the further properties: a socket whose [write]
    throws for volume commands; a connection that was given a command while
    its socket was still connecting; the sample session with a second query, which
    waits in the queue; and the sample session after [disconnect()], one
    more query and the close of the destroyed socket. *)
Definition sample_failing_write : Buffer -> option string :=
  fun b => if Buffer_get b 2 =? Cmd_code VOLUME then Some "write EPIPE"%string else None.

Definition sample_connecting : State :=
  Eval vm_compute in
    enqueue no_write_error (buildQuery MASTER POWER) (connect (constructor sample_options)).

Definition sample_queued_state : State :=
  Eval vm_compute in
    default (constructor sample_options)
            (run no_write_error (constructor sample_options)
                 (sample_session ++ [CallQuery MASTER POWER])).

Definition sample_closed_state : State :=
  Eval vm_compute in
    default (constructor sample_options)
            (run no_write_error (disconnect sample_state)
                 [CallQuery MASTER VOLUME; SocketClose 0]).

Definition sample_lost_link_state : State :=
  Eval vm_compute in
    default (constructor sample_options)
            (run no_write_error
                 (enqueue no_write_error (buildQuery MASTER POWER) sample_state)
                 [SocketClose 0]).

(** * Properties of the frame codec *)

Lemma indexOf_lt value buffer i :
  indexOf value buffer = Some i -> (i < length buffer)%nat.
Proof.
  revert i. induction buffer as [|b rest IH]; simpl; intros i H; [discriminate|].
  destruct (byte_val b =? Z.land value 255).
  - injection H as <-. lia.
  - destruct (indexOf value rest) as [j|]; [|discriminate].
    injection H as <-. specialize (IH j eq_refl). lia.
Qed.

Example parse_volume_reply :
  parseResponse (Buffer_from [0x21; 0x01; 0x0D; 0x00; 0x01; 0x32; 0x0D])
  = Some {| response := {| zone := 1; command := 0x0D; answer := 0;
                           data := Buffer_from [0x32] |};
            bytesConsumed := 7 |}.
Proof. vm_compute. reflexivity. Qed.

Lemma byte_val_range b : 0 <= byte_val b < 256.
Proof.
  unfold byte_val. pose proof (Byte.to_N_bounded b). lia.
Qed.

Lemma to_u8_val n : byte_val (to_u8 n) = Z.land n 255.
Proof.
  unfold to_u8, byte_val.
  assert (Hr : 0 <= Z.land n 255 < 256).
  { change 255 with (Z.ones 8). rewrite Z.land_ones by lia.
    apply Z.mod_pos_bound. reflexivity. }
  destruct (Byte.of_N (Z.to_N (Z.land n 255))) as [b|] eqn:E.
  - apply Byte.to_of_N in E. rewrite E. lia.
  - apply Byte.of_N_None_iff in E. lia.
Qed.

Lemma to_u8_val_small n : 0 <= n < 256 -> byte_val (to_u8 n) = n.
Proof.
  intros H. rewrite to_u8_val. change 255 with (Z.ones 8).
  rewrite Z.land_ones by lia. apply Z.mod_small. exact H.
Qed.

Lemma to_u8_byte_val b : to_u8 (byte_val b) = b.
Proof.
  unfold to_u8. pose proof (byte_val_range b) as Hr.
  change 255 with (Z.ones 8). rewrite Z.land_ones by lia.
  rewrite Z.mod_small by exact Hr.
  unfold byte_val. rewrite N2Z.id, Byte.of_to_N. reflexivity.
Qed.

(** The defining equation of [parseResponse], with the recursion visible. *)
Lemma parseResponse_eq b :
  parseResponse b =
  match indexOf STX b with
  | None => None
  | Some startIdx =>
      if (length b - startIdx <? 6)%nat then None else
      let dataLength := Z.to_nat (Buffer_get b (startIdx + 4)) in
      let totalLength := (5 + dataLength + 1)%nat in
      if (length b - startIdx <? totalLength)%nat then None else
      if negb (Buffer_get b (startIdx + totalLength - 1) =? ETX) then
        parseResponse (subarray (startIdx + 1) b)
      else
        Some {| response :=
                  {| zone := Buffer_get b (startIdx + 1);
                     command := Buffer_get b (startIdx + 2);
                     answer := Buffer_get b (startIdx + 3);
                     data := subarray2 (startIdx + 5) (startIdx + 5 + dataLength) b |};
                bytesConsumed := (startIdx + totalLength)%nat |}
  end.
Proof.
  rewrite parseResponse_equation_1. unfold inspect.
  match goal with
  | |- _ = match _ with Some i => @?body i | None => _ end =>
      enough (H : forall o (e : indexOf STX b = o),
                 parseResponse_unfold_clause_1 b (exist _ o e) =
                 match o with Some i => body i | None => None end) by apply H
  end.
  intros [i|] e; reflexivity.
Qed.

Lemma length_subarray2 start stop (b : Buffer) :
  (stop <= length b)%nat -> (start <= stop)%nat ->
  length (subarray2 start stop b) = (stop - start)%nat.
Proof.
  intros H1 H2. unfold subarray2. rewrite length_firstn, length_skipn. lia.
Qed.

(** What a successful parse reports: the frame it returns ends
    [bytesConsumed] bytes into the buffer it was given or into one of its
    suffixes, and is at least six bytes long. *)
Lemma parseResponse_bounds b r :
  parseResponse b = Some r ->
  (6 + length (data (response r)) <= bytesConsumed r)%nat /\
  (bytesConsumed r <= length b)%nat.
Proof.
  remember (length b) as n eqn:Hn. revert b Hn r.
  induction n as [n IH] using lt_wf_ind. intros b -> r.
  rewrite parseResponse_eq.
  destruct (indexOf STX b) as [i|] eqn:Hi; [|discriminate].
  pose proof (indexOf_lt _ _ _ Hi) as Hlt.
  destruct (Nat.ltb_spec (length b - i) 6); [discriminate|]. cbv zeta.
  set (dl := Z.to_nat (Buffer_get b (i + 4))).
  destruct (Nat.ltb_spec (length b - i) (5 + dl + 1)); [discriminate|].
  destruct (negb _).
  - intros Hrec.
    assert (Hlen : (length (subarray (i + 1) b) < length b)%nat).
    { unfold subarray. rewrite length_skipn. lia. }
    destruct (IH _ Hlen _ eq_refl _ Hrec) as [H1 H2]. split; [exact H1|lia].
  - intros [= <-]. simpl. rewrite length_subarray2 by lia. lia.
Qed.

Lemma length_responseFrame z c a payload :
  length (responseFrame z c a payload) = (6 + length payload)%nat.
Proof.
  unfold responseFrame. rewrite !length_app. simpl. lia.
Qed.

Lemma indexOf_app_cons value prefix b rest :
  indexOf value prefix = None ->
  byte_val b = Z.land value 255 ->
  indexOf value (prefix ++ b :: rest) = Some (length prefix).
Proof.
  intros Hp Hb. induction prefix as [|x prefix IH]; simpl in *.
  - rewrite Hb, Z.eqb_refl. reflexivity.
  - destruct (byte_val x =? Z.land value 255); [discriminate|].
    destruct (indexOf value prefix); [discriminate|].
    rewrite IH by reflexivity. reflexivity.
Qed.

Lemma Buffer_get_app_r (prefix rest : Buffer) k :
  Buffer_get (prefix ++ rest) (length prefix + k) = Buffer_get rest k.
Proof.
  unfold Buffer_get. rewrite app_nth2_plus. reflexivity.
Qed.

Lemma parseResponse_frame_bytes prefix bs bz bc ba bl payload be rest :
  indexOf STX prefix = None ->
  byte_val bs = STX ->
  byte_val bl = Z.of_nat (length payload) ->
  byte_val be = ETX ->
  parseResponse (prefix ++ bs :: bz :: bc :: ba :: bl :: payload ++ be :: rest) =
  Some {| response := {| zone := byte_val bz; command := byte_val bc;
                         answer := byte_val ba; data := payload |};
          bytesConsumed := (length prefix + (6 + length payload))%nat |}.
Proof.
  intros Hp Hs Hl He.
  set (n := length payload) in *.
  set (tail := payload ++ be :: rest).
  rewrite parseResponse_eq.
  rewrite (indexOf_app_cons STX prefix bs (bz :: bc :: ba :: bl :: tail) Hp) by exact Hs.
  set (frame := bs :: bz :: bc :: ba :: bl :: tail).
  assert (Hlt : length tail = (n + 1 + length rest)%nat).
  { subst tail. rewrite length_app. simpl. lia. }
  assert (Hlen : length (prefix ++ frame) = (length prefix + (5 + length tail))%nat).
  { rewrite length_app. simpl. lia. }
  rewrite Hlen.
  destruct (Nat.ltb_spec (length prefix + (5 + length tail) - length prefix) 6); [lia|].
  cbv zeta.
  rewrite !Buffer_get_app_r.
  assert (Hdl : Z.to_nat (Buffer_get frame 4) = n).
  { unfold Buffer_get. simpl. rewrite Hl. lia. }
  rewrite Hdl.
  destruct (Nat.ltb_spec (length prefix + (5 + length tail) - length prefix) (5 + n + 1)); [lia|].
  replace (length prefix + (5 + n + 1) - 1)%nat with (length prefix + (5 + n))%nat by lia.
  rewrite Buffer_get_app_r.
  assert (Hetx : Buffer_get frame (5 + n) = ETX).
  { unfold Buffer_get. simpl. subst tail n.
    rewrite app_nth2 by lia. rewrite Nat.sub_diag. exact He. }
  rewrite Hetx, Z.eqb_refl. simpl negb. cbv iota.
  do 2 f_equal; [|lia].
  unfold Buffer_get. simpl. f_equal.
  unfold subarray2.
  replace (length prefix + 5 + n - (length prefix + 5))%nat with n by lia.
  unfold subarray. rewrite skipn_app, skipn_all2 by lia.
  replace (length prefix + 5 - length prefix)%nat with 5%nat by lia.
  simpl. subst tail n. apply take_app_length.
Qed.

(** A reply frame that follows bytes free of the start byte is found, and
    the count reported covers the leading bytes and the frame. *)
Lemma parseResponse_after_garbage prefix z c a payload rest :
  indexOf STX prefix = None ->
  (length payload <= 255)%nat ->
  parseResponse (prefix ++ responseFrame z c a payload ++ rest) =
  Some {| response := {| zone := Z.land z 255; command := Z.land c 255;
                         answer := Z.land a 255; data := payload |};
          bytesConsumed := (length prefix + length (responseFrame z c a payload))%nat |}.
Proof.
  intros Hp Hlen. rewrite length_responseFrame.
  unfold responseFrame. cbn [Buffer_from map app].
  rewrite <- app_assoc. cbn [app].
  rewrite (parseResponse_frame_bytes prefix _ _ _ _ _ payload _ rest Hp).
  - rewrite !to_u8_val. reflexivity.
  - reflexivity.
  - apply to_u8_val_small. lia.
  - reflexivity.
Qed.

(** When the frame at the first start byte fails the ETX check, the result
    is the one for the buffer that starts after that byte, offsets
    included. *)
Lemma parseResponse_skip b i :
  indexOf STX b = Some i ->
  let totalLength := (5 + Z.to_nat (Buffer_get b (i + 4)) + 1)%nat in
  (totalLength <= length b - i)%nat ->
  Buffer_get b (i + totalLength - 1) <> ETX ->
  parseResponse b = parseResponse (subarray (i + 1) b).
Proof.
  intros Hi total Hlen Hetx. rewrite parseResponse_eq at 1. rewrite Hi.
  destruct (Nat.ltb_spec (length b - i) 6); [unfold total in *; lia|].
  cbv zeta. fold total.
  destruct (Nat.ltb_spec (length b - i) total); [lia|].
  destruct (Z.eqb_spec (Buffer_get b (i + total - 1)) ETX); [contradiction|].
  reflexivity.
Qed.

Lemma parseResponse_skip_count b i r :
  indexOf STX b = Some i ->
  let totalLength := (5 + Z.to_nat (Buffer_get b (i + 4)) + 1)%nat in
  (totalLength <= length b - i)%nat ->
  Buffer_get b (i + totalLength - 1) <> ETX ->
  parseResponse b = Some r ->
  (bytesConsumed r + (i + 1) <= length b)%nat.
Proof.
  intros Hi total Hlen Hetx Hr.
  rewrite (parseResponse_skip b i Hi Hlen Hetx) in Hr.
  apply parseResponse_bounds in Hr. destruct Hr as [_ Hr].
  unfold subarray in Hr. rewrite length_skipn in Hr.
  apply indexOf_lt in Hi. lia.
Qed.

Lemma Zone_code_byte z : Z.land (Zone_code z) 255 = Zone_code z.
Proof. destruct z; reflexivity. Qed.

Lemma Cmd_code_byte c : Z.land (Cmd_code c) 255 = Cmd_code c.
Proof. destruct c; reflexivity. Qed.

Lemma length_buildCommand z c payload :
  length (buildCommand z c payload) = (5 + length payload)%nat.
Proof.
  unfold buildCommand, Buffer_from. rewrite length_map, !length_app. simpl. lia.
Qed.

(** C7. A buffer whose first start byte begins a frame that declares more
    bytes than are present parses to nothing; [onData] then keeps the whole
    accumulated buffer (below the 1024-byte ceiling) and changes nothing
    else. *)
Theorem parseResponse_truncated b i :
  indexOf STX b = Some i ->
  (length b - i < 5 + Z.to_nat (Buffer_get b (i + 4)) + 1)%nat ->
  parseResponse b = None /\
  forall s chunk,
    receiveBuffer s ++ chunk = b -> (length b <= 1024)%nat ->
    onData chunk s = Some (set_receiveBuffer b s).
Proof.
  intros Hi Hlen.
  assert (Hnone : parseResponse b = None).
  { rewrite parseResponse_eq, Hi.
    destruct (Nat.ltb_spec (length b - i) 6); [reflexivity|]. cbv zeta.
    destruct (Nat.ltb_spec (length b - i) (5 + Z.to_nat (Buffer_get b (i + 4)) + 1));
      [reflexivity|lia]. }
  split; [exact Hnone|].
  intros s chunk Hb Hsize. unfold onData. cbn [receiveBuffer set_receiveBuffer].
  rewrite Hb.
  destruct (length b) as [|n] eqn:Hn; simpl; rewrite Hnone; simpl.
  - rewrite Hn. reflexivity.
  - rewrite Hn. destruct (Nat.ltb_spec 1024 (S n)); [lia|reflexivity].
Qed.

(** C9. [buildQuery] is [buildCommand] with the one-byte payload 0xF0; for
    MASTER / VOLUME the bytes are 21 01 0D 01 F0 0D. *)
Theorem buildQuery_is_buildCommand_request :
  (forall z c, buildQuery z c = buildCommand z c [0xF0]) /\
  (forall z c, map byte_val (buildQuery z c)
               = [0x21; Zone_code z; Cmd_code c; 0x01; 0xF0; 0x0D]) /\
  buildQuery MASTER VOLUME = Buffer_from [0x21; 0x01; 0x0D; 0x01; 0xF0; 0x0D].
Proof.
  split; [reflexivity|]. split; [|reflexivity].
  intros z c. unfold buildQuery, buildCommand, Buffer_from. simpl.
  rewrite !to_u8_val, Zone_code_byte, Cmd_code_byte. reflexivity.
Qed.

(** C1. A corrupt six-byte frame followed by a well-formed seven-byte reply:
    the reply is found, but the count returned is 12, relative to the buffer
    that starts after the skipped start byte, not the 13 bytes that precede
    the end of the reply; [onData] therefore leaves the reply's last byte in
    the receive buffer. *)
Theorem parseResponse_skip_undercounts :
  let corrupt := Buffer_from [0x21; 0x01; 0x0D; 0x00; 0x00; 0xFF] in
  let reply := responseFrame 0x01 0x0D 0x00 (Buffer_from [0x32]) in
  parseResponse (corrupt ++ reply)
  = Some {| response := {| zone := 0x01; command := 0x0D; answer := 0x00;
                           data := Buffer_from [0x32] |};
            bytesConsumed := 12 |} /\
  (length corrupt + length reply)%nat = 13%nat /\
  forall o,
    option_map receiveBuffer (onData (corrupt ++ reply) (constructor o))
    = Some (Buffer_from [0x0D]).
Proof.
  split; [vm_compute; reflexivity|]. split; [reflexivity|].
  intros o. vm_compute. reflexivity.
Qed.

(** C4, as stated, at zone MASTER, command VOLUME, payload [0x32]: the bytes
    of [buildCommand] do not parse back. *)
Lemma buildCommand_not_parsed_back :
  ~ exists r,
      parseResponse (buildCommand MASTER VOLUME [0x32]) = Some r /\
      zone (response r) = Zone_code MASTER /\
      command (response r) = Cmd_code VOLUME /\
      data (response r) = Buffer_from [0x32].
Proof.
  intros (r & Hr & _). vm_compute in Hr. discriminate.
Qed.

(** C4, amended. A frame in the reply layout (with the answer byte) parses
    back to its zone, command, answer and payload; the bytes of
    [buildCommand], which carry no answer byte, never parse to a payload as
    long as the one that was encoded. *)
Theorem responseFrame_roundtrip z c a payload :
  (length payload <= 255)%nat ->
  parseResponse (responseFrame (Zone_code z) (Cmd_code c) a (Buffer_from payload))
  = Some {| response := {| zone := Zone_code z; command := Cmd_code c;
                           answer := Z.land a 255; data := Buffer_from payload |};
            bytesConsumed := (6 + length payload)%nat |} /\
  forall r, parseResponse (buildCommand z c payload) = Some r ->
            (length (data (response r)) < length payload)%nat.
Proof.
  intros Hlen. split.
  - pose proof (parseResponse_after_garbage [] (Zone_code z) (Cmd_code c) a
                  (Buffer_from payload) [] eq_refl) as H.
    unfold Buffer_from at 1 in H. rewrite length_map in H. specialize (H Hlen).
    rewrite app_nil_l, app_nil_r in H. rewrite H.
    rewrite length_responseFrame, Zone_code_byte, Cmd_code_byte.
    unfold Buffer_from. rewrite length_map. reflexivity.
  - intros r Hr. apply parseResponse_bounds in Hr.
    rewrite length_buildCommand in Hr. lia.
Qed.

(** * Invariants of the command queue *)

Section ViewMoves.

Context (X : list nat).
Implicit Types (q : list QueuedCommand) (c : option QueuedCommand).
Implicit Types (t : gmap nat (TimerKind * Z)) (n : nat) (st : list nat).
Implicit Types (w : list QueuedCommand) (d : Z) (a : nat -> Prop).

Lemma wire_id_fresh v :
  InvV X v -> forall x, x ∈ v_wire v -> (timeout x < v_next v)%nat.
Proof.
  intros I x Hx. destruct (inv_wire_settled _ _ I x Hx) as [Hs|Hc].
  - by apply (inv_settled_fresh _ _ I).
  - apply (inv_pending_fresh _ _ I). unfold v_pending. rewrite Hc. set_solver.
Qed.

Lemma elem_of_ids l h : h ∈ ids l <-> exists x, x ∈ l /\ timeout x = h.
Proof. unfold ids. rewrite list_elem_of_fmap. naive_solver. Qed.

(** [enqueue], up to its call of [processQueue]. *)
Lemma InvV_enqueue q c t n st w d a b :
  InvV X (mkView q c t n st w d a) ->
  InvV X (mkView (q ++ [mkQueued b n]) c (<[n := (TCommandTimeout, d)]> t)
                 (S n) st w d a).
Proof.
  intros I. pose proof (wire_id_fresh _ I) as Hw.
  destruct I as [I1 I2 I3 I4 I5 I6 I7 I8 I9 I10 I11 I12].
  unfold v_pending in *. simpl in *.
  assert (Hp : forall x, x ∈ option_list c ++ q ++ [mkQueued b n] ->
                 x ∈ option_list c ++ q \/ x = mkQueued b n) by set_solver.
  split; unfold v_pending; simpl.
  - unfold ids in *. rewrite fmap_app, app_assoc. apply StronglySorted_app.
    split_and!; [|done|repeat constructor].
    intros x1 x2 H1 H2. apply list_elem_of_singleton in H2 as ->. simpl.
    apply elem_of_app in H1 as [H1|H1]; apply list_elem_of_fmap in H1 as (y & -> & Hy).
    + by apply Hw.
    + apply I6. set_solver.
  - done.
  - done.
  - intros x Hx. destruct (Hp x Hx) as [Hx'| ->]; [by apply I4|].
    simpl. intros Hin. apply I7 in Hin. lia.
  - done.
  - intros x Hx. destruct (Hp x Hx) as [Hx'| ->]; [apply I6 in Hx'; lia|simpl; lia].
  - intros h Hh. apply I7 in Hh. lia.
  - intros h Hh. apply lookup_insert_is_Some in Hh as [->|[_ Hh]]; [lia|].
    apply I8 in Hh. lia.
  - intros h Hh. apply I9 in Hh. lia.
  - intros x Hx. destruct (Hp x Hx) as [Hx'| ->].
    + rewrite lookup_insert_ne; [by apply I10|]. apply I6 in Hx'. lia.
    + simpl. by rewrite lookup_insert_eq.
  - intros h d' Hh. apply lookup_insert_Some in Hh as [[<- _]|[_ Hh]].
    + apply elem_of_ids. exists (mkQueued b n). set_solver.
    + apply I11 in Hh. apply elem_of_ids in Hh as (x & Hx & <-).
      apply elem_of_ids. exists x. set_solver.
  - intros h Hh Hin. apply elem_of_ids in Hin as (x & Hx & <-).
    destruct (Hp x Hx) as [Hx'| ->].
    + apply (I12 _ Hh). apply elem_of_ids. eauto.
    + apply I9 in Hh. simpl in Hh. lia.
Qed.

(** [processQueue] promotes the head of the queue and writes it. *)
Lemma InvV_promote hd q t n st w d a :
  InvV X (mkView (hd :: q) None t n st w d a) ->
  InvV X (mkView q (Some hd) t n st (w ++ [hd]) d a).
Proof.
  intros [I1 I2 I3 I4 I5 I6 I7 I8 I9 I10 I11 I12].
  unfold v_pending in *. simpl in *.
  split; unfold v_pending; simpl; try done.
  - unfold ids in *. rewrite fmap_app, <- app_assoc. done.
  - intros c [= <-]. apply last_snoc.
  - intros x Hx. apply elem_of_app in Hx as [Hx|Hx].
    + destruct (I3 x Hx) as [?|?]; [by left|done].
    + apply list_elem_of_singleton in Hx as ->. by right.
Qed.

(** A pending command leaves the queue (or the in-flight slot), its timer
    is cleared or has fired, and its promise is about to be rejected. *)
Lemma splice_timeout_sublist h q : splice_timeout h q `sublist_of` q.
Proof.
  induction q as [|x q IH]; simpl; [done|].
  destruct (Nat.eqb (timeout x) h).
  - by apply sublist_cons.
  - by apply sublist_skip.
Qed.

Lemma elem_of_splice_timeout h q x :
  NoDup (ids q) -> x ∈ splice_timeout h q <-> x ∈ q /\ timeout x <> h.
Proof.
  induction q as [|y q IH]; simpl; intros Hnd; [set_solver|].
  apply NoDup_cons in Hnd as [Hy Hnd].
  destruct (Nat.eqb_spec (timeout y) h) as [<-|Hne].
  - split.
    + intros Hx. split; [set_solver|]. intros Heq. apply Hy.
      rewrite <- Heq. apply elem_of_ids. eauto.
    + intros [Hx Hne]. apply elem_of_cons in Hx as [->|Hx]; done.
  - rewrite !elem_of_cons, (IH Hnd). naive_solver.
Qed.

Lemma StronglySorted_lt_NoDup (l : list nat) : StronglySorted lt l -> NoDup l.
Proof.
  induction 1 as [|x l _ IH Hx]; constructor; [|done].
  intros Hin. rewrite Forall_forall in Hx. specialize (Hx x Hin). lia.
Qed.

Lemma StronglySorted_sublist (l k : list nat) :
  l `sublist_of` k -> StronglySorted lt k -> StronglySorted lt l.
Proof.
  induction 1 as [|x l k Hs IH|x l k Hs IH]; intros Hk; [done|..].
  - apply StronglySorted_cons in Hk as [Hx Hk]. apply StronglySorted_cons.
    split; [|auto]. rewrite Forall_forall in *. intros y Hy.
    apply Hx. by eapply elem_of_sublist.
  - apply StronglySorted_cons in Hk as [_ Hk]. auto.
Qed.

Lemma InvV_fifo_parts v :
  InvV X v ->
  NoDup (ids (v_wire v)) /\ NoDup (ids (v_pending v)) /\
  (forall x y, x ∈ v_wire v -> y ∈ v_queue v -> (timeout x < timeout y)%nat).
Proof.
  intros I. pose proof (inv_fifo _ _ I) as Hs.
  pose proof (StronglySorted_lt_NoDup _ Hs) as Hnd.
  apply NoDup_app in Hnd as (Hw & Hwq & Hq). split_and!; [done| |].
  - unfold v_pending. destruct (v_current v) as [c|] eqn:Hc; simpl; [|done].
    apply NoDup_cons. split; [|done]. intros Hin. apply (Hwq (timeout c)); [|done].
    apply elem_of_ids. exists c. split; [|done].
    apply last_Some_elem_of. by apply (inv_current_written _ _ I).
  - intros x y Hx Hy. apply StronglySorted_app in Hs as (Hs & _ & _).
    apply Hs; apply elem_of_ids; eauto.
Qed.

Lemma InvV_commit_queued h q c t n st w d a :
  InvV X (mkView q c t n st w d a) ->
  h ∈ ids q ->
  InvV (h :: X) (mkView (splice_timeout h q) c (delete h t) n st w d a).
Proof.
  intros I Hh. destruct (InvV_fifo_parts _ I) as (Hndw & Hndp & Hwq).
  destruct I as [I1 I2 I3 I4 I5 I6 I7 I8 I9 I10 I11 I12].
  unfold v_pending in *. simpl in *.
  assert (Hndq : NoDup (ids q)).
  { unfold ids in *. rewrite fmap_app in Hndp. by apply NoDup_app in Hndp as (_ & _ & ?). }
  assert (Hc : forall x, c = Some x -> timeout x <> h).
  { intros x -> Heq. unfold ids in Hndp. simpl in Hndp.
    apply NoDup_cons in Hndp as [Hx _]. by rewrite Heq in Hx. }
  assert (Hp : forall x, x ∈ option_list c ++ splice_timeout h q <->
                         x ∈ option_list c ++ q /\ timeout x <> h).
  { intros x. rewrite !elem_of_app, (elem_of_splice_timeout h q x Hndq).
    destruct c as [c0|]; simpl; [|set_solver].
    rewrite list_elem_of_singleton. specialize (Hc c0 eq_refl). naive_solver. }
  assert (Hxs : forall k, k ∈ st ++ h :: X <-> k ∈ st ++ X \/ k = h) by set_solver.
  apply elem_of_ids in Hh as (qh & Hqh & Hqh').
  split; unfold v_pending; simpl.
  - unfold ids in *. apply StronglySorted_app in I1 as (Ha & Hb & Hc').
    apply StronglySorted_app. split_and!; [|done|].
    + intros x1 x2 H1 H2. apply Ha; [done|].
      eapply elem_of_sublist; [done|]. apply (fmap_sublist timeout), splice_timeout_sublist.
    + eapply StronglySorted_sublist; [|done]. apply (fmap_sublist timeout), splice_timeout_sublist.
  - done.
  - intros x Hx. destruct (I3 x Hx) as [?|?]; [left; apply Hxs; by left|by right].
  - intros x Hx Hin. apply Hp in Hx as [Hx Hne]. apply Hxs in Hin as [Hin|Hin]; [|done].
    by apply (I4 x).
  - apply NoDup_app in I5 as (Ha & Hb & Hc'). apply NoDup_app. split_and!; [done| |].
    + intros k Hk Hk'. apply elem_of_cons in Hk' as [->|Hk']; [|by apply (Hb k)].
      apply (I4 qh); [set_solver|]. rewrite Hqh'. set_solver.
    + apply NoDup_cons. split; [|done]. intros Hin.
      apply (I4 qh); [set_solver|]. rewrite Hqh'. set_solver.
  - intros x Hx. apply Hp in Hx as [Hx _]. by apply I6.
  - intros k Hk. apply Hxs in Hk as [Hk| ->]; [by apply I7|].
    rewrite <- Hqh'. apply I6. set_solver.
  - intros k Hk. apply lookup_delete_is_Some in Hk as [_ Hk]. by apply I8.
  - done.
  - intros x Hx. apply Hp in Hx as [Hx Hne].
    rewrite lookup_delete_ne by done. by apply I10.
  - intros k d' Hk. apply lookup_delete_Some in Hk as [Hne Hk].
    apply I11 in Hk. apply elem_of_ids in Hk as (x & Hx & <-).
    apply elem_of_ids. exists x. split; [|done]. apply Hp. done.
  - intros k Hk Hin. apply (I12 k Hk). apply elem_of_ids in Hin as (x & Hx & <-).
    apply Hp in Hx as [Hx _]. apply elem_of_ids. eauto.
Qed.

Lemma InvV_commit_current q cur t n st w d a :
  InvV X (mkView q (Some cur) t n st w d a) ->
  InvV (timeout cur :: X) (mkView q None (delete (timeout cur) t) n st w d a).
Proof.
  intros I. destruct (InvV_fifo_parts _ I) as (Hndw & Hndp & Hwq).
  destruct I as [I1 I2 I3 I4 I5 I6 I7 I8 I9 I10 I11 I12].
  unfold v_pending in *. simpl in *.
  unfold ids in Hndp. simpl in Hndp. apply NoDup_cons in Hndp as [Hc Hndq].
  assert (Hq : forall x, x ∈ q -> timeout x <> timeout cur).
  { intros x Hx Heq. apply Hc. rewrite <- Heq. by apply list_elem_of_fmap_2. }
  assert (Hxs : forall k, k ∈ st ++ timeout cur :: X <-> k ∈ st ++ X \/ k = timeout cur)
    by set_solver.
  split; unfold v_pending; simpl.
  - done.
  - done.
  - intros x Hx. left. apply Hxs. destruct (I3 x Hx) as [?|[= ->]]; [by left|by right].
  - intros x Hx Hin. apply Hxs in Hin as [Hin|Hin]; [|by apply (Hq x)].
    apply (I4 x); [set_solver|done].
  - apply NoDup_app in I5 as (Ha & Hb & Hc'). apply NoDup_app. split_and!; [done| |].
    + intros k Hk Hk'. apply elem_of_cons in Hk' as [->|Hk']; [|by apply (Hb k)].
      apply (I4 cur); set_solver.
    + apply NoDup_cons. split; [|done]. intros Hin. apply (I4 cur); set_solver.
  - intros x Hx. apply I6. set_solver.
  - intros k Hk. apply Hxs in Hk as [Hk| ->]; [by apply I7|]. apply I6. set_solver.
  - intros k Hk. apply lookup_delete_is_Some in Hk as [_ Hk]. by apply I8.
  - done.
  - intros x Hx. rewrite lookup_delete_ne by (apply not_eq_sym; by apply Hq).
    apply I10. set_solver.
  - intros k d' Hk. apply lookup_delete_Some in Hk as [Hne Hk].
    apply I11 in Hk. apply elem_of_cons in Hk as [Hk|Hk]; [congruence|done].
  - intros k Hk Hin. apply (I12 k Hk). by apply elem_of_cons; right.
Qed.

End ViewMoves.

(** The promise taken out by a commit is rejected (or resolved). *)
Lemma InvV_settle X h q c t n st w d a :
  InvV (h :: X) (mkView q c t n st w d a) ->
  InvV X (mkView q c t n (st ++ [h]) w d a).
Proof.
  intros [I1 I2 I3 I4 I5 I6 I7 I8 I9 I10 I11 I12].
  unfold v_pending in *. simpl in *.
  split; unfold v_pending; simpl; try done; rewrite <- app_assoc; done.
Qed.

(** A timer that is not a command timeout is registered. *)
Lemma InvV_add_timer X k dl q c t n st w d a :
  k <> TCommandTimeout ->
  InvV X (mkView q c t n st w d a) ->
  InvV X (mkView q c (<[n := (k, dl)]> t) (S n) st w d a).
Proof.
  intros Hk [I1 I2 I3 I4 I5 I6 I7 I8 I9 I10 I11 I12].
  unfold v_pending in *. simpl in *.
  split; unfold v_pending; simpl; try done.
  - intros x Hx. apply I6 in Hx. lia.
  - intros h Hh. apply I7 in Hh. lia.
  - intros h Hh. apply lookup_insert_is_Some in Hh as [->|[_ Hh]]; [lia|].
    apply I8 in Hh. lia.
  - intros h Hh. apply I9 in Hh. lia.
  - intros x Hx. rewrite lookup_insert_ne; [by apply I10|]. apply I6 in Hx. lia.
  - intros h d' Hh. apply lookup_insert_Some in Hh as [[_ [= ? _]]|[_ Hh]]; [done|].
    by apply (I11 h d').
Qed.

(** A timer that belongs to no pending command is cleared, or fires. *)
Lemma InvV_del_timer X h q c t n st w d a :
  h ∉ ids (option_list c ++ q) ->
  InvV X (mkView q c t n st w d a) ->
  InvV X (mkView q c (delete h t) n st w d a).
Proof.
  intros Hh [I1 I2 I3 I4 I5 I6 I7 I8 I9 I10 I11 I12].
  unfold v_pending in *. simpl in *.
  split; unfold v_pending; simpl; try done.
  - intros k Hk. apply lookup_delete_is_Some in Hk as [_ Hk]. by apply I8.
  - intros x Hx. rewrite lookup_delete_ne; [by apply I10|].
    intros ->. apply Hh. by apply list_elem_of_fmap_2.
  - intros k d' Hk. apply lookup_delete_Some in Hk as [_ Hk]. by apply (I11 k d').
Qed.

(** The handles kept by the object change: each one was kept before, or is
    an allocated handle that belongs to no pending command. *)
Lemma InvV_aux X (a' : nat -> Prop) q c t n st w d a :
  (forall h, a' h -> a h \/ ((h < n)%nat /\ h ∉ ids (option_list c ++ q))) ->
  InvV X (mkView q c t n st w d a) ->
  InvV X (mkView q c t n st w d a').
Proof.
  intros Ha [I1 I2 I3 I4 I5 I6 I7 I8 I9 I10 I11 I12].
  unfold v_pending in *. simpl in *.
  split; unfold v_pending; simpl; try done.
  - intros h Hh. destruct (Ha h Hh) as [?|[? _]]; [by apply I9|done].
  - intros h Hh. destruct (Ha h Hh) as [?|[_ ?]]; [by apply I12|done].
Qed.

(** An allocated handle with a timer of another kind belongs to no pending
    command. *)
Lemma InvV_other_kind X v h k dl :
  InvV X v -> v_timers v !! h = Some (k, dl) -> k <> TCommandTimeout ->
  h ∉ ids (v_pending v).
Proof.
  intros I Hh Hk Hin. apply elem_of_ids in Hin as (x & Hx & <-).
  rewrite (inv_pending_timer _ _ I x Hx) in Hh. congruence.
Qed.

(** [rejectPending]: the queue part, one rejected command after another. *)
Lemma InvV_reject_queue X q t n st w d a :
  InvV X (mkView q None t n st w d a) ->
  InvV X (mkView [] None
            (fold_left (fun t x => delete (timeout x) t) q t) n
            (fold_left (fun st x => st ++ [timeout x]) q st) w d a).
Proof.
  revert t st. induction q as [|x q IH]; intros t st I; simpl; [done|].
  apply IH. apply InvV_settle.
  pose proof (InvV_commit_queued X (timeout x) (x :: q) None t n st w d a I) as H.
  simpl in H. rewrite Nat.eqb_refl in H. apply H. set_solver.
Qed.

(** ** The invariant over the handlers *)

Lemma fold_reject_fields reason q s :
  let s' := fold_left (fun s x => reject (timeout x) reason (clearTimeout (timeout x) s)) q s in
  timers s' = fold_left (fun t x => delete (timeout x) t) q (timers s) /\
  fst <$> settled s' = fold_left (fun st x => st ++ [timeout x]) q (fst <$> settled s) /\
  settled s' = settled s ++ ((fun x => (timeout x, Rejected reason)) <$> q).
Proof.
  revert s. induction q as [|x q IH]; intros s; simpl.
  - by rewrite app_nil_r.
  - destruct (IH (reject (timeout x) reason (clearTimeout (timeout x) s)))
      as (H1 & H2 & H3).
    split_and!.
    + rewrite H1. done.
    + rewrite H2. simpl. by rewrite fmap_app.
    + rewrite H3. simpl. by rewrite <- app_assoc.
Qed.

(** Whatever [reject] and [clearTimeout] leave alone, the loop of
    [rejectPending] leaves alone. *)
Lemma fold_reject_frame {A} (P : State -> A) reason q s :
  (forall h s, P (reject h reason (clearTimeout h s)) = P s) ->
  P (fold_left (fun s x => reject (timeout x) reason (clearTimeout (timeout x) s)) q s)
  = P s.
Proof.
  intros HP. revert s. induction q as [|x q IH]; intros s; simpl; [done|].
  by rewrite IH, HP.
Qed.

Lemma rejectPending_InvX X reason s :
  InvX X s -> InvX X (rejectPending reason s).
Proof.
  unfold rejectPending, InvX. intros I.
  set (s1 := match currentCommand s with Some c => _ | None => s end).
  assert (I1 : InvV X (view s1) /\ currentCommand s1 = None) .
  { subst s1. destruct (currentCommand s) as [c|] eqn:Hc; [|done]. split; [|done].
    unfold view in *. simpl. rewrite Hc in I. rewrite fmap_app. simpl.
    apply InvV_settle. by apply InvV_commit_current. }
  destruct I1 as [I1 Hc1].
  destruct (fold_reject_fields reason (commandQueue s1) s1) as (H1 & H2 & _).
  pose proof (fun A P => @fold_reject_frame A P reason (commandQueue s1) s1) as Hf.
  set (s2 := fold_left _ _ s1) in *.
  unfold view in I1 |- *. rewrite Hc1 in I1. simpl.
  apply InvV_reject_queue in I1. rewrite <- H1, <- H2 in I1.
  rewrite (Hf _ currentCommand), (Hf _ nextTimer), (Hf _ wire), (Hf _ options) by done.
  rewrite Hc1.
  replace (aux_handle (set_commandQueue [] s2)) with (aux_handle s1); [done|].
  unfold aux_handle. simpl.
  by rewrite (Hf _ heartbeatTimer), (Hf _ reconnectTimer), (Hf _ listeners).
Qed.

(** Unfold the state primitives and project. *)
Ltac st_simpl :=
  cbn [socket options receiveBuffer commandQueue currentCommand reconnectTimer
       heartbeatTimer reconnectAttempts intentionalDisconnect _connected timers
       nextTimer listeners nextSocket wire settled emitted
       set_socket set_receiveBuffer set_commandQueue set_currentCommand
       set_reconnectTimer set_heartbeatTimer set_reconnectAttempts
       set_intentionalDisconnect set_connected set_timers set_nextTimer
       set_listeners set_nextSocket set_wire set_settled set_emitted
       clearTimeout setTimeout reject resolve emit fst snd
       v_queue v_current v_timers v_next v_settled v_wire v_delay v_aux] in *.

Ltac view_simpl := unfold InvX, view, aux_handle, pending in *; st_simpl.

Section HandlerInvariants.

Context (W : Buffer -> option string) (X : list nat).

(** Fields the invariant does not read. *)
Lemma InvX_emit e s : InvX X s -> InvX X (emit e s).
Proof. intros I. exact I. Qed.
Lemma InvX_set_connected v s : InvX X s -> InvX X (set_connected v s).
Proof. intros I. exact I. Qed.
Lemma InvX_set_reconnectAttempts v s : InvX X s -> InvX X (set_reconnectAttempts v s).
Proof. intros I. exact I. Qed.
Lemma InvX_set_intentionalDisconnect v s :
  InvX X s -> InvX X (set_intentionalDisconnect v s).
Proof. intros I. exact I. Qed.
Lemma InvX_set_socket v s : InvX X s -> InvX X (set_socket v s).
Proof. intros I. exact I. Qed.
Lemma InvX_set_receiveBuffer v s : InvX X s -> InvX X (set_receiveBuffer v s).
Proof. intros I. exact I. Qed.

Lemma processQueue_from_InvX queue s :
  commandQueue s = queue -> InvX X s -> InvX X (processQueue_from W queue s).
Proof.
  revert s. induction queue as [|x queue IH]; intros s Hq I; simpl.
  - by destruct (currentCommand s).
  - destruct (currentCommand s) as [c|] eqn:Hc; [done|].
    destruct (_connected s); [|done]. destruct (socket s) as [sock|]; [|done].
    st_simpl. destruct (W (buffer x)) as [err|].
    + apply IH; [done|]. view_simpl. rewrite Hq, Hc in I.
      rewrite fmap_app. simpl. apply InvV_settle.
      pose proof (InvV_commit_queued X (timeout x) (x :: queue) None _ _ _ _ _ _ I) as H.
      simpl in H. rewrite Nat.eqb_refl in H. apply H. set_solver.
    + view_simpl. rewrite Hq, Hc in I. rewrite fmap_app. simpl.
      by apply InvV_promote.
Qed.

Lemma processQueue_InvX s : InvX X s -> InvX X (processQueue W s).
Proof. by apply processQueue_from_InvX. Qed.

Lemma enqueue_InvX b s : InvX X s -> InvX X (enqueue W b s).
Proof.
  intros I. unfold enqueue. st_simpl. apply processQueue_InvX.
  view_simpl. by apply InvV_enqueue.
Qed.

Lemma onResponse_InvX r s : InvX X s -> InvX X (onResponse r s).
Proof.
  intros I. unfold onResponse. st_simpl.
  destruct (currentCommand s) as [c|] eqn:Hc.
  - assert (E : fst <$> settled
                  (if isError (response r)
                   then reject (timeout c) (errorMessage (answer (response r)))
                          (clearTimeout (timeout c) (set_receiveBuffer (subarray (bytesConsumed r) (receiveBuffer s)) s))
                   else resolve (timeout c) (response r)
                          (clearTimeout (timeout c) (set_receiveBuffer (subarray (bytesConsumed r) (receiveBuffer s)) s)))
               = (fst <$> settled s) ++ [timeout c]).
    { destruct (isError _); st_simpl; by rewrite fmap_app. }
    view_simpl. rewrite Hc in I.
    destruct (isError (response r)); st_simpl; rewrite fmap_app; simpl;
      (apply InvV_add_timer; [done|]); apply InvV_settle; by apply InvV_commit_current.
  - exact I.
Qed.

Lemma onData_loop_InvX fuel s s' :
  InvX X s -> onData_loop fuel s = Some s' -> InvX X s'.
Proof.
  revert s. induction fuel as [|fuel IH]; intros s I; simpl;
    destruct (parseResponse (receiveBuffer s)) as [r|]; try congruence.
  intros H. eapply IH; [|done]. by apply onResponse_InvX.
Qed.

Lemma onData_InvX chunk s s' :
  InvX X s -> onData chunk s = Some s' -> InvX X s'.
Proof.
  unfold onData. intros I.
  destruct (onData_loop _ _) as [s1|] eqn:H1; [|done]. intros [= <-].
  apply onData_loop_InvX in H1; [|exact I].
  by destruct (_ <? _)%nat.
Qed.

Lemma clearTimeout_aux_InvX h s :
  aux_handle s h -> InvX X s -> InvX X (clearTimeout h s).
Proof.
  intros Ha I. pose proof (inv_aux_not_pending _ _ I h Ha) as Hn.
  view_simpl. by apply InvV_del_timer.
Qed.

Lemma clearTimeout_other_InvX h k dl s :
  timers s !! h = Some (k, dl) -> k <> TCommandTimeout ->
  InvX X s -> InvX X (clearTimeout h s).
Proof.
  intros Hh Hk I. pose proof (InvV_other_kind _ _ h k dl I Hh Hk) as Hn.
  view_simpl. by apply InvV_del_timer.
Qed.

Lemma stopHeartbeat_InvX s : InvX X s -> InvX X (stopHeartbeat s).
Proof.
  intros I. unfold stopHeartbeat. destruct (heartbeatTimer s) as [h|] eqn:Hh; [|done].
  assert (I' : InvX X (clearTimeout h s)).
  { apply clearTimeout_aux_InvX; [|done]. left. done. }
  view_simpl. revert I'. apply InvV_aux. intros k Hk. left.
  destruct Hk as [?|[?|?]]; [done|by right; left|by right; right].
Qed.

Lemma clearReconnect_InvX s : InvX X s -> InvX X (clearReconnect s).
Proof.
  intros I. unfold clearReconnect. destruct (reconnectTimer s) as [h|] eqn:Hh; [|done].
  assert (I' : InvX X (clearTimeout h s)).
  { apply clearTimeout_aux_InvX; [|done]. right; left. done. }
  view_simpl. revert I'. apply InvV_aux. intros k Hk. left.
  destruct Hk as [?|[?|?]]; [by left|done|by right; right].
Qed.

(** Registering a timer of another kind and keeping its handle. *)
Lemma InvV_add_aux_timer (a' : nat -> Prop) k dl q c t n st w d a :
  k <> TCommandTimeout ->
  (forall h, a' h -> a h \/ h = n) ->
  InvV X (mkView q c t n st w d a) ->
  InvV X (mkView q c (<[n := (k, dl)]> t) (S n) st w d a').
Proof.
  intros Hk Ha I. pose proof (inv_pending_fresh _ _ I) as Hf.
  apply (InvV_add_timer X k dl) in I; [|done]. revert I. apply InvV_aux.
  intros h Hh. destruct (Ha h Hh) as [?| ->]; [by left|right].
  split; [lia|]. intros Hin. apply elem_of_ids in Hin as (x & Hx & Hx').
  apply Hf in Hx. simpl in Hx. lia.
Qed.

Lemma startHeartbeat_InvX s : InvX X s -> InvX X (startHeartbeat s).
Proof.
  intros I. apply stopHeartbeat_InvX in I. unfold startHeartbeat.
  set (s1 := stopHeartbeat s) in *. clearbody s1. view_simpl.
  revert I. apply InvV_add_aux_timer; [done|].
  intros h [[= <-]|[?|?]]; [by right|left; by right; left|left; by right; right].
Qed.

Lemma scheduleReconnect_InvX s : InvX X s -> InvX X (scheduleReconnect s).
Proof.
  intros I. apply clearReconnect_InvX in I. unfold scheduleReconnect.
  set (s1 := clearReconnect s) in *. clearbody s1. view_simpl.
  revert I. apply InvV_add_aux_timer; [done|].
  intros h [?|[[= <-]|?]]; [left; by left|by right|left; by right; right].
Qed.

Lemma connect_InvX s : InvX X s -> InvX X (connect s).
Proof.
  intros I. unfold connect. st_simpl.
  set (s1 := match socket s with Some old => _ | None => _ end).
  assert (I1 : InvX X s1).
  { subst s1. destruct (socket s) as [old|]; [|exact I]. view_simpl.
    revert I. apply InvV_aux. intros h Hh. left.
    destruct Hh as [?|[?|[sock Hs]]]; [by left|by right; left|].
    apply lookup_delete_Some in Hs as [_ Hs]. right; right. eauto. }
  clearbody s1. view_simpl.
  revert I1. apply InvV_add_aux_timer; [done|].
  intros h [?|[?|[sock Hs]]]; [left; by left|left; by right; left|].
  apply lookup_insert_Some in Hs as [[_ <-]|[_ Hs]]; [by right|].
  left. right; right. eauto.
Qed.

Lemma onSocketConnect_InvX sock ct s :
  listeners s !! sock = Some ct -> InvX X s -> InvX X (onSocketConnect ct s).
Proof.
  intros Hl I. unfold onSocketConnect.
  assert (I' : InvX X (clearTimeout ct s)).
  { apply clearTimeout_aux_InvX; [|done]. right; right. eauto. }
  apply InvX_emit, startHeartbeat_InvX.
  apply InvX_set_reconnectAttempts, InvX_set_connected. exact I'.
Qed.

Lemma onSocketError_InvX sock ct s :
  listeners s !! sock = Some ct -> InvX X s -> InvX X (onSocketError ct s).
Proof.
  intros Hl I. unfold onSocketError.
  assert (I' : InvX X (clearTimeout ct s)); [|exact I'].
  apply clearTimeout_aux_InvX; [|done]. right; right. eauto.
Qed.

Lemma onSocketClose_InvX s : InvX X s -> InvX X (onSocketClose s).
Proof.
  intros I. unfold onSocketClose.
  set (s1 := rejectPending _ _).
  assert (I1 : InvX X s1).
  { apply rejectPending_InvX. by apply (stopHeartbeat_InvX (set_connected false s)). }
  clearbody s1.
  set (s2 := if _connected s then emit EmDisconnected s1 else s1).
  assert (I2 : InvX X s2) by (subst s2; by destruct (_connected s)).
  clearbody s2. destruct (negb _); [|done]. by apply scheduleReconnect_InvX.
Qed.

Lemma close_listeners_InvX sock s :
  InvX X s -> InvX X (set_listeners (delete sock (listeners s)) s).
Proof.
  intros I. view_simpl. revert I. apply InvV_aux. intros h Hh. left.
  destruct Hh as [?|[?|[k Hs]]]; [by left|by right; left|].
  apply lookup_delete_Some in Hs as [_ Hs]. right; right. eauto.
Qed.

Lemma disconnect_InvX s : InvX X s -> InvX X (disconnect s).
Proof.
  intros I. unfold disconnect.
  set (s1 := rejectPending _ _).
  assert (I1 : InvX X s1).
  { apply rejectPending_InvX, clearReconnect_InvX.
    by apply (stopHeartbeat_InvX (set_intentionalDisconnect true s)). }
  clearbody s1. by destruct (socket s1).
Qed.

End HandlerInvariants.

Lemma reject_InvX X h message s :
  InvX (h :: X) s -> InvX X (reject h message s).
Proof.
  intros I. view_simpl. rewrite fmap_app. simpl. by apply InvV_settle.
Qed.

Lemma splice_timeout_absent h q : h ∉ ids q -> splice_timeout h q = q.
Proof.
  induction q as [|x q IH]; simpl; intros Hh; [done|].
  destruct (Nat.eqb_spec (timeout x) h) as [<-|Hne]; [set_solver|].
  f_equal. apply IH. set_solver.
Qed.

Lemma onCommandTimeout_InvX W X h d' s :
  timers s !! h = Some (TCommandTimeout, d') ->
  InvX X s -> InvX X (onCommandTimeout W h (clearTimeout h s)).
Proof.
  intros Ht I. pose proof (inv_timer_pending _ _ I h d' Ht) as Hp.
  destruct (InvV_fifo_parts _ _ I) as (_ & Hnd & _).
  unfold v_pending in Hp, Hnd. unfold onCommandTimeout.
  apply reject_InvX.
  assert (Hqueued : h ∈ ids (commandQueue s) ->
            InvX (h :: X) (set_commandQueue (splice_timeout h (commandQueue s))
                                            (clearTimeout h s))).
  { intros Hq. view_simpl. by apply InvV_commit_queued. }
  st_simpl. simpl in Hp, Hnd.
  destruct (currentCommand s) as [c|] eqn:Hc; simpl in Hp, Hnd.
  - unfold ids in Hnd. simpl in Hnd. apply NoDup_cons in Hnd as [Hcq _].
    destruct (Nat.eqb_spec (timeout c) h) as [Heq|Hne].
    + rewrite splice_timeout_absent by (by rewrite <- Heq).
      apply processQueue_InvX. view_simpl. rewrite Hc in I. subst h.
      by apply InvV_commit_current.
    + apply Hqueued. apply elem_of_cons in Hp as [Hp|Hp]; [congruence|done].
  - by apply Hqueued.
Qed.

Lemma onTimer_InvX W X h k dl s :
  timers s !! h = Some (k, dl) -> InvX X s -> InvX X (onTimer W h k s).
Proof.
  intros Ht I. destruct k; simpl.
  - by eapply onCommandTimeout_InvX.
  - apply processQueue_InvX. by eapply clearTimeout_other_InvX.
  - apply connect_InvX. by eapply clearTimeout_other_InvX.
  - by apply enqueue_InvX.
  - by eapply clearTimeout_other_InvX.
Qed.

Lemma step_InvX W X s e s' : InvX X s -> step W s e = Some s' -> InvX X s'.
Proof.
  intros I. destruct e; simpl.
  - intros [= <-]. by apply connect_InvX.
  - intros [= <-]. by apply disconnect_InvX.
  - intros [= <-]. by apply enqueue_InvX.
  - intros [= <-]. by apply enqueue_InvX.
  - intros [= <-]. by apply enqueue_InvX.
  - destruct (listeners s !! sock) as [ct|] eqn:Hl; [|done].
    intros [= <-]. by eapply onSocketConnect_InvX.
  - destruct (listeners s !! sock) as [ct|] eqn:Hl; [|done].
    by apply onData_InvX.
  - destruct (listeners s !! sock) as [ct|] eqn:Hl; [|done].
    intros [= <-]. by eapply onSocketError_InvX.
  - destruct (listeners s !! sock) as [ct|] eqn:Hl; [|done].
    intros [= <-]. by apply onSocketClose_InvX, close_listeners_InvX.
  - destruct (timers s !! h) as [[k dl]|] eqn:Ht; [|done].
    intros [= <-]. by eapply onTimer_InvX.
Qed.

Lemma run_Inv W trace s s' : Inv s -> run W s trace = Some s' -> Inv s'.
Proof.
  revert s. induction trace as [|e trace IH]; intros s I; simpl.
  - by intros [= <-].
  - destruct (step W s e) as [s1|] eqn:Hs; [|done].
    apply IH. by eapply step_InvX.
Qed.

Lemma constructor_Inv o : Inv (constructor o).
Proof.
  assert (Ha : forall h, ~ aux_handle (constructor o) h).
  { intros h [?|[?|[sock Hs]]]; done. }
  split; unfold v_pending; simpl; try (intros; set_solver).
  - constructor.
  - constructor.
  - intros h [??]. by rewrite lookup_empty in *.
Qed.

(** Every state a connection can reach satisfies the invariant. *)
Lemma reachable_Inv W o trace s :
  run W (constructor o) trace = Some s -> Inv s.
Proof. apply run_Inv, constructor_Inv. Qed.

(** * What the handlers do to the logs *)

#[local] Instance extends_preorder : PreOrder extends.
Proof.
  split.
  - intros s. by split.
  - intros s1 s2 s3 [H1 H2] [H3 H4]. split; [by etrans|congruence].
Qed.

Ltac extends_tac :=
  st_simpl;
  repeat match goal with
         | |- context [match ?x with _ => _ end] => destruct x
         end;
  split; st_simpl; try reflexivity; try (by apply prefix_app_r).

Section Extends.

Context (W : Buffer -> option string).

Lemma processQueue_from_extends queue s : extends s (processQueue_from W queue s).
Proof.
  revert s. induction queue as [|x queue IH]; intros s; simpl.
  - by destruct (currentCommand s).
  - destruct (currentCommand s); [done|]. destruct (_connected s); [|done].
    destruct (socket s); [|done]. st_simpl. destruct (W (buffer x)).
    + etrans; [|apply IH]. extends_tac.
    + extends_tac.
Qed.

Lemma processQueue_extends s : extends s (processQueue W s).
Proof. apply processQueue_from_extends. Qed.

Lemma enqueue_extends b s : extends s (enqueue W b s).
Proof.
  unfold enqueue. st_simpl. etrans; [|apply processQueue_extends]. extends_tac.
Qed.

Lemma onCommandTimeout_extends h s : extends s (onCommandTimeout W h s).
Proof.
  unfold onCommandTimeout. st_simpl.
  set (s1 := match currentCommand s with Some c => _ | None => _ end).
  assert (H1 : extends s s1).
  { subst s1. destruct (currentCommand s) as [c|]; [|extends_tac].
    destruct (Nat.eqb (timeout c) h); [|extends_tac].
    etrans; [|apply processQueue_extends]. extends_tac. }
  etrans; [exact H1|]. clearbody s1. extends_tac.
Qed.

Lemma onResponse_extends r s : extends s (onResponse r s).
Proof. unfold onResponse. st_simpl. extends_tac. Qed.

Lemma onData_loop_extends fuel s s' :
  onData_loop fuel s = Some s' -> extends s s'.
Proof.
  revert s. induction fuel as [|fuel IH]; intros s; simpl;
    destruct (parseResponse (receiveBuffer s)) as [r|]; try congruence;
    try (by intros [= <-]).
  intros H. etrans; [apply (onResponse_extends r)|]. by apply IH.
Qed.

Lemma onData_extends chunk s s' : onData chunk s = Some s' -> extends s s'.
Proof.
  unfold onData. destruct (onData_loop _ _) as [s1|] eqn:H1; [|done].
  intros [= <-]. apply onData_loop_extends in H1.
  etrans; [|etrans; [exact H1|]]; extends_tac.
Qed.

Lemma rejectPending_settled reason s :
  settled (rejectPending reason s)
  = settled s ++ ((fun q => (timeout q, Rejected reason)) <$> pending s).
Proof.
  unfold rejectPending, pending.
  set (s1 := match currentCommand s with Some c => _ | None => s end).
  destruct (fold_reject_fields reason (commandQueue s1) s1) as (_ & _ & H3).
  st_simpl. rewrite H3. subst s1.
  destruct (currentCommand s); st_simpl; [|done]. by rewrite <- app_assoc.
Qed.

Lemma rejectPending_options reason s :
  options (rejectPending reason s) = options s.
Proof.
  unfold rejectPending. st_simpl.
  rewrite (fold_reject_frame options) by done. by destruct (currentCommand s).
Qed.

Lemma rejectPending_extends reason s : extends s (rejectPending reason s).
Proof.
  split; [|apply rejectPending_options].
  rewrite rejectPending_settled. by apply prefix_app_r.
Qed.

Lemma stopHeartbeat_extends s : extends s (stopHeartbeat s).
Proof. unfold stopHeartbeat. extends_tac. Qed.

Lemma startHeartbeat_extends s : extends s (startHeartbeat s).
Proof.
  unfold startHeartbeat. etrans; [apply stopHeartbeat_extends|]. extends_tac.
Qed.

Lemma clearReconnect_extends s : extends s (clearReconnect s).
Proof. unfold clearReconnect. extends_tac. Qed.

Lemma scheduleReconnect_extends s : extends s (scheduleReconnect s).
Proof.
  unfold scheduleReconnect. etrans; [apply clearReconnect_extends|]. extends_tac.
Qed.

Lemma connect_extends s : extends s (connect s).
Proof. unfold connect. st_simpl. extends_tac. Qed.

Lemma onSocketConnect_extends ct s : extends s (onSocketConnect ct s).
Proof.
  unfold onSocketConnect.
  trans (set_reconnectAttempts 0 (set_connected true (clearTimeout ct s)));
    [extends_tac|].
  etrans; [apply startHeartbeat_extends|].
  generalize (startHeartbeat (set_reconnectAttempts 0 (set_connected true (clearTimeout ct s)))).
  intros s1. extends_tac.
Qed.

Lemma onSocketError_extends ct s : extends s (onSocketError ct s).
Proof. unfold onSocketError. extends_tac. Qed.

Lemma onSocketClose_extends s : extends s (onSocketClose s).
Proof.
  unfold onSocketClose.
  set (s1 := rejectPending _ _).
  assert (H1 : extends s s1).
  { subst s1. etrans; [|apply rejectPending_extends].
    etrans; [|apply stopHeartbeat_extends]. extends_tac. }
  clearbody s1.
  set (s2 := if _connected s then emit EmDisconnected s1 else s1).
  assert (H2 : extends s s2).
  { subst s2. etrans; [exact H1|]. destruct (_connected s); extends_tac. }
  clearbody s2. destruct (negb _); [|done].
  etrans; [exact H2|]. apply scheduleReconnect_extends.
Qed.

Lemma disconnect_extends s : extends s (disconnect s).
Proof.
  unfold disconnect.
  set (s1 := rejectPending _ _).
  assert (H1 : extends s s1).
  { subst s1. etrans; [|apply rejectPending_extends].
    etrans; [|apply clearReconnect_extends].
    etrans; [|apply stopHeartbeat_extends]. extends_tac. }
  clearbody s1. etrans; [exact H1|]. destruct (socket s1); extends_tac.
Qed.

Lemma onTimer_extends h k s : extends s (onTimer W h k s).
Proof.
  destruct k; simpl.
  - etrans; [|apply onCommandTimeout_extends]. extends_tac.
  - etrans; [|apply processQueue_extends]. extends_tac.
  - etrans; [|apply connect_extends]. extends_tac.
  - apply enqueue_extends.
  - extends_tac.
Qed.

Lemma step_extends s e s' : step W s e = Some s' -> extends s s'.
Proof.
  destruct e; simpl.
  - intros [= <-]. apply connect_extends.
  - intros [= <-]. apply disconnect_extends.
  - intros [= <-]. apply enqueue_extends.
  - intros [= <-]. apply enqueue_extends.
  - intros [= <-]. apply enqueue_extends.
  - destruct (listeners s !! sock); [|done]. intros [= <-]. apply onSocketConnect_extends.
  - destruct (listeners s !! sock); [|done]. apply onData_extends.
  - destruct (listeners s !! sock); [|done]. intros [= <-]. apply onSocketError_extends.
  - destruct (listeners s !! sock); [|done]. intros [= <-].
    etrans; [|apply onSocketClose_extends]. extends_tac.
  - destruct (timers s !! h) as [[k dl]|]; [|done]. intros [= <-]. apply onTimer_extends.
Qed.

Lemma run_extends trace s s' : run W s trace = Some s' -> extends s s'.
Proof.
  revert s. induction trace as [|e trace IH]; intros s; simpl.
  - by intros [= <-].
  - destruct (step W s e) as [s1|] eqn:Hs; [|done].
    intros H. etrans; [by eapply step_extends|by apply IH].
Qed.

End Extends.

(** * The receive loop *)

Lemma onResponse_receiveBuffer r s :
  receiveBuffer (onResponse r s) = subarray (bytesConsumed r) (receiveBuffer s).
Proof.
  unfold onResponse. st_simpl. destruct (currentCommand s); [|done].
  by destruct (isError _).
Qed.

Lemma onData_loop_total fuel s :
  (length (receiveBuffer s) <= 6 * fuel + 5)%nat ->
  exists s', onData_loop fuel s = Some s'.
Proof.
  revert s. induction fuel as [|fuel IH]; intros s Hlen; simpl;
    destruct (parseResponse (receiveBuffer s)) as [r|] eqn:Hr; eauto.
  - apply parseResponse_bounds in Hr. lia.
  - apply IH. rewrite onResponse_receiveBuffer. unfold subarray.
    rewrite length_skipn. apply parseResponse_bounds in Hr. lia.
Qed.

Lemma onData_total chunk s : exists s', onData chunk s = Some s'.
Proof.
  unfold onData.
  destruct (onData_loop_total (length (receiveBuffer (set_receiveBuffer (receiveBuffer s ++ chunk) s)))
              (set_receiveBuffer (receiveBuffer s ++ chunk) s)) as [s1 ->]; [lia|].
  eauto.
Qed.

(** With no command in flight the loop settles nothing and writes nothing:
    every frame becomes a 'status' event. *)
Lemma onData_loop_idle fuel s s' :
  currentCommand s = None -> onData_loop fuel s = Some s' ->
  currentCommand s' = None /\ settled s' = settled s /\ wire s' = wire s /\
  commandQueue s' = commandQueue s /\
  exists more, emitted s' = emitted s ++ more /\
    forall r, parseResponse (receiveBuffer s) = Some r ->
              exists more', more = EmStatus (response r) :: more'.
Proof.
  revert s. induction fuel as [|fuel IH]; intros s Hc; simpl;
    destruct (parseResponse (receiveBuffer s)) as [r|] eqn:Hr; try congruence.
  1, 3: intros [= <-]; split_and!; try done; exists []; by rewrite app_nil_r.
  - intros H. assert (E : onResponse r s
        = emit (EmStatus (response r))
            (set_receiveBuffer (subarray (bytesConsumed r) (receiveBuffer s)) s)).
    { unfold onResponse. st_simpl. by rewrite Hc. }
    rewrite E in H. apply IH in H; [|done].
    destruct H as (H1 & H2 & H3 & H4 & more & H5 & _). st_simpl.
    split_and!; try done. exists (EmStatus (response r) :: more).
    split; [by rewrite H5, <- app_assoc|]. intros r' [= <-]. eauto.
Qed.

Lemma onData_in_flight chunk s c r :
  currentCommand s = Some c ->
  parseResponse (receiveBuffer s ++ chunk) = Some r ->
  exists s', onData chunk s = Some s' /\
    settled s' = settled s ++ [(timeout c, outcome_of (response r))] /\
    currentCommand s' = None /\ wire s' = wire s.
Proof.
  intros Hc Hr. destruct (onData_total chunk s) as [s' Hs]. exists s'.
  split; [done|]. unfold onData in Hs. st_simpl.
  destruct (onData_loop _ _) as [s1|] eqn:H1; [|done].
  assert (Hgoal : settled s1 = settled s ++ [(timeout c, outcome_of (response r))] /\
                  currentCommand s1 = None /\ wire s1 = wire s).
  { destruct (length (receiveBuffer s ++ chunk)) as [|fuel]; simpl in H1;
      st_simpl; rewrite Hr in H1; [done|].
    apply onData_loop_idle in H1.
    - destruct H1 as (H2 & H3 & H4 & _). rewrite H2, H3, H4.
      unfold onResponse, outcome_of. st_simpl. rewrite Hc.
      by destruct (isError (response r)).
    - unfold onResponse. st_simpl. by rewrite Hc. }
  injection Hs as <-. by destruct (_ <? _)%nat.
Qed.

Lemma onData_idle chunk s s' r :
  currentCommand s = None ->
  parseResponse (receiveBuffer s ++ chunk) = Some r ->
  onData chunk s = Some s' ->
  settled s' = settled s /\ currentCommand s' = None /\
  exists more, emitted s' = emitted s ++ EmStatus (response r) :: more.
Proof.
  intros Hc Hr Hs. unfold onData in Hs. st_simpl.
  destruct (onData_loop _ _) as [s1|] eqn:H1; [|done].
  apply onData_loop_idle in H1; [|done]. st_simpl.
  destruct H1 as (H2 & H3 & _ & _ & more & H5 & H6).
  destruct (H6 r Hr) as [more' ->].
  injection Hs as <-. destruct (_ <? _)%nat; st_simpl; eauto.
Qed.

(** C10. A successful parse reports between six bytes and the whole buffer;
    so each iteration of the loop in [onData] shortens the receive buffer by
    at least six bytes, the loop ends within [length / 6] iterations, and
    [onData] returns for every chunk. *)
Theorem parseResponse_consumes_and_onData_terminates :
  (forall b r, parseResponse b = Some r ->
               (6 <= bytesConsumed r <= length b)%nat) /\
  (forall s r, parseResponse (receiveBuffer s) = Some r ->
               (length (receiveBuffer (onResponse r s)) + 6
                <= length (receiveBuffer s))%nat) /\
  (forall s fuel, (length (receiveBuffer s) <= 6 * fuel + 5)%nat ->
                  exists s', onData_loop fuel s = Some s') /\
  (forall chunk s, exists s', onData chunk s = Some s').
Proof.
  split_and!.
  - intros b r Hr. apply parseResponse_bounds in Hr. lia.
  - intros s r Hr. rewrite onResponse_receiveBuffer. unfold subarray.
    rewrite length_skipn. apply parseResponse_bounds in Hr. lia.
  - intros s fuel. apply onData_loop_total.
  - apply onData_total.
Qed.

(** C8. A frame whose answer code is at least 0x82, arriving while a command
    is in flight, rejects that command with [errorMessage] of the code; the
    five known codes have fixed texts and every other code gives "Unknown
    error (0x..)" with the code in hexadecimal. *)
Theorem error_reply_rejects chunk s c r :
  currentCommand s = Some c ->
  parseResponse (receiveBuffer s ++ chunk) = Some r ->
  0x82 <= answer (response r) ->
  (exists s', onData chunk s = Some s' /\
     settled s' = settled s
                  ++ [(timeout c, Rejected (errorMessage (answer (response r))))]) /\
  errorMessage 0x82 = "Zone invalid"%string /\
  errorMessage 0x83 = "Command not recognised"%string /\
  errorMessage 0x84 = "Parameter not recognised"%string /\
  errorMessage 0x85 = "Command invalid at this time"%string /\
  errorMessage 0x86 = "Invalid data length"%string /\
  (forall a, a < 0x82 \/ 0x86 < a ->
     errorMessage a
     = String.append "Unknown error (0x" (String.append (toString16 a) ")")) /\
  (forall a, 0 <= a ->
     HexString.to_Z (String.append "0x" (toString16 a)) = a).
Proof.
  intros Hc Hr Ha. split_and!; try reflexivity.
  - destruct (onData_in_flight chunk s c r Hc Hr) as (s' & Hs & Hset & _).
    exists s'. split; [done|]. rewrite Hset. unfold outcome_of, isError.
    destruct (Z.leb_spec 0x82 (answer (response r))); [done|lia].
  - intros a Hrange. unfold errorMessage, ZONE_INVALID, COMMAND_NOT_RECOGNISED,
      PARAMETER_NOT_RECOGNISED, COMMAND_INVALID, INVALID_DATA_LENGTH.
    repeat match goal with
           | |- context [?x =? ?y] => destruct (Z.eqb_spec x y); [lia|]
           end.
    reflexivity.
  - intros a Hpos. rewrite <- (HexString.to_Z_of_Z a) at 2.
    destruct a as [|p|p]; [reflexivity|reflexivity|lia].
Qed.

(** * Handlers that leave the queue alone *)

#[local] Instance queue_frame_preorder : PreOrder queue_frame.
Proof.
  split.
  - intros s. by repeat split.
  - intros s1 s2 s3 (A1 & A2 & A3 & A4) (B1 & B2 & B3 & B4).
    repeat split; congruence.
Qed.

Ltac frame_tac :=
  st_simpl;
  repeat match goal with
         | |- context [match ?x with _ => _ end] => destruct x
         end;
  repeat split; st_simpl; reflexivity.

Lemma stopHeartbeat_frame s : queue_frame s (stopHeartbeat s).
Proof. unfold stopHeartbeat. frame_tac. Qed.

Lemma clearReconnect_frame s : queue_frame s (clearReconnect s).
Proof. unfold clearReconnect. frame_tac. Qed.

Lemma startHeartbeat_frame s : queue_frame s (startHeartbeat s).
Proof.
  unfold startHeartbeat. etrans; [apply stopHeartbeat_frame|].
  generalize (stopHeartbeat s). intros s1. frame_tac.
Qed.

Lemma scheduleReconnect_frame s : queue_frame s (scheduleReconnect s).
Proof.
  unfold scheduleReconnect. etrans; [apply clearReconnect_frame|].
  generalize (clearReconnect s). intros s1. frame_tac.
Qed.

Lemma connect_frame s : queue_frame s (connect s).
Proof. unfold connect. frame_tac. Qed.

Lemma onSocketConnect_frame ct s : queue_frame s (onSocketConnect ct s).
Proof.
  unfold onSocketConnect.
  trans (set_reconnectAttempts 0 (set_connected true (clearTimeout ct s)));
    [frame_tac|].
  etrans; [apply startHeartbeat_frame|].
  generalize (startHeartbeat (set_reconnectAttempts 0 (set_connected true (clearTimeout ct s)))).
  intros s1. frame_tac.
Qed.

Lemma onSocketError_frame ct s : queue_frame s (onSocketError ct s).
Proof. unfold onSocketError. frame_tac. Qed.

(** * Reconnection *)

Lemma stopHeartbeat_reconnect_fields s :
  reconnectAttempts (stopHeartbeat s) = reconnectAttempts s /\
  emitted (stopHeartbeat s) = emitted s /\
  options (stopHeartbeat s) = options s /\
  intentionalDisconnect (stopHeartbeat s) = intentionalDisconnect s.
Proof. unfold stopHeartbeat. by destruct (heartbeatTimer s). Qed.

Lemma rejectPending_reconnect_fields reason s :
  reconnectAttempts (rejectPending reason s) = reconnectAttempts s /\
  emitted (rejectPending reason s) = emitted s /\
  options (rejectPending reason s) = options s /\
  intentionalDisconnect (rejectPending reason s) = intentionalDisconnect s.
Proof.
  unfold rejectPending. st_simpl.
  rewrite (fold_reject_frame reconnectAttempts), (fold_reject_frame emitted),
    (fold_reject_frame options), (fold_reject_frame intentionalDisconnect) by done.
  by destruct (currentCommand s).
Qed.

Lemma scheduleReconnect_fields s :
  let delay := reconnect_delay (options s) (reconnectAttempts s) in
  reconnectAttempts (scheduleReconnect s) = S (reconnectAttempts s) /\
  emitted (scheduleReconnect s)
  = emitted s ++ [EmReconnecting (S (reconnectAttempts s)) delay] /\
  reconnectTimer (scheduleReconnect s) = Some (nextTimer s) /\
  timers (scheduleReconnect s) !! nextTimer s = Some (TReconnect, delay).
Proof.
  unfold scheduleReconnect, clearReconnect.
  destruct (reconnectTimer s); st_simpl; by rewrite lookup_insert_eq.
Qed.









(** * Draining the queue *)

Lemma settled_unique (l : list (nat * Outcome)) k a b :
  NoDup (fst <$> l) -> (k, a) ∈ l -> (k, b) ∈ l -> a = b.
Proof.
  induction l as [|[k' o] l IH]; simpl; intros Hnd Ha Hb; [set_solver|].
  apply NoDup_cons in Hnd as [Hk Hnd].
  apply elem_of_cons in Ha as [Ha|Ha]; apply elem_of_cons in Hb as [Hb|Hb].
  - congruence.
  - injection Ha as -> ->. exfalso. apply Hk. apply list_elem_of_fmap. by exists (k', b).
  - injection Hb as -> ->. exfalso. apply Hk. apply list_elem_of_fmap. by exists (k', a).
  - by apply IH.
Qed.

Lemma rejectPending_empties reason s :
  commandQueue (rejectPending reason s) = [] /\
  currentCommand (rejectPending reason s) = None.
Proof.
  unfold rejectPending. st_simpl. split; [done|].
  rewrite (fold_reject_frame currentCommand) by done.
  by destruct (currentCommand s) eqn:Hc.
Qed.

Lemma disconnect_drains s :
  commandQueue (disconnect s) = [] /\ currentCommand (disconnect s) = None /\
  settled (disconnect s)
  = settled s ++ ((fun q => (timeout q, Rejected "Disconnecting")) <$> pending s).
Proof.
  unfold disconnect.
  set (s0 := clearReconnect (stopHeartbeat (set_intentionalDisconnect true s))).
  assert (F : queue_frame s s0).
  { subst s0. etrans; [|apply clearReconnect_frame].
    etrans; [|apply stopHeartbeat_frame]. frame_tac. }
  destruct F as (F1 & F2 & _ & F4).
  destruct (rejectPending_empties "Disconnecting" s0) as [H1 H2].
  pose proof (rejectPending_settled "Disconnecting" s0) as H3.
  unfold pending in *. rewrite F1, F2, F4 in H3.
  clearbody s0. destruct (socket (rejectPending "Disconnecting" s0)); st_simpl; done.
Qed.

Lemma onSocketClose_drains s :
  commandQueue (onSocketClose s) = [] /\ currentCommand (onSocketClose s) = None /\
  settled (onSocketClose s)
  = settled s ++ ((fun q => (timeout q, Rejected "Connection closed")) <$> pending s).
Proof.
  unfold onSocketClose.
  set (s0 := stopHeartbeat (set_connected false s)).
  assert (F : queue_frame s s0).
  { subst s0. etrans; [|apply stopHeartbeat_frame]. frame_tac. }
  destruct F as (F1 & F2 & _ & F4).
  destruct (rejectPending_empties "Connection closed" s0) as [H1 H2].
  pose proof (rejectPending_settled "Connection closed" s0) as H3.
  unfold pending in *. rewrite F1, F2, F4 in H3.
  set (s1 := rejectPending "Connection closed" s0) in *. clearbody s1 s0.
  set (s2 := if _connected s then emit EmDisconnected s1 else s1).
  assert (F : queue_frame s1 s2) by (subst s2; destruct (_connected s); frame_tac).
  clearbody s2.
  assert (F' : queue_frame s2 (if negb (intentionalDisconnect s2)
                               then scheduleReconnect s2 else s2)).
  { destruct (negb _); [apply scheduleReconnect_frame|done]. }
  destruct (transitivity F F') as (G1 & G2 & _ & G4).
  by rewrite G1, G2, G4.
Qed.

(** C5. [disconnect()] and the socket's 'close' event reject every pending
    request, the one in flight first and then the queue in order, with
    'Disconnecting' resp. 'Connection closed'; afterwards the queue and the
    in-flight slot are empty, no promise has been settled twice, and whatever
    happens later none of these requests is settled again. *)
Theorem disconnect_rejects_all W o trace s e reason s1 :
  run W (constructor o) trace = Some s ->
  (e = CallDisconnect /\ reason = "Disconnecting"%string) \/
  (exists sock, e = SocketClose sock /\ reason = "Connection closed"%string) ->
  step W s e = Some s1 ->
  commandQueue s1 = [] /\ currentCommand s1 = None /\
  settled s1 = settled s ++ ((fun q => (timeout q, Rejected reason)) <$> pending s) /\
  NoDup (fst <$> settled s1) /\
  forall trace' s2,
    run W s1 trace' = Some s2 ->
    NoDup (fst <$> settled s2) /\
    forall q out, q ∈ pending s -> (timeout q, out) ∈ settled s2 ->
                  out = Rejected reason.
Proof.
  intros Hrun He Hstep.
  pose proof (reachable_Inv W o trace s Hrun) as I.
  pose proof (step_InvX W [] s e s1 I Hstep) as I1.
  assert (Hd : commandQueue s1 = [] /\ currentCommand s1 = None /\
               settled s1 = settled s
                            ++ ((fun q => (timeout q, Rejected reason)) <$> pending s)).
  { destruct He as [[-> ->]|(sock & -> & ->)]; cbn [step] in Hstep.
    - injection Hstep as <-. apply disconnect_drains.
    - destruct (listeners s !! sock); [|done]. injection Hstep as <-.
      apply (onSocketClose_drains (set_listeners (delete sock (listeners s)) s)). }
  destruct Hd as (H1 & H2 & H3).
  assert (Hnd : forall s', Inv s' -> NoDup (fst <$> settled s')).
  { intros s' I'. pose proof (inv_settled_once _ _ I') as H. simpl in H.
    by rewrite app_nil_r in H. }
  split_and!; [done..|by apply Hnd|].
  intros trace' s2 Hrun2.
  pose proof (run_Inv W trace' s1 s2 I1 Hrun2) as I2.
  split; [by apply Hnd|].
  intros q out Hq Hout.
  destruct (run_extends W trace' s1 s2 Hrun2) as [[more Hmore] _].
  apply (settled_unique (settled s2) (timeout q)); [by apply Hnd|done|].
  rewrite Hmore, H3. apply elem_of_app; left. apply elem_of_app; right.
  apply list_elem_of_fmap. by exists q.
Qed.

(** * One command at a time *)

Lemma filter_none {A} (P : A -> Prop) `{forall x, Decision (P x)} (l : list A) :
  (forall x, x ∈ l -> ~ P x) -> filter P l = [].
Proof.
  induction l as [|x l IH]; intros Hl; [done|].
  rewrite filter_cons_False by (apply Hl; set_solver). apply IH. set_solver.
Qed.

Lemma in_flight_current s : Inv s -> in_flight s = option_list (currentCommand s).
Proof.
  intros I. destruct (InvV_fifo_parts _ _ I) as (Hndw & _ & _).
  destruct I as [_ I2 I3 I4 _ _ _ _ _ _ _ _]. unfold v_pending in *. simpl in *.
  unfold in_flight. setoid_rewrite app_nil_r in I3. setoid_rewrite app_nil_r in I4.
  destruct (currentCommand s) as [c|] eqn:Hc; simpl.
  - pose proof (I2 c eq_refl) as Hlast.
    apply last_Some in Hlast as [w' Hw]. rewrite Hw in *.
    rewrite filter_app, filter_cons_True, filter_nil by (apply I4; set_solver).
    rewrite filter_none; [done|]. intros x Hx Hns.
    destruct (I3 x) as [?|[= ->]]; [set_solver|done|].
    unfold ids in Hndw. rewrite fmap_app in Hndw.
    apply NoDup_app in Hndw as (_ & Hd & _). apply (Hd (timeout x)).
    + by apply list_elem_of_fmap_2.
    + simpl. set_solver.
  - apply filter_none. intros x Hx Hns. by destruct (I3 x Hx).
Qed.

Lemma processQueue_busy W s c : currentCommand s = Some c -> processQueue W s = s.
Proof.
  intros Hc. unfold processQueue. destruct (commandQueue s); simpl; by rewrite Hc.
Qed.

(** [processQueue] on an idle, connected state takes the head of the queue
    and writes it. *)
Lemma processQueue_pops_head W s q rest sock :
  currentCommand s = None -> commandQueue s = q :: rest ->
  _connected s = true -> socket s = Some sock -> W (buffer q) = None ->
  processQueue W s
  = set_wire (wire s ++ [(sock, q)])
      (set_commandQueue rest (set_currentCommand (Some q) s)).
Proof.
  intros Hc Hq Hconn Hsock Hw. unfold processQueue. rewrite Hq. simpl.
  by rewrite Hc, Hconn, Hsock, Hw.
Qed.

Lemma enqueue_busy W b s c :
  currentCommand s = Some c ->
  currentCommand (enqueue W b s) = Some c /\
  commandQueue (enqueue W b s) = commandQueue s ++ [mkQueued b (nextTimer s)] /\
  wire (enqueue W b s) = wire s /\ settled (enqueue W b s) = settled s /\
  nextTimer (enqueue W b s) = S (nextTimer s).
Proof.
  intros Hc. unfold enqueue. st_simpl.
  by rewrite (processQueue_busy W _ c).
Qed.

Lemma enqueue_idle W b s sock :
  currentCommand s = None -> commandQueue s = [] ->
  _connected s = true -> socket s = Some sock -> W b = None ->
  currentCommand (enqueue W b s) = Some (mkQueued b (nextTimer s)) /\
  commandQueue (enqueue W b s) = [] /\
  wire (enqueue W b s) = wire s ++ [(sock, mkQueued b (nextTimer s))] /\
  nextTimer (enqueue W b s) = S (nextTimer s).
Proof.
  intros Hc Hq Hconn Hsock Hw. unfold enqueue. st_simpl.
  rewrite (processQueue_pops_head W _ (mkQueued b (nextTimer s)) [] sock);
    st_simpl; by rewrite ?Hq.
Qed.

Lemma elem_of_splice_timeout_or h q x :
  x ∈ q -> x ∈ splice_timeout h q \/ timeout x = h.
Proof.
  induction q as [|y q IH]; simpl; intros Hx; [set_solver|].
  destruct (Nat.eqb_spec (timeout y) h) as [Heq|Hne].
  - apply elem_of_cons in Hx as [->|Hx]; [by right|by left].
  - apply elem_of_cons in Hx as [->|Hx]; [left; set_solver|].
    destruct (IH Hx); [left; set_solver|by right].
Qed.

Lemma kept_of_frame c s s' :
  currentCommand s = Some c -> queue_frame s s' -> kept_in_flight c s s'.
Proof.
  intros Hc (F1 & F2 & F3 & F4). split_and!; [congruence|done|].
  intros q Hq. left. by rewrite F2.
Qed.

Lemma step_in_flight W s e s' c :
  currentCommand s = Some c -> step W s e = Some s' ->
  timeout c ∉ fst <$> settled s' -> kept_in_flight c s s'.
Proof.
  intros Hc Hstep Hns.
  assert (Henq : forall b, s' = enqueue W b s -> kept_in_flight c s s').
  { intros b ->. destruct (enqueue_busy W b s c Hc) as (E1 & E2 & E3 & _).
    split_and!; [done..|]. intros q Hq. left. rewrite E2. set_solver. }
  destruct e; cbn [step] in Hstep.
  - injection Hstep as <-. apply kept_of_frame; [done|apply connect_frame].
  - injection Hstep as <-. exfalso. apply Hns.
    destruct (disconnect_drains s) as (_ & _ & ->). unfold pending. rewrite Hc.
    rewrite fmap_app. apply elem_of_app; right. simpl. set_solver.
  - injection Hstep as <-. by eapply Henq.
  - injection Hstep as <-. by eapply Henq.
  - injection Hstep as <-. by eapply Henq.
  - destruct (listeners s !! sock); [|done]. injection Hstep as <-.
    apply kept_of_frame; [done|apply onSocketConnect_frame].
  - destruct (listeners s !! sock); [|done].
    destruct (parseResponse (receiveBuffer s ++ chunk)) as [r|] eqn:Hr.
    + destruct (onData_in_flight chunk s c r Hc Hr) as (s1 & Hs1 & Hset & _).
      rewrite Hs1 in Hstep. injection Hstep as <-. exfalso. apply Hns.
      rewrite Hset, fmap_app. apply elem_of_app; right. simpl. set_solver.
    + unfold onData in Hstep. st_simpl.
      assert (E : forall fuel, onData_loop fuel (set_receiveBuffer (receiveBuffer s ++ chunk) s)
                               = Some (set_receiveBuffer (receiveBuffer s ++ chunk) s)).
      { intros [|fuel]; simpl; st_simpl; by rewrite Hr. }
      rewrite E in Hstep. injection Hstep as <-.
      apply kept_of_frame; [done|]. destruct (_ <? _)%nat; frame_tac.
  - destruct (listeners s !! sock); [|done]. injection Hstep as <-.
    apply kept_of_frame; [done|apply onSocketError_frame].
  - destruct (listeners s !! sock); [|done]. injection Hstep as <-. exfalso. apply Hns.
    destruct (onSocketClose_drains (set_listeners (delete sock (listeners s)) s))
      as (_ & _ & ->).
    unfold pending. st_simpl. rewrite Hc, fmap_app.
    apply elem_of_app; right. simpl. set_solver.
  - destruct (timers s !! h) as [[k dl]|]; [|done]. injection Hstep as <-.
    destruct k; cbn [onTimer] in *.
    + unfold onCommandTimeout in *. st_simpl. rewrite Hc in *.
      destruct (Nat.eqb_spec (timeout c) h) as [Heq|Hne].
      * exfalso. apply Hns. st_simpl. rewrite fmap_app, Heq.
        apply elem_of_app; right. simpl. set_solver.
      * st_simpl. split_and!; [done..|]. intros q Hq.
        destruct (elem_of_splice_timeout_or h _ q Hq) as [?| <-]; [by left|right].
        st_simpl. rewrite fmap_app. apply elem_of_app; right. simpl. set_solver.
    + rewrite (processQueue_busy W _ c) by done. apply kept_of_frame; [done|frame_tac].
    + apply kept_of_frame; [done|].
      etrans; [|apply connect_frame]. frame_tac.
    + by eapply Henq.
    + apply kept_of_frame; [done|frame_tac].
Qed.

Lemma run_in_flight W trace s s' c :
  currentCommand s = Some c -> run W s trace = Some s' ->
  timeout c ∉ fst <$> settled s' -> kept_in_flight c s s'.
Proof.
  revert s. induction trace as [|e trace IH]; intros s Hc; simpl.
  - intros [= <-] _. split_and!; [done..|]. intros q Hq. by left.
  - destruct (step W s e) as [s1|] eqn:Hs; [|done]. intros Hrun Hns.
    destruct (run_extends W trace s1 s' Hrun) as [[more Hmore] _].
    assert (Hns1 : timeout c ∉ fst <$> settled s1).
    { intros Hin. apply Hns. rewrite Hmore, fmap_app. set_solver. }
    destruct (step_in_flight W s e s1 c Hc Hs Hns1) as (A1 & A2 & A3).
    destruct (IH s1 A1 Hrun Hns) as (B1 & B2 & B3).
    split_and!; [done|congruence|]. intros q Hq.
    destruct (A3 q Hq) as [Hq1|Hq1]; [by apply B3|right].
    rewrite Hmore, fmap_app. set_solver.
Qed.

(** C2. In every reachable state the commands written and not yet settled
    are exactly the one in [currentCommand], if any; commands reach the wire
    in the order they were submitted and the queue keeps that order;
    [processQueue] promotes the head of the queue; and three commands
    submitted to an idle, connected connection put the first on the wire and
    leave the other two queued, in order, for as long as the first is not
    settled. *)
Theorem one_command_in_flight W o trace s :
  run W (constructor o) trace = Some s ->
  in_flight s = option_list (currentCommand s) /\
  StronglySorted lt (ids (snd <$> wire s) ++ ids (commandQueue s)) /\
  (forall q rest sock,
     currentCommand s = None -> commandQueue s = q :: rest ->
     _connected s = true -> socket s = Some sock -> W (buffer q) = None ->
     processQueue W s
     = set_wire (wire s ++ [(sock, q)])
         (set_commandQueue rest (set_currentCommand (Some q) s))) /\
  (forall b1 b2 b3 sock,
     currentCommand s = None -> commandQueue s = [] ->
     _connected s = true -> socket s = Some sock -> W b1 = None ->
     let n := nextTimer s in
     let q1 := mkQueued b1 n in
     let q2 := mkQueued b2 (S n) in
     let q3 := mkQueued b3 (S (S n)) in
     let s3 := enqueue W b3 (enqueue W b2 (enqueue W b1 s)) in
     wire s3 = wire s ++ [(sock, q1)] /\
     currentCommand s3 = Some q1 /\
     commandQueue s3 = [q2; q3] /\
     forall trace' s',
       run W s3 trace' = Some s' ->
       timeout q1 ∉ fst <$> settled s' ->
       wire s' = wire s3 /\ currentCommand s' = Some q1 /\
       forall q, q ∈ [q2; q3] ->
                 q ∈ commandQueue s' \/ timeout q ∈ fst <$> settled s').
Proof.
  intros Hrun. pose proof (reachable_Inv W o trace s Hrun) as I.
  split_and!.
  - by apply in_flight_current.
  - exact (inv_fifo _ _ I).
  - intros q rest sock. apply processQueue_pops_head.
  - intros b1 b2 b3 sock Hc Hq Hconn Hsock Hw n q1 q2 q3 s3.
    destruct (enqueue_idle W b1 s sock Hc Hq Hconn Hsock Hw) as (A1 & A2 & A3 & A4).
    destruct (enqueue_busy W b2 _ _ A1) as (B1 & B2 & B3 & _ & B5).
    destruct (enqueue_busy W b3 _ _ B1) as (C1 & C2 & C3 & _ & _).
    assert (E : wire s3 = wire s ++ [(sock, q1)] /\ currentCommand s3 = Some q1 /\
                commandQueue s3 = [q2; q3]).
    { subst s3 q1 q2 q3 n. by rewrite C1, C2, C3, B2, B3, B5, A2, A3, A4. }
    destruct E as (E1 & E2 & E3). split_and!; [done..|].
    intros trace' s' Hrun' Hns.
    destruct (run_in_flight W trace' s3 s' q1 E2 Hrun' Hns) as (K1 & K2 & K3).
    split_and!; [done..|]. intros q Hq'. apply K3. by rewrite E3.
Qed.

Lemma Inv_settled_NoDup s : Inv s -> NoDup (fst <$> settled s).
Proof.
  intros I. pose proof (inv_settled_once _ _ I) as H. simpl in H.
  by rewrite app_nil_r in H.
Qed.

(** C3. The command in flight always has its timer pending, armed with the
    configured timeout (5000 ms unless the caller chose another); when that
    timer fires the command is rejected with 'Command timeout'; nothing that
    happens later settles it again, in particular no frame resolves it; and
    when a frame arrives on the socket while no command is in flight, the
    data handler returns, settles nothing and emits the frame as a 'status'
    event. *)
Theorem command_timeout_rejects W o trace s c :
  run W (constructor o) trace = Some s ->
  currentCommand s = Some c ->
  timers s !! timeout c
  = Some (TCommandTimeout, default 5000 (opt_commandTimeout o)) /\
  exists s1,
    step W s (TimerFires (timeout c)) = Some s1 /\
    (timeout c, Rejected "Command timeout") ∈ settled s1 /\
    (commandQueue s = [] -> currentCommand s1 = None) /\
    forall trace' s2,
      run W s1 trace' = Some s2 ->
      (forall out, (timeout c, out) ∈ settled s2 ->
                   out = Rejected "Command timeout") /\
      (currentCommand s2 = None ->
       forall sock chunk r,
         is_Some (listeners s2 !! sock) ->
         parseResponse (receiveBuffer s2 ++ chunk) = Some r ->
         exists s3,
           step W s2 (SocketData sock chunk) = Some s3 /\
           settled s3 = settled s2 /\
           exists more, emitted s3 = emitted s2 ++ EmStatus (response r) :: more).
Proof.
  intros Hrun Hc. pose proof (reachable_Inv W o trace s Hrun) as I.
  destruct (run_extends W trace _ s Hrun) as [_ Hopt].
  assert (Ht : timers s !! timeout c
               = Some (TCommandTimeout, default 5000 (opt_commandTimeout o))).
  { pose proof (inv_pending_timer _ _ I c) as H. unfold v_pending in H. simpl in H.
    rewrite Hc, Hopt in H. apply H. set_solver. }
  split; [exact Ht|].
  exists (onCommandTimeout W (timeout c) (clearTimeout (timeout c) s)).
  assert (Hstep : step W s (TimerFires (timeout c))
                  = Some (onCommandTimeout W (timeout c) (clearTimeout (timeout c) s))).
  { cbn [step]. by rewrite Ht. }
  pose proof (step_InvX W [] s _ _ I Hstep) as I1.
  assert (Hin : (timeout c, Rejected "Command timeout")
                ∈ settled (onCommandTimeout W (timeout c) (clearTimeout (timeout c) s))).
  { unfold onCommandTimeout. st_simpl. apply elem_of_app; right. set_solver. }
  split_and!; [done..| |].
  - intros Hq. unfold onCommandTimeout. st_simpl.
    rewrite Hc, Hq. simpl. rewrite Nat.eqb_refl. reflexivity.
  - intros trace' s2 Hrun2.
    pose proof (run_Inv W trace' _ s2 I1 Hrun2) as I2. split.
    + intros out Hout.
      destruct (run_extends W trace' _ s2 Hrun2) as [[more Hmore] _].
      apply (settled_unique (settled s2) (timeout c)); [by apply Inv_settled_NoDup|done|].
      rewrite Hmore. apply elem_of_app; by left.
    + intros Hc2 sock chunk r [ct Hl] Hr.
      destruct (onData_total chunk s2) as [s3 Hs3]. exists s3.
      destruct (onData_idle chunk s2 s3 r Hc2 Hr Hs3) as (? & _ & ?).
      split; [|done]. cbn [step]. by rewrite Hl.
Qed.

(** * The properties on sample sessions *)

Example sample_session_state :
  option_map (fun s => (currentCommand s, commandQueue s, snd <$> wire s))
             (run no_write_error (constructor sample_options) sample_session)
  = Some (Some (mkQueued (buildQuery MASTER VOLUME) 2), [],
          [mkQueued (buildQuery MASTER VOLUME) 2]).
Proof. vm_compute. reflexivity. Qed.

Example failing_link_delays :
  option_map emitted (run no_write_error (constructor sample_options) failing_link)
  = Some [EmReconnecting 1 3000; EmReconnecting 2 6000; EmReconnecting 3 12000;
          EmReconnecting 4 24000; EmReconnecting 5 48000; EmReconnecting 6 60000;
          EmReconnecting 7 60000].
Proof. vm_compute. reflexivity. Qed.

Lemma parseResponse_truncated_witness :
  let b := Buffer_from [0x21; 0x01; 0x0D; 0x00; 0x05; 0x01; 0x02] in
  indexOf STX b = Some 0%nat /\ parseResponse b = None.
Proof.
  intros b. split; [reflexivity|].
  apply (proj1 (parseResponse_truncated b 0 eq_refl ltac:(vm_compute; lia))).
Defined.

Lemma responseFrame_roundtrip_witness :
  parseResponse (responseFrame (Zone_code MASTER) (Cmd_code VOLUME) 0 (Buffer_from [0x32]))
  = Some {| response := {| zone := 0x01; command := 0x0D; answer := 0;
                           data := Buffer_from [0x32] |};
            bytesConsumed := 7 |}.
Proof.
  apply (proj1 (responseFrame_roundtrip MASTER VOLUME 0 [0x32] ltac:(simpl; lia))).
Defined.

Lemma parseResponse_consumes_witness :
  (6 <= 7 <= length (Buffer_from [0x21; 0x01; 0x0D; 0x00; 0x01; 0x32; 0x0D]%Z))%nat.
Proof.
  apply (proj1 parseResponse_consumes_and_onData_terminates _ _ parse_volume_reply).
Defined.


Lemma one_command_in_flight_witness :
  run no_write_error (constructor sample_options) sample_session = Some sample_state /\
  in_flight sample_state = [mkQueued (buildQuery MASTER VOLUME) 2].
Proof.
  assert (Hrun : run no_write_error (constructor sample_options) sample_session
                 = Some sample_state) by (vm_compute; reflexivity).
  split; [exact Hrun|].
  exact (proj1 (one_command_in_flight _ _ _ _ Hrun)).
Defined.

Lemma command_timeout_rejects_witness :
  run no_write_error (constructor sample_options) sample_session = Some sample_state /\
  currentCommand sample_state = Some (mkQueued (buildQuery MASTER VOLUME) 2) /\
  timers sample_state !! 2%nat = Some (TCommandTimeout, 5000) /\
  step no_write_error sample_state (TimerFires 2) = Some sample_timed_out_state /\
  (2%nat, Rejected "Command timeout") ∈ settled sample_timed_out_state /\
  exists s3,
    step no_write_error sample_timed_out_state (SocketData 0 sample_reply) = Some s3 /\
    settled s3 = settled sample_timed_out_state /\
    exists more,
      emitted s3
      = emitted sample_timed_out_state
        ++ EmStatus {| zone := 1; command := 0x0D; answer := 0;
                       data := Buffer_from [0x32] |} :: more.
Proof.
  assert (Hrun : run no_write_error (constructor sample_options) sample_session
                 = Some sample_state) by (vm_compute; reflexivity).
  assert (Hc : currentCommand sample_state
               = Some (mkQueued (buildQuery MASTER VOLUME) 2)) by (vm_compute; reflexivity).
  assert (Hfire : step no_write_error sample_state (TimerFires 2)
                  = Some sample_timed_out_state) by (vm_compute; reflexivity).
  destruct (command_timeout_rejects _ _ _ _ _ Hrun Hc) as (Ht & s1 & Hs1 & Hin & _ & Hlater).
  cbn [timeout] in Hs1, Hin, Hlater.
  rewrite Hfire in Hs1. injection Hs1 as <-.
  split; [exact Hrun|]. split; [exact Hc|]. split; [exact Ht|].
  split; [exact Hfire|]. split; [exact Hin|].
  exact (proj2 (Hlater [] sample_timed_out_state eq_refl) eq_refl 0%nat sample_reply _
           (ex_intro _ 0%nat eq_refl) parse_volume_reply).
Defined.

Lemma disconnect_rejects_all_witness :
  run no_write_error (constructor sample_options) sample_session = Some sample_state /\
  step no_write_error sample_state CallDisconnect = Some (disconnect sample_state) /\
  commandQueue (disconnect sample_state) = [] /\
  currentCommand (disconnect sample_state) = None.
Proof.
  assert (Hrun : run no_write_error (constructor sample_options) sample_session
                 = Some sample_state) by (vm_compute; reflexivity).
  assert (Hstep : step no_write_error sample_state CallDisconnect
                  = Some (disconnect sample_state)) by reflexivity.
  split; [exact Hrun|]. split; [exact Hstep|].
  pose proof (disconnect_rejects_all _ _ _ _ CallDisconnect "Disconnecting" _ Hrun
                (or_introl (conj eq_refl eq_refl)) Hstep) as (H1 & H2 & _).
  exact (conj H1 H2).
Defined.

Lemma error_reply_rejects_witness :
  let chunk := Buffer_from [0x21; 0x01; 0x0D; 0x83; 0x00; 0x0D] in
  let c := mkQueued (buildQuery MASTER VOLUME) 2 in
  let r := {| response := {| zone := 0x01; command := 0x0D; answer := 0x83; data := [] |};
              bytesConsumed := 6 |} in
  currentCommand sample_state = Some c /\
  parseResponse (receiveBuffer sample_state ++ chunk) = Some r /\
  exists s', onData chunk sample_state = Some s' /\
             settled s' = settled sample_state
                          ++ [(2%nat, Rejected "Command not recognised")].
Proof.
  intros chunk c r.
  assert (Hc : currentCommand sample_state = Some c) by (vm_compute; reflexivity).
  assert (Hr : parseResponse (receiveBuffer sample_state ++ chunk) = Some r)
    by (vm_compute; reflexivity).
  assert (Ha : 0x82 <= answer (response r)) by (simpl; lia).
  split; [exact Hc|]. split; [exact Hr|].
  exact (proj1 (error_reply_rejects chunk sample_state c r Hc Hr Ha)).
Defined.

(** * Further properties of the codec *)

Lemma indexOf_None_get value b i :
  indexOf value b = None -> (i < length b)%nat -> Buffer_get b i <> Z.land value 255.
Proof.
  revert i. induction b as [|x b IH]; simpl; intros i Hn Hi; [lia|].
  destruct (Z.eqb_spec (byte_val x) (Z.land value 255)) as [|Hne]; [discriminate|].
  destruct (indexOf value b) eqn:E; [discriminate|].
  destruct i as [|i]; [exact Hne|]. unfold Buffer_get. simpl.
  apply (IH i eq_refl). lia.
Qed.

Lemma indexOf_Some_get value b i :
  indexOf value b = Some i -> Buffer_get b i = Z.land value 255.
Proof.
  revert i. induction b as [|x b IH]; simpl; intros i Hi; [discriminate|].
  destruct (Z.eqb_spec (byte_val x) (Z.land value 255)) as [Heq|Hne].
  - injection Hi as <-. exact Heq.
  - destruct (indexOf value b) as [j|]; [|discriminate]. injection Hi as <-.
    unfold Buffer_get. simpl. by apply IH.
Qed.

Lemma Buffer_get_drop (b : Buffer) i k :
  Buffer_get b (i + k) = Buffer_get (drop i b) k.
Proof.
  unfold Buffer_get. revert b. induction i as [|i IH]; intros b; [done|].
  destruct b as [|x b]; simpl; [by destruct k|]. apply IH.
Qed.

(** X1. A frame that [parseResponse] returns is in the buffer: the buffer is
    some bytes, then the reply frame with exactly the returned zone, command,
    answer and data, then the rest. Every field is a byte and the data has at
    most 255 bytes. *)
Theorem parseResponse_sound b r :
  parseResponse b = Some r ->
  (exists pre post,
     b = pre ++ responseFrame (zone (response r)) (command (response r))
                              (answer (response r)) (data (response r)) ++ post) /\
  (length (data (response r)) <= 255)%nat /\
  0 <= zone (response r) < 256 /\ 0 <= command (response r) < 256 /\
  0 <= answer (response r) < 256.
Proof.
  remember (length b) as n eqn:Hn. revert b Hn r.
  induction n as [n IH] using lt_wf_ind. intros b -> r.
  rewrite parseResponse_eq.
  destruct (indexOf STX b) as [i|] eqn:Hi; [|discriminate].
  pose proof (indexOf_lt _ _ _ Hi) as Hlt.
  pose proof (indexOf_Some_get _ _ _ Hi) as Hstx.
  destruct (Nat.ltb_spec (length b - i) 6); [discriminate|]. cbv zeta.
  set (dl := Z.to_nat (Buffer_get b (i + 4))).
  destruct (Nat.ltb_spec (length b - i) (5 + dl + 1)); [discriminate|].
  destruct (Z.eqb_spec (Buffer_get b (i + (5 + dl + 1) - 1)) ETX) as [Hetx|Hetx];
    cbn [negb].
  - intros [= <-]. cbn [response zone command answer data].
    assert (Hb : b = take i b ++ drop i b) by (by rewrite take_drop).
    replace (i + (5 + dl + 1) - 1)%nat with (i + (5 + dl))%nat in Hetx by lia.
    pose proof (Buffer_get_drop b i 0) as Hz. rewrite Nat.add_0_r in Hz.
    rewrite Hz in Hstx. clear Hz. rewrite Buffer_get_drop in Hetx.
    rewrite !(Buffer_get_drop b i). unfold subarray2, subarray.
    replace (i + 5 + dl - (i + 5))%nat with dl by lia.
    assert (Hdl : dl = Z.to_nat (Buffer_get (drop i b) 4)).
    { subst dl. by rewrite Buffer_get_drop. }
    rewrite <- (drop_drop b 5 i).
    assert (Hlen : (5 + dl + 1 <= length (drop i b))%nat) by (rewrite length_drop; lia).
    destruct (drop i b) as [|x0 [|x1 [|x2 [|x3 [|x4 t]]]]] eqn:Ht;
      simpl in Hlen; try lia.
    unfold Buffer_get in *. simpl in Hstx, Hetx, Hdl |- *.
    pose proof (byte_val_range x1). pose proof (byte_val_range x2).
    pose proof (byte_val_range x3). pose proof (byte_val_range x4).
    assert (Hdl255 : (dl <= 255)%nat) by lia.
    split_and!; try lia.
    + exists (take i b), (drop (S dl) t). rewrite Hb at 1. f_equal.
      change (drop 0 t) with t.
      rewrite length_take, Nat.min_l by lia.
      rewrite !to_u8_byte_val.
      replace (to_u8 STX) with x0
        by (rewrite <- (to_u8_byte_val x0), Hstx; reflexivity).
      replace (Z.of_nat dl) with (byte_val x4) by lia. rewrite to_u8_byte_val.
      do 5 f_equal. rewrite <- Hetx, to_u8_byte_val, <- app_assoc. simpl.
      rewrite <- (take_drop dl t) at 1. f_equal.
      destruct (lookup_lt_is_Some_2 t dl) as [y Hy]; [lia|].
      rewrite (drop_S _ _ _ Hy), nth_lookup, Hy. done.
    + change (drop 0 t) with t. rewrite length_take. lia.
  - intros Hrec.
    assert (Hlen : (length (subarray (i + 1) b) < length b)%nat).
    { unfold subarray. rewrite length_skipn. lia. }
    destruct (IH _ Hlen _ eq_refl _ Hrec) as ((pre & post & Hb) & Hrest).
    split; [|exact Hrest]. exists (take (i + 1) b ++ pre), post.
    rewrite <- app_assoc, <- Hb. unfold subarray. by rewrite take_drop.
Qed.

(** * Value encodings *)

(** X2. Every value from -127 to 127 is encoded as a byte other than 0x80 and
    decoded back to itself; 128 is not: it is encoded as 0x80, which decodes
    to zero. *)
Theorem decode_encodeSignedValue v :
  -127 <= v <= 127 ->
  decodeSignedValue (encodeSignedValue v) = v /\
  0 <= encodeSignedValue v <= 255 /\ encodeSignedValue v <> 0x80 /\
  decodeSignedValue (encodeSignedValue 128) = 0.
Proof.
  intros Hv. unfold decodeSignedValue, encodeSignedValue.
  split_and!; [| | | |reflexivity].
  - destruct (Z.leb_spec 0 v).
    + destruct (Z.leb_spec v 0x7F); lia.
    + destruct (Z.leb_spec (0x80 + Z.abs v) 0x7F); lia.
  - destruct (Z.leb_spec 0 v); lia.
  - destruct (Z.leb_spec 0 v); lia.
  - destruct (Z.leb_spec 0 v); lia.
Qed.

(** X3. Every byte except 0x80 is the encoding of the value it decodes to; 0x80
    decodes to zero like 0x00, and a decoded byte lies between -127 and
    127. *)
Theorem encode_decodeSignedValue b :
  0 <= b <= 255 ->
  -127 <= decodeSignedValue b <= 127 /\
  (b <> 0x80 -> encodeSignedValue (decodeSignedValue b) = b) /\
  decodeSignedValue 0x80 = decodeSignedValue 0x00.
Proof.
  intros Hb. unfold decodeSignedValue, encodeSignedValue.
  split; [|split; [|reflexivity]].
  - destruct (Z.leb_spec b 0x7F); lia.
  - intros Hne. destruct (Z.leb_spec b 0x7F).
    + destruct (Z.leb_spec 0 b); lia.
    + destruct (Z.leb_spec 0 (- (b - 0x80))); lia.
Qed.

Lemma Math_round_half_steps k : Math_round (inject_Z k / 2 * 2) = k.
Proof.
  unfold Math_round, Qfloor, Qplus, Qmult, Qdiv, Qinv, inject_Z. simpl.
  symmetry. apply Z.div_unique with (r := 2); lia.
Qed.

Lemma Math_round_fifths ms : Math_round (inject_Z ms / 5) = (2 * ms + 5) / 10.
Proof.
  unfold Math_round, Qfloor, Qplus, Qmult, Qdiv, Qinv, inject_Z. simpl.
  f_equal. lia.
Qed.

Lemma encodeSubTrim_comp x y : (x == y)%Q -> encodeSubTrim x = encodeSubTrim y.
Proof.
  intros E. unfold encodeSubTrim, Math_round.
  assert (H : Qfloor (x * 2 + (1 # 2)) = Qfloor (y * 2 + (1 # 2))).
  { apply Qfloor_comp. rewrite E. reflexivity. }
  rewrite H. reflexivity.
Qed.

Example decodeSubTrim_0x94 : (decodeSubTrim 0x94 == - (10 # 1))%Q.
Proof. reflexivity. Qed.

Example encodeSubTrim_minus_half : encodeSubTrim (- (1 # 2)) = 0x81.
Proof. reflexivity. Qed.

(** X4. A trim of [k] half-dB steps, [k] from -127 to 127, is encoded as a byte
    and decoded back exactly; its code is the step count, or 0x80 plus the
    count for a negative trim. *)
Theorem decode_encodeSubTrim k :
  -127 <= k <= 127 ->
  (decodeSubTrim (encodeSubTrim (inject_Z k / 2)) == inject_Z k / 2)%Q /\
  encodeSubTrim (inject_Z k / 2) = (if 0 <=? k then k else 0x80 + Z.abs k) /\
  0 <= encodeSubTrim (inject_Z k / 2) <= 255.
Proof.
  intros Hk. unfold encodeSubTrim. rewrite Math_round_half_steps. cbv zeta.
  split_and!; [|reflexivity|destruct (Z.leb_spec 0 k); lia..].
  unfold decodeSubTrim.
  destruct (Z.leb_spec 0 k).
  - destruct (Z.leb_spec k 0x7F); [reflexivity|lia].
  - destruct (Z.leb_spec (0x80 + Z.abs k) 0x7F); [lia|].
    replace (0x80 + Z.abs k - 0x80) with (- k) by lia.
    unfold Qeq, Qdiv, Qmult, Qinv, Qopp, inject_Z. simpl. lia.
Qed.

(** X5. Every byte except 0x80 is the code of the trim it decodes to. *)
Theorem encode_decodeSubTrim b :
  0 <= b <= 255 -> b <> 0x80 -> encodeSubTrim (decodeSubTrim b) = b.
Proof.
  intros Hb Hne. unfold decodeSubTrim.
  destruct (Z.leb_spec b 0x7F).
  - unfold encodeSubTrim. rewrite Math_round_half_steps. cbv zeta.
    destruct (Z.leb_spec 0 b); lia.
  - assert (E : (- inject_Z (b - 0x80) / 2 == inject_Z (- (b - 0x80)) / 2)%Q).
    { unfold Qeq, Qdiv, Qmult, Qinv, Qopp, inject_Z. simpl. lia. }
    rewrite (encodeSubTrim_comp _ _ E).
    unfold encodeSubTrim. rewrite Math_round_half_steps. cbv zeta.
    destruct (Z.leb_spec 0 (- (b - 0x80))); lia.
Qed.

(** X6. A delay code is recovered from the delay it stands for. A delay of up
    to 1275 whole milliseconds is encoded as a byte; it comes back within
    2 ms, and exactly when it is a multiple of 5. *)
Theorem lipsync_roundtrip b ms :
  0 <= b <= 255 -> 0 <= ms <= 1275 ->
  encodeLipsync (inject_Z (decodeLipsync b)) = b /\
  0 <= encodeLipsync (inject_Z ms) <= 255 /\
  Z.abs (decodeLipsync (encodeLipsync (inject_Z ms)) - ms) <= 2 /\
  (decodeLipsync (encodeLipsync (inject_Z ms)) = ms <-> ms mod 5 = 0).
Proof.
  intros Hb Hms. unfold encodeLipsync, decodeLipsync.
  rewrite !Math_round_fifths. split_and!.
  all: Z.to_euclidean_division_equations; lia.
Qed.

(** * Frames built by the command builder *)

Lemma Cmd_code_inj c c' : Cmd_code c = Cmd_code c' -> c = c'.
Proof. destruct c; destruct c'; (reflexivity || discriminate). Qed.

Lemma Zone_code_inj z z' : Zone_code z = Zone_code z' -> z = z'.
Proof. destruct z; destruct z'; (reflexivity || discriminate). Qed.

Lemma to_u8_inj x y : 0 <= x < 256 -> 0 <= y < 256 -> to_u8 x = to_u8 y -> x = y.
Proof.
  intros Hx Hy E. apply (f_equal byte_val) in E.
  by rewrite !to_u8_val_small in E.
Qed.

Lemma Buffer_from_inj l l' :
  Forall (fun x => 0 <= x < 256) l -> Forall (fun x => 0 <= x < 256) l' ->
  Buffer_from l = Buffer_from l' -> l = l'.
Proof.
  unfold Buffer_from. intros Hl. revert l'.
  induction Hl as [|x l Hx _ IH]; intros [|y l'] Hl' E; try done.
  apply Forall_cons in Hl' as [Hy Hl']. simpl in E. injection E as E1 E2.
  f_equal; [by apply to_u8_inj|by apply IH].
Qed.

(** X7. Commands are told apart on the wire: two calls of [buildCommand] with
    payloads of bytes give the same frame only for the same zone, command
    and payload. The frame is five bytes longer than the payload and carries
    the payload's length in its fourth byte when that length is below
    256. *)
Theorem buildCommand_injective z c payload z' c' payload' :
  Forall (fun x => 0 <= x < 256) payload ->
  Forall (fun x => 0 <= x < 256) payload' ->
  (buildCommand z c payload = buildCommand z' c' payload' ->
   z = z' /\ c = c' /\ payload = payload') /\
  length (buildCommand z c payload) = (5 + length payload)%nat /\
  ((length payload < 256)%nat ->
   Buffer_get (buildCommand z c payload) 3 = Z.of_nat (length payload)).
Proof.
  intros Hp Hp'. split_and!.
  - unfold buildCommand. cbn [app Buffer_from map]. intros E.
    injection E as Ez Ec _ E.
    apply to_u8_inj in Ez; [|destruct z; simpl; lia|destruct z'; simpl; lia].
    apply to_u8_inj in Ec; [|destruct c; simpl; lia|destruct c'; simpl; lia].
    apply Buffer_from_inj in E.
    + apply app_inj_tail in E as [E _].
      split_and!; [by apply Zone_code_inj|by apply Cmd_code_inj|done].
    + apply Forall_app; split; [done|]. repeat constructor; unfold ETX; lia.
    + apply Forall_app; split; [done|]. repeat constructor; unfold ETX; lia.
  - rewrite length_buildCommand. lia.
  - intros Hlen. unfold buildCommand, Buffer_get. cbn [app Buffer_from map nth].
    apply to_u8_val_small. lia.
Qed.

(** * Lookup tables *)

Lemma fold_insert_lookup `{Countable K} {V} (l : list (K * V)) (m : gmap K V) k v :
  NoDup (l.*1) ->
  fold_left (fun m kv => <[kv.1 := kv.2]> m) l m !! k = Some v <->
  (k, v) ∈ l \/ ((k ∉ l.*1) /\ m !! k = Some v).
Proof.
  revert m. induction l as [|[k' v'] l IH]; intros m Hnd; simpl.
  - set_solver.
  - apply NoDup_cons in Hnd as [Hk' Hnd]. rewrite (IH _ Hnd).
    rewrite lookup_insert_Some, elem_of_cons, not_elem_of_cons. simpl. split.
    + intros [Hin|[Hk [[-> ->]|[Hne Hm]]]]; [tauto|tauto|].
      right. split; [|done]. split; [congruence|done].
    + intros [[[= -> ->]|Hin]|[[Hne Hk] Hm]]; [|tauto|].
      * right. split; [done|]. by left.
      * right. split; [done|]. right. split; [congruence|done].
Qed.

(** With distinct keys, a table built from entries holds exactly them. *)
Lemma Object_fromEntries_lookup `{Countable K} {V} (l : list (K * V)) k v :
  NoDup (l.*1) -> Object_fromEntries l !! k = Some v <-> (k, v) ∈ l.
Proof.
  intros Hnd. unfold Object_fromEntries. rewrite (fold_insert_lookup l ∅ k v Hnd).
  rewrite lookup_empty. naive_solver.
Qed.

Ltac nodup_by_computation :=
  match goal with |- ?P => apply (bool_decide_unpack P) end; vm_compute; exact I.

(** X8. [INPUT_SOURCE_REVERSE] inverts [INPUT_SOURCE_MAP]: a Homey id maps to a
    source byte exactly when that byte maps back to the id; and every mapped
    source byte has a display name. *)
Theorem INPUT_SOURCE_REVERSE_inverts :
  (forall k v, INPUT_SOURCE_MAP !! k = Some v <-> INPUT_SOURCE_REVERSE !! v = Some k) /\
  (forall k v, INPUT_SOURCE_MAP !! k = Some v -> is_Some (INPUT_SOURCE_NAMES !! v)) /\
  INPUT_SOURCE_REVERSE !! FOLLOW_ZONE1 = None.
Proof.
  assert (N1 : NoDup (INPUT_SOURCE_MAP_entries.*1)) by nodup_by_computation.
  assert (N2 : NoDup (((fun kv : string * Z => (kv.2, kv.1)) <$> INPUT_SOURCE_MAP_entries).*1))
    by nodup_by_computation.
  split_and!.
  - intros k v. unfold INPUT_SOURCE_MAP, INPUT_SOURCE_REVERSE.
    rewrite (Object_fromEntries_lookup _ k v N1), (Object_fromEntries_lookup _ v k N2).
    rewrite list_elem_of_fmap. split.
    + intros Hin. by exists (k, v).
    + intros ([k' v'] & [= -> ->] & Hin). done.
  - intros k v. unfold INPUT_SOURCE_MAP.
    rewrite (Object_fromEntries_lookup _ k v N1).
    unfold INPUT_SOURCE_MAP_entries. rewrite !elem_of_cons, elem_of_nil.
    intros Hin. repeat destruct Hin as [[= -> ->]|Hin]; try done; by vm_compute.
  - by vm_compute.
Qed.

Ltac table_cases H :=
  rewrite !elem_of_cons, elem_of_nil in H;
  repeat (destruct H as [H|H];
          [first [discriminate H | injection H as -> ->; by vm_compute]|]);
  done.

(** X9. The hand-written reverse tables agree with [DECODE_MODE_MAP]: an id maps
    to a two-channel (multi-channel) value exactly when the two-channel
    (multi-channel) reverse table maps that value to the id; and the reverse
    tables have the same keys as the tables of display names. *)
Theorem DECODE_MODE_tables_agree :
  (forall name value,
     DECODE_MODE_MAP !! name = Some (true, value) <->
     DECODE_MODE_2CH_REVERSE !! value = Some name) /\
  (forall name value,
     DECODE_MODE_MAP !! name = Some (false, value) <->
     DECODE_MODE_MCH_REVERSE !! value = Some name) /\
  dom DECODE_MODE_2CH_REVERSE = dom DECODE_MODE_2CH_NAMES /\
  dom DECODE_MODE_MCH_REVERSE = dom DECODE_MODE_MCH_NAMES.
Proof.
  split_and!.
  - intros name value. split; intros H.
    + unfold DECODE_MODE_MAP in H.
      apply Object_fromEntries_lookup in H; [|nodup_by_computation]. table_cases H.
    + unfold DECODE_MODE_2CH_REVERSE in H.
      apply Object_fromEntries_lookup in H; [|nodup_by_computation]. table_cases H.
  - intros name value. split; intros H.
    + unfold DECODE_MODE_MAP in H.
      apply Object_fromEntries_lookup in H; [|nodup_by_computation]. table_cases H.
    + unfold DECODE_MODE_MCH_REVERSE in H.
      apply Object_fromEntries_lookup in H; [|nodup_by_computation]. table_cases H.
  - by vm_compute.
  - by vm_compute.
Qed.

(** * Video and audio information *)

Lemma Buffer_at_range b i x : Buffer_at b i = Some x -> 0 <= x < 256.
Proof.
  unfold Buffer_at. destruct (b !! i) as [y|]; [|done]. intros [= <-].
  apply byte_val_range.
Qed.

Lemma ToInt32_range b i : 0 <= ToInt32 (Buffer_at b i) < 256.
Proof.
  destruct (Buffer_at b i) as [x|] eqn:E; simpl; [by eapply Buffer_at_range|lia].
Qed.

Lemma lor_shiftl_8 hi lo :
  0 <= hi -> 0 <= lo < 256 -> Z.lor (Z.shiftl hi 8) lo = 256 * hi + lo.
Proof.
  intros Hhi Hlo.
  assert (Hland : Z.land (Z.shiftl hi 8) lo = 0).
  { apply Z.bits_inj'. intros n Hn. rewrite Z.land_spec, Z.bits_0.
    destruct (Z.lt_ge_cases n 8).
    - by rewrite Z.shiftl_spec_low by lia.
    - rewrite (Z.bits_above_log2 lo n), andb_false_r; [done|lia|].
      destruct (Z.eq_dec lo 0) as [->|]; [simpl; lia|].
      apply Z.lt_le_trans with 8; [apply Z.log2_lt_pow2; lia|lia]. }
  rewrite <- Z.lxor_lor, <- Z.add_nocarry_lxor by exact Hland.
  rewrite Z.shiftl_mul_pow2 by lia.
  change (2 ^ 8) with 256. lia.
Qed.

(** X10. Width and height are the big-endian 16-bit numbers in the first four
    bytes (a missing byte counts as zero), so they lie in 0..65535; and the
    resolution text is 'No Signal' exactly when these four bytes are zero or
    missing, as for the empty buffer. *)
Theorem parseVideoInfo_dimensions d :
  let info := parseVideoInfo d in
  width info = 256 * ToInt32 (Buffer_at d 0) + ToInt32 (Buffer_at d 1) /\
  height info = 256 * ToInt32 (Buffer_at d 2) + ToInt32 (Buffer_at d 3) /\
  0 <= width info < 65536 /\ 0 <= height info < 65536 /\
  (formatVideoResolution info = "No Signal"%string <->
   ToInt32 (Buffer_at d 0) = 0 /\ ToInt32 (Buffer_at d 1) = 0 /\
   ToInt32 (Buffer_at d 2) = 0 /\ ToInt32 (Buffer_at d 3) = 0).
Proof.
  intros info.
  pose proof (ToInt32_range d 0) as H0. pose proof (ToInt32_range d 1) as H1.
  pose proof (ToInt32_range d 2) as H2. pose proof (ToInt32_range d 3) as H3.
  assert (Hw : width info = 256 * ToInt32 (Buffer_at d 0) + ToInt32 (Buffer_at d 1)).
  { subst info. cbn [parseVideoInfo width]. apply lor_shiftl_8; lia. }
  assert (Hh : height info = 256 * ToInt32 (Buffer_at d 2) + ToInt32 (Buffer_at d 3)).
  { subst info. cbn [parseVideoInfo height]. apply lor_shiftl_8; lia. }
  split_and!; try lia.
  unfold formatVideoResolution. clearbody info. split.
  - destruct (Z.eqb_spec (width info) 0) as [Ew|Ew];
      [destruct (Z.eqb_spec (height info) 0) as [Eh|Eh]; [lia|]|]; cbn [andb];
      unfold Number_toString, NilEmpty.string_of_int;
      destruct (Z.to_int (width info)) as [[]|[]]; simpl; discriminate.
  - intros (E0 & E1 & E2 & E3).
    replace (width info) with 0 by lia. replace (height info) with 0 by lia.
    reflexivity.
Qed.

(** X11. [parseAudioInfo] throws exactly on the empty buffer. Otherwise the
    format id is the first byte, the channel configuration is the second
    byte or 0 when there is none, and the format name is the table's name
    for a listed id and "Unknown (0x..)" with the id in hexadecimal for any
    other. *)
Theorem parseAudioInfo_cases d :
  (parseAudioInfo d = None <-> d = []) /\
  forall info, parseAudioInfo d = Some info ->
    formatId info = Buffer_get d 0 /\
    channelConfig info = (if (1 <? length d)%nat then Buffer_get d 1 else 0) /\
    (length d = 1%nat -> channelConfig info = 0) /\
    (forall name, AUDIO_FORMAT_NAMES !! formatId info = Some name ->
                  format info = name) /\
    (AUDIO_FORMAT_NAMES !! formatId info = None ->
     format info = String.append "Unknown (0x"
                     (String.append (toString16 (formatId info)) ")")).
Proof.
  unfold parseAudioInfo, Buffer_at.
  destruct d as [|x d]; cbn [lookup list_lookup fmap option_fmap option_map].
  - split; [done|]. intros info H. discriminate H.
  - split; [split; intros H; discriminate H|].
    intros info H. apply (inj Some) in H. subst info.
    cbn [formatId channelConfig format].
    split_and!; try reflexivity.
    + intros Hlen. by destruct d.
    + intros name Hname. rewrite Hname.
      unfold AUDIO_FORMAT_NAMES in Hname.
      apply Object_fromEntries_lookup in Hname; [|nodup_by_computation].
      rewrite !elem_of_cons, elem_of_nil in Hname.
      repeat (destruct Hname as [Hname|Hname];
              [injection Hname as _ ->; reflexivity|]).
      done.
    + intros Hnone. by rewrite Hnone.
Qed.

(** * Further properties of the connection *)

(** X12. In every reachable state no promise has been settled twice, no pending
    request is already settled, the pending requests are distinct, each of
    them (queued or in flight) has its timeout timer pending with the
    configured delay, and every pending command timeout belongs to a pending
    request. *)
Theorem reachable_requests_and_timers W o trace s :
  run W (constructor o) trace = Some s ->
  NoDup ((settled s).*1) /\
  NoDup (ids (pending s)) /\
  (forall q, q ∈ pending s ->
     (timeout q ∉ (settled s).*1) /\
     timers s !! timeout q
     = Some (TCommandTimeout, default 5000 (opt_commandTimeout o))) /\
  (forall h d, timers s !! h = Some (TCommandTimeout, d) -> h ∈ ids (pending s)).
Proof.
  intros Hrun. pose proof (reachable_Inv W o trace s Hrun) as I.
  destruct (run_extends W trace _ s Hrun) as [_ Hopt].
  destruct (InvV_fifo_parts [] _ I) as (_ & Hnd & _).
  split_and!.
  - by apply Inv_settled_NoDup.
  - exact Hnd.
  - intros q Hq. split.
    + pose proof (inv_pending_unsettled _ _ I q Hq) as H. simpl in H.
      by rewrite app_nil_r in H.
    + pose proof (inv_pending_timer _ _ I q Hq) as H. simpl in H.
      by rewrite Hopt in H.
  - exact (inv_timer_pending _ _ I).
Qed.

(** X13. [processQueue] on an idle, connected connection: the commands at the
    head of the queue whose write throws are rejected, in order, each with
    the error of its write; the first command whose write succeeds goes on
    the wire and becomes the command in flight; if every write throws the
    queue ends up empty with nothing in flight. *)
Theorem processQueue_skips_failed_writes W s sock failed rest :
  currentCommand s = None -> _connected s = true -> socket s = Some sock ->
  commandQueue s = failed ++ rest ->
  Forall (fun x => is_Some (W (buffer x))) failed ->
  match rest with [] => True | q :: _ => W (buffer q) = None end ->
  let s' := processQueue W s in
  settled s'
  = settled s
    ++ omap (fun x => (fun e => (timeout x, Rejected e)) <$> W (buffer x)) failed /\
  currentCommand s' = head rest /\
  commandQueue s' = tail rest /\
  wire s' = wire s ++ ((fun q => (sock, q)) <$> option_list (head rest)).
Proof.
  unfold processQueue. intros Hc Hconn Hsock Hq Hfailed Hrest.
  rewrite Hq. revert s Hc Hconn Hsock Hq.
  induction Hfailed as [|x failed [err Hx] _ IH]; intros s Hc Hconn Hsock Hq.
  - simpl in *. rewrite app_nil_r. destruct rest as [|q rest]; simpl; rewrite Hc.
    + by rewrite app_nil_r.
    + rewrite Hconn, Hsock, Hrest. by st_simpl.
  - simpl. rewrite Hc, Hconn, Hsock, Hx. cbn [fmap option_fmap option_map].
    specialize (IH (set_currentCommand None
                      (reject (timeout x) err
                         (clearTimeout (timeout x)
                            (set_commandQueue (failed ++ rest)
                               (set_currentCommand (Some x) s)))))
                   eq_refl Hconn Hsock eq_refl).
    cbv zeta in IH. destruct IH as (E1 & E2 & E3 & E4).
    rewrite E1, E2, E3, E4. st_simpl. by rewrite <- app_assoc.
Qed.

(** What the 'connect' handler leaves behind. *)
Lemma onSocketConnect_fields ct s :
  _connected (onSocketConnect ct s) = true /\
  reconnectAttempts (onSocketConnect ct s) = 0%nat /\
  emitted (onSocketConnect ct s) = emitted s ++ [EmConnected] /\
  heartbeatTimer (onSocketConnect ct s) = Some (nextTimer s) /\
  timers (onSocketConnect ct s) !! nextTimer s
  = Some (THeartbeat, heartbeatInterval (options s)) /\
  listeners (onSocketConnect ct s) = listeners s /\
  intentionalDisconnect (onSocketConnect ct s) = intentionalDisconnect s /\
  options (onSocketConnect ct s) = options s /\
  socket (onSocketConnect ct s) = socket s.
Proof.
  unfold onSocketConnect, startHeartbeat, stopHeartbeat. st_simpl.
  destruct (heartbeatTimer s); st_simpl; by rewrite lookup_insert_eq.
Qed.

(** An unintended close of a connected socket: 'disconnected', then
    'reconnecting' with the next attempt number and its delay. *)
Lemma onSocketClose_connected s :
  _connected s = true -> intentionalDisconnect s = false ->
  _connected (onSocketClose s) = false /\
  reconnectAttempts (onSocketClose s) = S (reconnectAttempts s) /\
  emitted (onSocketClose s)
  = emitted s
    ++ [EmDisconnected;
        EmReconnecting (S (reconnectAttempts s))
                       (reconnect_delay (options s) (reconnectAttempts s))].
Proof.
  intros Hc Hi. unfold onSocketClose. rewrite Hc.
  set (s0 := stopHeartbeat (set_connected false s)).
  assert (E0 : reconnectAttempts s0 = reconnectAttempts s /\ emitted s0 = emitted s /\
               options s0 = options s /\ intentionalDisconnect s0 = false /\
               _connected s0 = false).
  { subst s0. unfold stopHeartbeat. st_simpl.
    destruct (heartbeatTimer s); st_simpl; by rewrite ?Hi. }
  clearbody s0. destruct E0 as (A1 & A2 & A3 & A4 & A5).
  set (s2 := rejectPending "Connection closed" s0).
  assert (E : reconnectAttempts s2 = reconnectAttempts s /\ emitted s2 = emitted s /\
              options s2 = options s /\ intentionalDisconnect s2 = false /\
              _connected s2 = false).
  { destruct (rejectPending_reconnect_fields "Connection closed" s0)
      as (B1 & B2 & B3 & B4).
    assert (B5 : _connected s2 = _connected s0).
    { subst s2. unfold rejectPending. st_simpl.
      rewrite (fold_reject_frame _connected) by done.
      by destruct (currentCommand s0). }
    subst s2. split_and!; congruence. }
  clearbody s2. destruct E as (E1 & E2 & E3 & E4 & E5).
  set (s3 := emit EmDisconnected s2).
  assert (E' : reconnectAttempts s3 = reconnectAttempts s /\ options s3 = options s /\
               intentionalDisconnect s3 = false /\ _connected s3 = false /\
               emitted s3 = emitted s ++ [EmDisconnected]).
  { subst s3. st_simpl. by rewrite E2. }
  clearbody s3. destruct E' as (G1 & G2 & G3 & G4 & G5).
  rewrite G3. cbn [negb].
  destruct (scheduleReconnect_fields s3) as (H1 & H2 & _).
  rewrite H1, H2, G1, G2, G5, <- app_assoc. split_and!; try done.
  unfold scheduleReconnect, clearReconnect.
  destruct (reconnectTimer s3); by st_simpl.
Qed.

(** X14. When the socket connects, the connection is marked connected, the
    attempt counter returns to zero, 'connected' is emitted and the heartbeat
    interval is armed with the configured period; its firing enqueues the
    heartbeat query. If that socket later closes without [disconnect()], the
    backoff starts over: 'disconnected' and then 'reconnecting' with attempt
    1 and the base delay (capped by the maximum) are emitted. *)
Theorem socket_connect_resets_backoff W s sock ct :
  listeners s !! sock = Some ct ->
  exists s1 h,
    step W s (SocketConnect sock) = Some s1 /\
    _connected s1 = true /\ reconnectAttempts s1 = 0%nat /\
    emitted s1 = emitted s ++ [EmConnected] /\
    heartbeatTimer s1 = Some h /\
    timers s1 !! h = Some (THeartbeat, heartbeatInterval (options s)) /\
    step W s1 (TimerFires h) = Some (query W MASTER HEARTBEAT s1) /\
    (intentionalDisconnect s = false ->
     exists s2,
       step W s1 (SocketClose sock) = Some s2 /\
       _connected s2 = false /\ reconnectAttempts s2 = 1%nat /\
       emitted s2
       = emitted s1
         ++ [EmDisconnected;
             EmReconnecting 1 (Z.min (reconnectDelay (options s))
                                     (maxReconnectDelay (options s)))]).
Proof.
  intros Hl.
  destruct (onSocketConnect_fields ct s) as (F1 & F2 & F3 & F4 & F5 & F6 & F7 & F8 & _).
  assert (Hstep : step W s (SocketConnect sock) = Some (onSocketConnect ct s)).
  { cbn [step]. by rewrite Hl. }
  revert Hstep F1 F2 F3 F4 F5 F6 F7 F8. generalize (onSocketConnect ct s).
  intros s1 Hstep F1 F2 F3 F4 F5 F6 F7 F8.
  exists s1, (nextTimer s). split_and!; try assumption.
  - cbn [step]. rewrite F5. reflexivity.
  - intros Hint.
    set (s1' := set_listeners (delete sock (listeners s)) s1).
    exists (onSocketClose s1').
    split; [cbn [step]; rewrite F6, Hl; reflexivity|].
    destruct (onSocketClose_connected s1') as (C1 & C2 & C3).
    { subst s1'. st_simpl. exact F1. }
    { subst s1'. st_simpl. congruence. }
    assert (Ea : reconnectAttempts s1' = 0%nat) by (subst s1'; st_simpl; exact F2).
    assert (Eo : options s1' = options s) by (subst s1'; st_simpl; exact F8).
    assert (Ee : emitted s1' = emitted s1) by (subst s1'; st_simpl; reflexivity).
    clearbody s1'. rewrite Ea, Eo, Ee in *. split_and!; [exact C1|exact C2|].
    rewrite C3. unfold reconnect_delay. change (2 ^ Z.of_nat 0) with 1.
    by rewrite Z.mul_1_r.
Qed.

(** What the loop of [onData] leaves alone while no command is in flight. *)
Lemma onData_loop_idle_frame {A} (P : State -> A) fuel s s' :
  (forall e b s, P (emit e (set_receiveBuffer b s)) = P s) ->
  currentCommand s = None -> onData_loop fuel s = Some s' -> P s' = P s.
Proof.
  intros HP. revert s. induction fuel as [|fuel IH]; intros s Hc; simpl;
    destruct (parseResponse (receiveBuffer s)) as [r|] eqn:Hr; try congruence.
  intros H. assert (E : onResponse r s
      = emit (EmStatus (response r))
          (set_receiveBuffer (subarray (bytesConsumed r) (receiveBuffer s)) s)).
  { unfold onResponse. st_simpl. by rewrite Hc. }
  rewrite E in H. apply IH in H; [|done]. by rewrite H, HP.
Qed.

(** What [onData] does to the timers, the queue and the socket when its
    first frame answers the command in flight. *)
Lemma onData_in_flight_fields chunk s c r s' :
  currentCommand s = Some c ->
  parseResponse (receiveBuffer s ++ chunk) = Some r ->
  onData chunk s = Some s' ->
  timers s' = <[nextTimer s := (TProcessQueue, 50)]> (delete (timeout c) (timers s)) /\
  nextTimer s' = S (nextTimer s) /\ commandQueue s' = commandQueue s /\
  currentCommand s' = None /\ wire s' = wire s /\
  _connected s' = _connected s /\ socket s' = socket s.
Proof.
  intros Hc Hr Hs. unfold onData in Hs. st_simpl.
  destruct (onData_loop _ _) as [s1|] eqn:H1; [|done].
  enough (Hgoal : timers s1 = <[nextTimer s := (TProcessQueue, 50)]>
                                (delete (timeout c) (timers s)) /\
                  nextTimer s1 = S (nextTimer s) /\ commandQueue s1 = commandQueue s /\
                  currentCommand s1 = None /\ wire s1 = wire s /\
                  _connected s1 = _connected s /\ socket s1 = socket s).
  { injection Hs as <-. by destruct (_ <? _)%nat. }
  destruct (length (receiveBuffer s ++ chunk)) as [|fuel]; simpl in H1;
    st_simpl; rewrite Hr in H1; [done|].
  assert (Hidle : currentCommand
                    (onResponse r (set_receiveBuffer (receiveBuffer s ++ chunk) s))
                  = None).
  { unfold onResponse. st_simpl. by rewrite Hc. }
  rewrite (onData_loop_idle_frame timers _ _ _ (fun _ _ _ => eq_refl) Hidle H1),
    (onData_loop_idle_frame nextTimer _ _ _ (fun _ _ _ => eq_refl) Hidle H1),
    (onData_loop_idle_frame commandQueue _ _ _ (fun _ _ _ => eq_refl) Hidle H1),
    (onData_loop_idle_frame currentCommand _ _ _ (fun _ _ _ => eq_refl) Hidle H1),
    (onData_loop_idle_frame wire _ _ _ (fun _ _ _ => eq_refl) Hidle H1),
    (onData_loop_idle_frame _connected _ _ _ (fun _ _ _ => eq_refl) Hidle H1),
    (onData_loop_idle_frame socket _ _ _ (fun _ _ _ => eq_refl) Hidle H1).
  unfold onResponse. st_simpl. rewrite Hc.
  by destruct (isError (response r)).
Qed.

(** X15. A reply to the command in flight does not send the next command at
    once: it leaves the queue as it is and arms a 50 ms timer; when that
    timer fires, the command at the head of the queue is written to the
    socket and becomes the command in flight. *)
Theorem reply_then_next_command W chunk s c r q rest sock :
  currentCommand s = Some c -> commandQueue s = q :: rest ->
  _connected s = true -> socket s = Some sock -> W (buffer q) = None ->
  parseResponse (receiveBuffer s ++ chunk) = Some r ->
  exists s1 s2,
    onData chunk s = Some s1 /\
    currentCommand s1 = None /\ commandQueue s1 = q :: rest /\ wire s1 = wire s /\
    timers s1 !! nextTimer s = Some (TProcessQueue, 50) /\
    step W s1 (TimerFires (nextTimer s)) = Some s2 /\
    currentCommand s2 = Some q /\ commandQueue s2 = rest /\
    wire s2 = wire s ++ [(sock, q)] /\ timers s2 !! nextTimer s = None.
Proof.
  intros Hc Hq Hconn Hsock Hw Hr.
  destruct (onData_total chunk s) as [s1 Hs1].
  destruct (onData_in_flight_fields chunk s c r s1 Hc Hr Hs1)
    as (Ht & Hn & Hq1 & Hc1 & Hw1 & Hconn1 & Hsock1).
  assert (Hl : timers s1 !! nextTimer s = Some (TProcessQueue, 50)).
  { by rewrite Ht, lookup_insert_eq. }
  exists s1, (processQueue W (clearTimeout (nextTimer s) s1)).
  split_and!; try done; try congruence.
  1: { cbn [step]. by rewrite Hl. }
  all: rewrite (processQueue_pops_head W _ q rest sock); st_simpl;
    try congruence.
  by rewrite lookup_delete_eq.
Qed.

(** X16. That pause only delays the queue's own restart. A command sent during
    the 50 ms finds no command in flight and is written at once, while the
    timer is still pending; when the timer fires afterwards it finds a
    command in flight and does nothing but leave the timer table. *)
Theorem pause_not_kept_for_new_commands W chunk s c r b sock :
  currentCommand s = Some c -> commandQueue s = [] ->
  _connected s = true -> socket s = Some sock -> W b = None ->
  parseResponse (receiveBuffer s ++ chunk) = Some r ->
  exists s1,
    onData chunk s = Some s1 /\
    let s2 := enqueue W b s1 in
    wire s2 = wire s ++ [(sock, mkQueued b (S (nextTimer s)))] /\
    currentCommand s2 = Some (mkQueued b (S (nextTimer s))) /\
    timers s2 !! nextTimer s = Some (TProcessQueue, 50) /\
    step W s2 (TimerFires (nextTimer s)) = Some (clearTimeout (nextTimer s) s2).
Proof.
  intros Hc Hq Hconn Hsock Hw Hr.
  destruct (onData_total chunk s) as [s1 Hs1].
  destruct (onData_in_flight_fields chunk s c r s1 Hc Hr Hs1)
    as (Ht & Hn & Hq1 & Hc1 & Hw1 & Hconn1 & Hsock1).
  exists s1. split; [done|]. cbv zeta.
  assert (E : enqueue W b s1
              = set_wire (wire s ++ [(sock, mkQueued b (S (nextTimer s)))])
                  (set_commandQueue []
                     (set_currentCommand (Some (mkQueued b (S (nextTimer s))))
                        (set_commandQueue [mkQueued b (S (nextTimer s))]
                           (snd (setTimeout TCommandTimeout
                                   (commandTimeout (options s1)) s1)))))).
  { unfold enqueue. st_simpl. rewrite Hn, Hq1, Hq. simpl.
    rewrite (processQueue_pops_head W _ (mkQueued b (S (nextTimer s))) [] sock);
      st_simpl; try congruence; exact Hw. }
  rewrite E. st_simpl. rewrite Hn.
  assert (Hl : <[S (nextTimer s) := (TCommandTimeout, commandTimeout (options s1))]>
                 (timers s1) !! nextTimer s = Some (TProcessQueue, 50)).
  { rewrite lookup_insert_ne by lia. by rewrite Ht, lookup_insert_eq. }
  split_and!; try done.
  cbn [step]. st_simpl. rewrite Hl. cbn [onTimer].
  by rewrite (processQueue_busy W _ (mkQueued b (S (nextTimer s)))).
Qed.

(** X17. Two chunks that together still hold no complete frame are kept as if
    they had arrived as one: as long as the buffered bytes do not exceed
    1024, [onData] only appends. *)
Theorem onData_reassembles chunk1 chunk2 s :
  parseResponse (receiveBuffer s ++ chunk1) = None ->
  (length (receiveBuffer s ++ chunk1) <= 1024)%nat ->
  onData chunk1 s = Some (set_receiveBuffer (receiveBuffer s ++ chunk1) s) /\
  onData chunk2 (set_receiveBuffer (receiveBuffer s ++ chunk1) s)
  = onData (chunk1 ++ chunk2) s.
Proof.
  intros Hr Hlen. split.
  - unfold onData. st_simpl.
    destruct (length (receiveBuffer s ++ chunk1)) as [|n] eqn:E;
      simpl; st_simpl; rewrite Hr; st_simpl;
      destruct (Nat.ltb_spec 1024 (length (receiveBuffer s ++ chunk1))); done || lia.
  - unfold onData. st_simpl. by rewrite <- app_assoc.
Qed.

(** Commands with distinct timers are told apart by their timers. *)
Lemma NoDup_ids_inj (l : list QueuedCommand) x y :
  NoDup (timeout <$> l) -> x ∈ l -> y ∈ l -> timeout x = timeout y -> x = y.
Proof.
  induction l as [|z l IH]; [by intros _ ?%elem_of_nil|].
  rewrite fmap_cons, NoDup_cons, !elem_of_cons.
  intros [Hz Hnd] [->|Hx] [->|Hy] Heq; try done.
  - exfalso. apply Hz. rewrite Heq. by apply list_elem_of_fmap_2.
  - exfalso. apply Hz. rewrite <- Heq. by apply list_elem_of_fmap_2.
  - by apply IH.
Qed.

(** X18. A command that is still queued when its timer fires is taken out of the
    queue and rejected with 'Command timeout'; the command in flight, the
    other queued commands and the socket are not touched. *)
Theorem queued_command_timeout W o trace s q :
  run W (constructor o) trace = Some s ->
  q ∈ commandQueue s ->
  exists s1,
    step W s (TimerFires (timeout q)) = Some s1 /\
    settled s1 = settled s ++ [(timeout q, Rejected "Command timeout")] /\
    currentCommand s1 = currentCommand s /\ wire s1 = wire s /\
    (forall x, x ∈ commandQueue s1 <-> x ∈ commandQueue s /\ x <> q) /\
    timers s1 !! timeout q = None.
Proof.
  intros Hrun Hq. pose proof (reachable_Inv W o trace s Hrun) as I.
  destruct (InvV_fifo_parts [] _ I) as (_ & Hnd & _).
  assert (Hp : q ∈ pending s) by (unfold pending; set_solver).
  pose proof (inv_pending_timer _ _ I q Hp) as Ht. simpl in Ht.
  unfold pending, v_pending, ids in *. simpl in Hnd.
  rewrite fmap_app in Hnd. apply NoDup_app in Hnd as (_ & Hdisj & Hndq).
  exists (onCommandTimeout W (timeout q) (clearTimeout (timeout q) s)).
  split; [cbn [step]; by rewrite Ht|].
  assert (E : onCommandTimeout W (timeout q) (clearTimeout (timeout q) s)
              = reject (timeout q) "Command timeout"
                  (set_commandQueue (splice_timeout (timeout q) (commandQueue s))
                     (clearTimeout (timeout q) s))).
  { unfold onCommandTimeout. st_simpl.
    destruct (currentCommand s) as [c|] eqn:Hc; [|done].
    destruct (Nat.eqb_spec (timeout c) (timeout q)) as [Heq|]; [|done].
    exfalso. apply (Hdisj (timeout c)); [simpl; set_solver|].
    rewrite Heq. by apply list_elem_of_fmap_2. }
  rewrite E. st_simpl. split_and!; try done.
  - intros x. rewrite (elem_of_splice_timeout _ _ _ Hndq). split.
    + intros [Hx Hne]. split; [done|]. by intros ->.
    + intros [Hx Hne]. split; [done|]. intros Heq. apply Hne.
      by apply (NoDup_ids_inj (commandQueue s)).
  - by rewrite lookup_delete_eq.
Qed.

(** * Heartbeat and reconnect timers *)


#[local] Instance link_kept_preorder : PreOrder link_kept.
Proof.
  split.
  - intros s. by repeat split.
  - intros s1 s2 s3 (A1 & A2 & A3 & A4 & A5 & A6 & A7 & A8 & A9)
      (B1 & B2 & B3 & B4 & B5 & B6 & B7 & B8 & B9).
    split_and!; try congruence; eauto.
    intros H. rewrite B8, A8; congruence.
Qed.

Ltac timers_tac :=
  let H := fresh "H" in
  intros ? ? ? H [-> | ->];
  repeat first [ rewrite lookup_insert_Some in H
               | rewrite lookup_delete_Some in H ];
  naive_solver.

Ltac link_tac :=
  st_simpl;
  repeat match goal with
         | |- context [match ?x with _ => _ end] => destruct x eqn:?
         end;
  split_and!; st_simpl; try reflexivity; try congruence;
  try timers_tac; try set_solver.

Section LinkKept.

Context (W : Buffer -> option string).

Lemma processQueue_from_link queue s : link_kept s (processQueue_from W queue s).
Proof.
  revert s. induction queue as [|x queue IH]; intros s; simpl.
  - by destruct (currentCommand s).
  - destruct (currentCommand s); [done|]. destruct (_connected s) eqn:?; [|done].
    destruct (socket s) eqn:?; [|done]. st_simpl. destruct (W (buffer x)).
    + etrans; [|apply IH]. link_tac.
    + link_tac.
Qed.

Lemma processQueue_link s : link_kept s (processQueue W s).
Proof. apply processQueue_from_link. Qed.

Lemma enqueue_link b s : link_kept s (enqueue W b s).
Proof.
  unfold enqueue. st_simpl. etrans; [|apply processQueue_link]. link_tac.
Qed.

Lemma onCommandTimeout_link h s : link_kept s (onCommandTimeout W h s).
Proof.
  unfold onCommandTimeout. st_simpl.
  set (s1 := match currentCommand s with Some c => _ | None => _ end).
  assert (H1 : link_kept s s1).
  { subst s1. destruct (currentCommand s) as [c|]; [|link_tac].
    destruct (Nat.eqb (timeout c) h); [|link_tac].
    etrans; [|apply processQueue_link]. link_tac. }
  etrans; [exact H1|]. clearbody s1. link_tac.
Qed.

Lemma onResponse_link r s : link_kept s (onResponse r s).
Proof. unfold onResponse. st_simpl. link_tac. Qed.

Lemma onData_loop_link fuel s s' :
  onData_loop fuel s = Some s' -> link_kept s s'.
Proof.
  revert s. induction fuel as [|fuel IH]; intros s; simpl;
    destruct (parseResponse (receiveBuffer s)) as [r|]; try congruence;
    try (by intros [= <-]).
  intros H. etrans; [apply (onResponse_link r)|]. by apply IH.
Qed.

Lemma onData_link chunk s s' : onData chunk s = Some s' -> link_kept s s'.
Proof.
  unfold onData. destruct (onData_loop _ _) as [s1|] eqn:H1; [|done].
  intros [= <-]. apply onData_loop_link in H1.
  etrans; [|etrans; [exact H1|]]; link_tac.
Qed.

Lemma fold_reject_link reason q s :
  link_kept s (fold_left (fun s x => reject (timeout x) reason
                                       (clearTimeout (timeout x) s)) q s).
Proof.
  revert s. induction q as [|x q IH]; intros s; simpl; [done|].
  etrans; [|apply IH]. link_tac.
Qed.

Lemma rejectPending_link reason s : link_kept s (rejectPending reason s).
Proof.
  unfold rejectPending.
  set (s1 := match currentCommand s with Some c => _ | None => s end).
  assert (H1 : link_kept s s1) by (subst s1; link_tac).
  clearbody s1. etrans; [exact H1|].
  etrans; [apply (fold_reject_link reason (commandQueue s1))|].
  generalize (fold_left (fun s x => reject (timeout x) reason
                                      (clearTimeout (timeout x) s))
                        (commandQueue s1) s1).
  intros s2. link_tac.
Qed.

End LinkKept.

Lemma link_kept_owners s s' : link_kept s s' -> timer_owners s -> timer_owners s'.
Proof.
  intros (A1 & A2 & A3 & A4 & A5 & A6 & A7 & _) (O1 & O2 & O3).
  unfold timer_owners. rewrite A1, A2, A3, A4. split_and!; [| |done].
  - intros h d H. apply O1, A7; auto.
  - intros h d H. apply O2, A7; auto.
Qed.

Lemma stopHeartbeat_owners s :
  (forall h d, timers s !! h = Some (THeartbeat, d) ->
     heartbeatTimer s = Some h /\ d = heartbeatInterval (options s)) ->
  (forall h d, timers s !! h = Some (TReconnect, d) ->
     reconnectTimer s = Some h /\ d <= maxReconnectDelay (options s)) ->
  timer_owners (stopHeartbeat s) /\
  heartbeatTimer (stopHeartbeat s) = None /\
  forall h d, timers (stopHeartbeat s) !! h <> Some (THeartbeat, d).
Proof.
  intros O1 O2.
  assert (Hno : forall h d, timers (stopHeartbeat s) !! h <> Some (THeartbeat, d)).
  { unfold stopHeartbeat. intros h d.
    destruct (heartbeatTimer s) as [h0|] eqn:Hh; st_simpl.
    - intros [Hne H]%lookup_delete_Some. destruct (O1 h d H). congruence.
    - intros H. destruct (O1 h d H). congruence. }
  assert (Hnone : heartbeatTimer (stopHeartbeat s) = None).
  { unfold stopHeartbeat. by destruct (heartbeatTimer s) eqn:Hh. }
  split_and!; try done. unfold timer_owners. rewrite Hnone.
  split_and!; try done.
  - intros h d H. by destruct (Hno h d).
  - unfold stopHeartbeat. destruct (heartbeatTimer s); st_simpl; [|done].
    intros h d [Hne H]%lookup_delete_Some. by apply O2.
Qed.

Lemma startHeartbeat_owners s :
  timer_owners s -> _connected s = true -> timer_owners (startHeartbeat s).
Proof.
  intros (O1 & O2 & O3) Hc. unfold startHeartbeat.
  destruct (stopHeartbeat_owners s O1 O2) as ((P1 & P2 & P3) & _ & Hno).
  assert (Hc' : _connected (stopHeartbeat s) = true).
  { unfold stopHeartbeat. by destruct (heartbeatTimer s). }
  revert P1 P2 P3 Hno Hc'. generalize (stopHeartbeat s). intros s1 P1 P2 P3 Hno Hc'.
  unfold timer_owners. st_simpl. split_and!; [| |done].
  - intros h d [[-> [= <-]]|[Hne H]]%lookup_insert_Some; [done|].
    by destruct (Hno h d).
  - intros h d [[_ [=]]|[Hne H]]%lookup_insert_Some. by apply P2.
Qed.

Lemma clearReconnect_owners s :
  timer_owners s ->
  timer_owners (clearReconnect s) /\
  forall h d, timers (clearReconnect s) !! h <> Some (TReconnect, d).
Proof.
  intros (O1 & O2 & O3). unfold clearReconnect, timer_owners.
  destruct (reconnectTimer s) as [h0|] eqn:Hh; st_simpl.
  - split_and!; try done.
    + intros h d [Hne H]%lookup_delete_Some. by apply O1.
    + intros h d [Hne H]%lookup_delete_Some. destruct (O2 h d H). congruence.
    + intros h d [Hne H]%lookup_delete_Some. destruct (O2 h d H). congruence.
  - rewrite Hh. split_and!; try done; intros h d H; by destruct (O2 h d H).
Qed.

Lemma scheduleReconnect_owners s :
  timer_owners s -> timer_owners (scheduleReconnect s).
Proof.
  intros O. unfold scheduleReconnect.
  destruct (clearReconnect_owners s O) as [(P1 & P2 & P3) Hno].
  revert P1 P2 P3 Hno. generalize (clearReconnect s). intros s1 P1 P2 P3 Hno.
  unfold timer_owners. st_simpl. split_and!; [| |done].
  - intros h d [[_ [=]]|[Hne H]]%lookup_insert_Some. by apply P1.
  - intros h d [[-> [= <-]]|[Hne H]]%lookup_insert_Some.
    + split; [done|]. unfold reconnect_delay. lia.
    + by destruct (Hno h d).
Qed.

Lemma connect_owners s :
  timer_owners s -> timer_owners (connect s).
Proof.
  intros (O1 & O2 & O3). unfold connect, timer_owners. st_simpl.
  destruct (socket s); st_simpl; split_and!; try done.
  all: intros h d [[_ [=]]|[Hne H]]%lookup_insert_Some; eauto.
Qed.

Lemma timer_owners_irrelevant s s' :
  timers s' = timers s -> heartbeatTimer s' = heartbeatTimer s ->
  reconnectTimer s' = reconnectTimer s -> options s' = options s ->
  (forall h, heartbeatTimer s = Some h -> _connected s = true -> _connected s' = true) ->
  timer_owners s -> timer_owners s'.
Proof.
  intros E1 E2 E3 E4 E5 (O1 & O2 & O3). unfold timer_owners.
  rewrite E1, E2, E3, E4. split_and!; try done. intros h Hh. eauto.
Qed.

Lemma clearTimeout_owners h s : timer_owners s -> timer_owners (clearTimeout h s).
Proof. apply link_kept_owners. link_tac. Qed.

Lemma onSocketConnect_owners ct s :
  timer_owners s -> timer_owners (onSocketConnect ct s).
Proof.
  intros O. unfold onSocketConnect.
  assert (O' : timer_owners (set_reconnectAttempts 0 (set_connected true (clearTimeout ct s)))).
  { apply clearTimeout_owners with (h := ct) in O.
    revert O. apply timer_owners_irrelevant; done. }
  apply startHeartbeat_owners in O'; [|done].
  revert O'. generalize (startHeartbeat (set_reconnectAttempts 0 (set_connected true (clearTimeout ct s)))).
  intros s1. apply timer_owners_irrelevant; done.
Qed.

Lemma onSocketClose_owners s : timer_owners s -> timer_owners (onSocketClose s).
Proof.
  intros (O1 & O2 & O3). unfold onSocketClose.
  destruct (stopHeartbeat_owners (set_connected false s) O1 O2) as (P & _ & _).
  apply (link_kept_owners _ _ (rejectPending_link "Connection closed" _)) in P.
  revert P. generalize (rejectPending "Connection closed" (stopHeartbeat (set_connected false s))).
  intros s1 P.
  set (s2 := if _connected s then emit EmDisconnected s1 else s1).
  assert (P2 : timer_owners s2).
  { subst s2. destruct (_connected s); [|done]. revert P.
    apply timer_owners_irrelevant; done. }
  clearbody s2. destruct (negb _); [|done]. by apply scheduleReconnect_owners.
Qed.

Lemma disconnect_owners s :
  timer_owners s ->
  timer_owners (disconnect s) /\
  forall h d, timers (disconnect s) !! h <> Some (TReconnect, d).
Proof.
  intros (O1 & O2 & O3). unfold disconnect.
  destruct (stopHeartbeat_owners (set_intentionalDisconnect true s) O1 O2)
    as (P & Hnone & _).
  revert P Hnone. generalize (stopHeartbeat (set_intentionalDisconnect true s)).
  intros s0 P Hnone.
  apply clearReconnect_owners in P as [P Hno].
  assert (Hnone' : heartbeatTimer (clearReconnect s0) = None).
  { unfold clearReconnect. by destruct (reconnectTimer s0). }
  pose proof (rejectPending_link "Disconnecting" (clearReconnect s0)) as L.
  revert P Hno Hnone' L. generalize (clearReconnect s0).
  intros s1 P Hno Hnone' L. pose proof (link_kept_owners _ _ L P) as P'.
  destruct L as (L1 & _ & _ & _ & _ & _ & L7 & _).
  assert (Hno' : forall h d, timers (rejectPending "Disconnecting" s1) !! h
                             <> Some (TReconnect, d)).
  { intros h d H. apply (Hno h d). apply L7; auto. }
  rewrite Hnone' in L1.
  revert P' Hno' L1. generalize (rejectPending "Disconnecting" s1).
  intros s2 (Q1 & Q2 & Q3) Hno' L1.
  destruct (socket s2); (split; [|done]); unfold timer_owners; st_simpl;
    rewrite L1; split_and!; try done; intros h d H; destruct (Q1 h d H);
    congruence.
Qed.

Lemma onTimer_owners W h k s : timer_owners s -> timer_owners (onTimer W h k s).
Proof.
  intros O. destruct k; cbn [onTimer].
  - apply (link_kept_owners (clearTimeout h s)); [|by apply clearTimeout_owners].
    apply onCommandTimeout_link.
  - apply (link_kept_owners (clearTimeout h s)); [|by apply clearTimeout_owners].
    apply processQueue_link.
  - by apply connect_owners, clearTimeout_owners.
  - revert O. apply link_kept_owners, enqueue_link.
  - by apply clearTimeout_owners.
Qed.

Lemma step_owners W s e s' :
  timer_owners s -> step W s e = Some s' -> timer_owners s'.
Proof.
  intros O. destruct e; cbn [step].
  - intros [= <-]. by apply connect_owners.
  - intros [= <-]. by apply disconnect_owners.
  - intros [= <-]. revert O. apply link_kept_owners, enqueue_link.
  - intros [= <-]. revert O. apply link_kept_owners, enqueue_link.
  - intros [= <-]. revert O. apply link_kept_owners, enqueue_link.
  - destruct (listeners s !! sock); [|done]. intros [= <-].
    by apply onSocketConnect_owners.
  - destruct (listeners s !! sock); [|done]. intros H.
    revert O. by apply link_kept_owners, (onData_link chunk).
  - destruct (listeners s !! sock); [|done]. intros [= <-].
    unfold onSocketError. apply clearTimeout_owners with (h := n) in O.
    revert O. apply timer_owners_irrelevant; done.
  - destruct (listeners s !! sock); [|done]. intros [= <-].
    apply onSocketClose_owners. revert O. apply timer_owners_irrelevant; done.
  - destruct (timers s !! h) as [[k dl]|]; [|done]. intros [= <-].
    by apply onTimer_owners.
Qed.

Lemma run_owners W trace s s' :
  timer_owners s -> run W s trace = Some s' -> timer_owners s'.
Proof.
  revert s. induction trace as [|e trace IH]; intros s O; simpl.
  - by intros [= <-].
  - destruct (step W s e) as [s1|] eqn:Hs; [|done].
    apply IH. by eapply step_owners.
Qed.

Lemma constructor_owners o : timer_owners (constructor o).
Proof. by split_and!. Qed.

(** X19. In every reachable state at most one heartbeat interval is pending: the
    one held in [heartbeatTimer], with the configured period (30 s unless the
    caller chose another), and only while the connection counts as
    connected. At most one reconnect timer is pending: the one held in
    [reconnectTimer], and its delay does not exceed the maximum (60 s unless
    the caller chose another). *)
Theorem heartbeat_and_reconnect_timers W o trace s :
  run W (constructor o) trace = Some s ->
  (forall h d, timers s !! h = Some (THeartbeat, d) ->
     heartbeatTimer s = Some h /\ _connected s = true /\
     d = default 30000 (opt_heartbeatInterval o)) /\
  (forall h d, timers s !! h = Some (TReconnect, d) ->
     reconnectTimer s = Some h /\ d <= default 60000 (opt_maxReconnectDelay o)).
Proof.
  intros Hrun.
  destruct (run_owners W trace _ s (constructor_owners o) Hrun) as (O1 & O2 & O3).
  destruct (run_extends W trace _ s Hrun) as [_ Hopt]. rewrite Hopt in O1, O2.
  split.
  - intros h d H. destruct (O1 h d H) as [Hh ->]. eauto.
  - intros h d H. by apply O2.
Qed.

(** * After [disconnect()] *)


#[local] Instance stays_down_preorder : PreOrder stays_down.
Proof.
  split.
  - intros s. by repeat split.
  - intros s1 s2 s3 (A1 & A2 & A3 & A4 & A5) (B1 & B2 & B3 & B4 & B5).
    split_and!; try congruence; eauto.
    intros H. rewrite B4, A4; congruence.
Qed.

Lemma link_kept_stays_down s s' : link_kept s s' -> stays_down s s'.
Proof.
  intros (_ & _ & _ & _ & A5 & A6 & A7 & A8 & A9). split_and!; eauto.
Qed.

Ltac down_tac :=
  st_simpl;
  repeat match goal with
         | |- context [match ?x with _ => _ end] => destruct x eqn:?
         end;
  split_and!; st_simpl; try reflexivity; try congruence;
  try (let H := fresh "H" in
       intros ? ? H;
       repeat first [ rewrite lookup_insert_Some in H
                    | rewrite lookup_delete_Some in H ];
       naive_solver);
  try set_solver.

Lemma stopHeartbeat_stays_down s : stays_down s (stopHeartbeat s).
Proof. unfold stopHeartbeat. down_tac. Qed.

Lemma startHeartbeat_stays_down s : stays_down s (startHeartbeat s).
Proof.
  unfold startHeartbeat. etrans; [apply stopHeartbeat_stays_down|].
  generalize (stopHeartbeat s). intros s1. down_tac.
Qed.

Lemma onSocketConnect_stays_down ct s : stays_down s (onSocketConnect ct s).
Proof.
  unfold onSocketConnect.
  trans (set_reconnectAttempts 0 (set_connected true (clearTimeout ct s)));
    [down_tac|].
  etrans; [apply startHeartbeat_stays_down|].
  generalize (startHeartbeat (set_reconnectAttempts 0 (set_connected true (clearTimeout ct s)))).
  intros s1. down_tac.
Qed.

Lemma onSocketClose_stays_down s :
  intentionalDisconnect s = true -> stays_down s (onSocketClose s).
Proof.
  intros Hi. unfold onSocketClose.
  set (s1 := rejectPending _ _).
  assert (H1 : stays_down s s1).
  { subst s1. etrans; [|apply link_kept_stays_down, rejectPending_link].
    etrans; [|apply stopHeartbeat_stays_down]. down_tac. }
  clearbody s1.
  set (s2 := if _connected s then emit EmDisconnected s1 else s1).
  assert (H2 : stays_down s s2).
  { subst s2. etrans; [exact H1|]. destruct (_connected s); down_tac. }
  clearbody s2. destruct H2 as (H2 & H2').
  rewrite H2, Hi. cbn [negb]. by split.
Qed.

Lemma clearReconnect_stays_down s : stays_down s (clearReconnect s).
Proof. unfold clearReconnect. down_tac. Qed.

Lemma disconnect_stays_down s :
  intentionalDisconnect s = true -> socket s = None -> stays_down s (disconnect s).
Proof.
  intros Hi Hs. unfold disconnect.
  set (s1 := rejectPending _ _).
  assert (H1 : stays_down s s1).
  { subst s1. etrans; [|apply link_kept_stays_down, rejectPending_link].
    etrans; [|apply clearReconnect_stays_down].
    etrans; [|apply stopHeartbeat_stays_down]. down_tac. }
  clearbody s1. etrans; [exact H1|]. destruct H1 as (_ & H1 & _).
  rewrite H1, Hs. down_tac.
Qed.

Lemma step_stays_down W s e s' :
  intentionalDisconnect s = true -> socket s = None ->
  (forall h d, timers s !! h <> Some (TReconnect, d)) ->
  e <> CallConnect -> step W s e = Some s' -> stays_down s s'.
Proof.
  intros Hi Hs Hno He. destruct e; cbn [step]; try done.
  - intros [= <-]. by apply disconnect_stays_down.
  - intros [= <-]. apply link_kept_stays_down, enqueue_link.
  - intros [= <-]. apply link_kept_stays_down, enqueue_link.
  - intros [= <-]. apply link_kept_stays_down, enqueue_link.
  - destruct (listeners s !! sock); [|done]. intros [= <-].
    apply onSocketConnect_stays_down.
  - destruct (listeners s !! sock); [|done]. intros H.
    by apply link_kept_stays_down, (onData_link chunk).
  - destruct (listeners s !! sock); [|done]. intros [= <-].
    unfold onSocketError. down_tac.
  - destruct (listeners s !! sock); [|done]. intros [= <-].
    etrans; [|by apply onSocketClose_stays_down]. down_tac.
  - destruct (timers s !! h) as [[k dl]|] eqn:Ht; [|done]. intros [= <-].
    destruct k; cbn [onTimer].
    + etrans; [|apply link_kept_stays_down, onCommandTimeout_link]. down_tac.
    + etrans; [|apply link_kept_stays_down, processQueue_link]. down_tac.
    + by destruct (Hno h dl).
    + apply link_kept_stays_down, enqueue_link.
    + down_tac.
Qed.

(** X20. After [disconnect()] the connection stays down until [connect()] is
    called again: whatever else happens (commands sent, socket events of the
    destroyed socket, timers), [intentionalDisconnect] stays set, there is no
    socket, nothing more is written, no reconnect timer is pending and no
    'reconnecting' event is emitted. *)
Theorem disconnect_is_final W o trace0 s0 trace s :
  run W (constructor o) trace0 = Some s0 ->
  CallConnect ∉ trace ->
  run W (disconnect s0) trace = Some s ->
  intentionalDisconnect s = true /\ socket s = None /\ wire s = wire s0 /\
  (forall h d, timers s !! h <> Some (TReconnect, d)) /\
  (forall n d, EmReconnecting n d ∈ emitted s -> EmReconnecting n d ∈ emitted s0).
Proof.
  intros Hrun0 Hnc Hrun.
  pose proof (run_owners W trace0 _ s0 (constructor_owners o) Hrun0) as O.
  destruct (disconnect_owners s0 O) as [_ Hno].
  assert (Hd : intentionalDisconnect (disconnect s0) = true /\
               socket (disconnect s0) = None /\ wire (disconnect s0) = wire s0 /\
               emitted (disconnect s0) = emitted s0).
  { unfold disconnect.
    set (s1 := clearReconnect (stopHeartbeat (set_intentionalDisconnect true s0))).
    assert (F : intentionalDisconnect s1 = true /\ wire s1 = wire s0 /\
                emitted s1 = emitted s0).
    { subst s1. unfold clearReconnect, stopHeartbeat. st_simpl.
      destruct (heartbeatTimer s0); st_simpl;
        destruct (reconnectTimer s0); by st_simpl. }
    clearbody s1. destruct F as (F1 & F2 & F3).
    assert (G : intentionalDisconnect (rejectPending "Disconnecting" s1) = true /\
                wire (rejectPending "Disconnecting" s1) = wire s0 /\
                emitted (rejectPending "Disconnecting" s1) = emitted s0).
    { unfold rejectPending. st_simpl.
      rewrite (fold_reject_frame intentionalDisconnect), (fold_reject_frame wire),
        (fold_reject_frame emitted) by done.
      by destruct (currentCommand s1). }
    revert G. generalize (rejectPending "Disconnecting" s1). intros s2 (G1 & G2 & G3).
    destruct (socket s2) eqn:Hs; by st_simpl. }
  assert (Hd' : intentionalDisconnect (disconnect s0) = true /\
                socket (disconnect s0) = None /\ wire (disconnect s0) = wire s0 /\
                forall n d, EmReconnecting n d ∈ emitted (disconnect s0) ->
                            EmReconnecting n d ∈ emitted s0).
  { destruct Hd as (D1 & D2 & D3 & D4). rewrite D4. by split_and!. }
  revert Hno Hd' Hrun. generalize (disconnect s0). clear Hrun0 O Hd.
  induction trace as [|e trace IH]; intros s1 Hno (D1 & D2 & D3 & D4); simpl.
  - intros [= <-]. by split_and!.
  - destruct (step W s1 e) as [s2|] eqn:Hs; [|done].
    apply not_elem_of_cons in Hnc as [He Hnc].
    destruct (step_stays_down W s1 e s2 D1 D2 Hno (not_eq_sym He) Hs)
      as (E1 & E2 & E3 & E4 & E5).
    apply IH; [done| |].
    + intros h d H. apply (Hno h d). by apply E3.
    + split_and!; try congruence; [rewrite E4; done|eauto].
Qed.

(** * The receive buffer *)

Section ReceiveBuffer.

Context (W : Buffer -> option string).
















End ReceiveBuffer.


(** * No request is lost *)


#[local] Instance requests_kept_preorder : PreOrder requests_kept.
Proof.
  split.
  - intros s. split; [done|]. by left.
  - intros s1 s2 s3 [A1 A2] [B1 B2]. split; [by etrans|].
    intros q Hq. destruct (A2 q Hq) as [H|H]; [by apply B2|]. right.
    destruct B1 as [[more ->] _]. rewrite fmap_app. set_solver.
Qed.

Lemma frame_requests_kept s s' :
  extends s s' -> queue_frame s s' -> requests_kept s s'.
Proof.
  intros E (F1 & F2 & _). split; [done|]. intros q Hq. left.
  unfold pending. by rewrite F1, F2.
Qed.

Section RequestsKept.

Context (W : Buffer -> option string).

Lemma processQueue_from_requests queue s :
  commandQueue s = queue -> requests_kept s (processQueue_from W queue s).
Proof.
  revert s. induction queue as [|x queue IH]; intros s Hq; simpl.
  - by destruct (currentCommand s).
  - destruct (currentCommand s) eqn:Hc; [done|]. destruct (_connected s); [|done].
    destruct (socket s); [|done]. st_simpl. destruct (W (buffer x)) as [err|].
    + etrans; [|by apply IH]. split; [extends_tac|].
      unfold pending. st_simpl. rewrite Hc, Hq. intros q.
      rewrite fmap_app. set_solver.
    + split; [extends_tac|]. unfold pending. st_simpl. rewrite Hc, Hq.
      intros q. set_solver.
Qed.

Lemma processQueue_requests s : requests_kept s (processQueue W s).
Proof. by apply processQueue_from_requests. Qed.

Lemma enqueue_requests b s : requests_kept s (enqueue W b s).
Proof.
  unfold enqueue. st_simpl. etrans; [|apply processQueue_requests].
  split; [extends_tac|]. unfold pending. st_simpl. set_solver.
Qed.

Lemma onCommandTimeout_requests h s : requests_kept s (onCommandTimeout W h s).
Proof.
  split; [apply onCommandTimeout_extends|].
  unfold onCommandTimeout. st_simpl.
  set (s1 := match currentCommand s with Some c => _ | None => _ end).
  assert (H1 : forall q, q ∈ pending s ->
                 q ∈ pending s1 \/ timeout q ∈ (settled s1).*1 \/ timeout q = h).
  { intros q Hq. subst s1. unfold pending in Hq.
    apply elem_of_app in Hq as [Hq|Hq].
    - destruct (currentCommand s) as [c|] eqn:Hc; [|set_solver]. simpl in Hq.
      apply list_elem_of_singleton in Hq as ->.
      destruct (Nat.eqb_spec (timeout c) h); [auto|].
      left. unfold pending. st_simpl. rewrite Hc. set_solver.
    - destruct (elem_of_splice_timeout_or h _ q Hq) as [Hs|Hs]; [|auto].
      assert (Hp : q ∈ pending (set_commandQueue (splice_timeout h (commandQueue s)) s)).
      { unfold pending. st_simpl. set_solver. }
      destruct (currentCommand s) as [c|] eqn:Hc; [|by left].
      destruct (Nat.eqb (timeout c) h); [|by left].
      destruct (processQueue_requests
                  (set_currentCommand None
                     (set_commandQueue (splice_timeout h (commandQueue s)) s)))
        as [_ Hk].
      destruct (Hk q) as [?|?]; [|by left|auto].
      unfold pending. st_simpl. set_solver. }
  clearbody s1. intros q Hq. unfold pending in *. st_simpl.
  rewrite fmap_app. destruct (H1 q Hq) as [?|[?|?]]; set_solver.
Qed.

Lemma onResponse_requests r s : requests_kept s (onResponse r s).
Proof.
  split; [apply onResponse_extends|].
  unfold onResponse, pending. st_simpl. intros q.
  destruct (currentCommand s) as [c|] eqn:Hc; st_simpl.
  - destruct (isError (response r)); st_simpl; rewrite fmap_app; simpl; set_solver.
  - rewrite Hc. auto.
Qed.

Lemma onData_loop_requests fuel s s' :
  onData_loop fuel s = Some s' -> requests_kept s s'.
Proof.
  revert s. induction fuel as [|fuel IH]; intros s; simpl;
    destruct (parseResponse (receiveBuffer s)) as [r|]; try congruence;
    try (by intros [= <-]).
  intros H. etrans; [apply (onResponse_requests r)|]. by apply IH.
Qed.

Lemma onData_requests chunk s s' : onData chunk s = Some s' -> requests_kept s s'.
Proof.
  unfold onData. destruct (onData_loop _ _) as [s1|] eqn:H1; [|done].
  intros [= <-]. apply onData_loop_requests in H1.
  etrans; [|etrans; [exact H1|]].
  - apply frame_requests_kept; [extends_tac|frame_tac].
  - destruct (_ <? _)%nat; [|done]. apply frame_requests_kept; [extends_tac|frame_tac].
Qed.

Lemma rejectPending_requests reason s : requests_kept s (rejectPending reason s).
Proof.
  split; [apply rejectPending_extends|]. intros q Hq. right.
  rewrite rejectPending_settled, fmap_app. apply elem_of_app; right.
  rewrite <- list_fmap_compose. by apply (list_elem_of_fmap_2 _ _ q).
Qed.

Lemma onSocketClose_requests s : requests_kept s (onSocketClose s).
Proof.
  split; [apply onSocketClose_extends|]. intros q Hq. right.
  destruct (onSocketClose_drains s) as (_ & _ & ->).
  rewrite fmap_app. apply elem_of_app; right.
  rewrite <- list_fmap_compose. by apply (list_elem_of_fmap_2 _ _ q).
Qed.

Lemma disconnect_requests s : requests_kept s (disconnect s).
Proof.
  split; [apply disconnect_extends|]. intros q Hq. right.
  destruct (disconnect_drains s) as (_ & _ & ->).
  rewrite fmap_app. apply elem_of_app; right.
  rewrite <- list_fmap_compose. by apply (list_elem_of_fmap_2 _ _ q).
Qed.

Lemma step_requests s e s' : step W s e = Some s' -> requests_kept s s'.
Proof.
  destruct e; cbn [step].
  - intros [= <-]. apply frame_requests_kept; [apply connect_extends|apply connect_frame].
  - intros [= <-]. apply disconnect_requests.
  - intros [= <-]. apply enqueue_requests.
  - intros [= <-]. apply enqueue_requests.
  - intros [= <-]. apply enqueue_requests.
  - destruct (listeners s !! sock); [|done]. intros [= <-].
    apply frame_requests_kept;
      [apply onSocketConnect_extends|apply onSocketConnect_frame].
  - destruct (listeners s !! sock); [|done]. apply onData_requests.
  - destruct (listeners s !! sock); [|done]. intros [= <-].
    apply frame_requests_kept; [apply onSocketError_extends|apply onSocketError_frame].
  - destruct (listeners s !! sock); [|done]. intros [= <-].
    etrans; [|apply onSocketClose_requests].
    apply frame_requests_kept; [extends_tac|frame_tac].
  - destruct (timers s !! h) as [[k dl]|]; [|done]. intros [= <-].
    destruct k; cbn [onTimer].
    + etrans; [|apply onCommandTimeout_requests].
      apply frame_requests_kept; [extends_tac|frame_tac].
    + etrans; [|apply processQueue_requests].
      apply frame_requests_kept; [extends_tac|frame_tac].
    + etrans; [|apply frame_requests_kept; [apply connect_extends|apply connect_frame]].
      apply frame_requests_kept; [extends_tac|frame_tac].
    + apply enqueue_requests.
    + apply frame_requests_kept; [extends_tac|frame_tac].
Qed.

Lemma run_requests trace s s' : run W s trace = Some s' -> requests_kept s s'.
Proof.
  revert s. induction trace as [|e trace IH]; intros s; simpl.
  - by intros [= <-].
  - destruct (step W s e) as [s1|] eqn:Hs; [|done].
    intros H. etrans; [by eapply step_requests|by apply IH].
Qed.

End RequestsKept.

(** X22. No request is lost. The promise that [enqueue] returns is identified by
    the timer it arms; from then on, whatever happens, the request is either
    still pending (in flight or queued) or its promise has been settled. *)
Theorem enqueued_request_never_lost W b s trace s' :
  run W (enqueue W b s) trace = Some s' ->
  mkQueued b (nextTimer s) ∈ pending s' \/
  exists out, (nextTimer s, out) ∈ settled s'.
Proof.
  intros Hrun.
  assert (H0 : mkQueued b (nextTimer s) ∈ pending (enqueue W b s) \/
               nextTimer s ∈ (settled (enqueue W b s)).*1).
  { unfold enqueue. st_simpl.
    destruct (processQueue_requests W
                (set_commandQueue (commandQueue s ++ [mkQueued b (nextTimer s)])
                   (snd (setTimeout TCommandTimeout (commandTimeout (options s)) s))))
      as [_ Hk].
    apply (Hk (mkQueued b (nextTimer s))). unfold pending. st_simpl. set_solver. }
  destruct (run_requests W trace _ s' Hrun) as [[[more Hmore] _] Hk].
  assert (H1 : mkQueued b (nextTimer s) ∈ pending s' \/ nextTimer s ∈ (settled s').*1).
  { destruct H0 as [H0|H0]; [exact (Hk _ H0)|]. right.
    rewrite Hmore, fmap_app. set_solver. }
  destruct H1 as [?|H1]; [by left|right].
  apply list_elem_of_fmap in H1 as ([h out] & -> & H1). by exists out.
Qed.

(** X23. The socket's 'connect' event does not restart the queue: commands sent
    while the socket was still connecting stay queued, nothing is written.
    The next command that is sent restarts it: the head of the queue is
    written and the new command waits behind the others. *)
Theorem connect_event_does_not_flush W s sock ct q rest :
  listeners s !! sock = Some ct -> socket s = Some sock ->
  currentCommand s = None -> commandQueue s = q :: rest -> W (buffer q) = None ->
  exists s1,
    step W s (SocketConnect sock) = Some s1 /\
    _connected s1 = true /\ wire s1 = wire s /\
    currentCommand s1 = None /\ commandQueue s1 = q :: rest /\
    forall b,
      wire (enqueue W b s1) = wire s ++ [(sock, q)] /\
      currentCommand (enqueue W b s1) = Some q /\
      commandQueue (enqueue W b s1) = rest ++ [mkQueued b (nextTimer s1)].
Proof.
  intros Hl Hsock Hc Hq Hw.
  destruct (onSocketConnect_frame ct s) as (F1 & F2 & F3 & _).
  destruct (onSocketConnect_fields ct s) as (F4 & _ & _ & _ & _ & _ & _ & _ & F5).
  assert (Hstep : step W s (SocketConnect sock) = Some (onSocketConnect ct s)).
  { cbn [step]. by rewrite Hl. }
  revert Hstep F1 F2 F3 F4 F5. generalize (onSocketConnect ct s).
  intros s1 Hstep F1 F2 F3 F4 F5. exists s1.
  split_and!; try congruence. intros b.
  assert (E : enqueue W b s1
              = set_wire (wire s1 ++ [(sock, q)])
                  (set_commandQueue (rest ++ [mkQueued b (nextTimer s1)])
                     (set_currentCommand (Some q)
                        (set_commandQueue (commandQueue s1 ++ [mkQueued b (nextTimer s1)])
                           (snd (setTimeout TCommandTimeout
                                   (commandTimeout (options s1)) s1)))))).
  { unfold enqueue. st_simpl.
    rewrite (processQueue_pops_head W _ q (rest ++ [mkQueued b (nextTimer s1)]) sock);
      st_simpl; try congruence; first [reflexivity | by rewrite F2, Hq]. }
  rewrite E. st_simpl. by rewrite F3.
Qed.

(** X24. One chunk may carry noise, several frames and the beginning of another
    frame. With no command in flight and an empty receive buffer, [onData]
    skips the bytes before the first start byte, emits one 'status' event
    per complete frame, in order, and keeps the unfinished rest for the next
    chunk. *)
Theorem onData_splits_frames noise z1 c1 a1 payload1 z2 c2 a2 payload2 rest s :
  currentCommand s = None -> receiveBuffer s = [] ->
  indexOf STX noise = None ->
  (length payload1 <= 255)%nat -> (length payload2 <= 255)%nat ->
  parseResponse rest = None -> (length rest <= 1024)%nat ->
  exists s',
    onData (noise ++ responseFrame z1 c1 a1 payload1
                  ++ responseFrame z2 c2 a2 payload2 ++ rest) s = Some s' /\
    receiveBuffer s' = rest /\
    emitted s'
    = emitted s
      ++ [EmStatus (mkResponse (Z.land z1 255) (Z.land c1 255) (Z.land a1 255) payload1);
          EmStatus (mkResponse (Z.land z2 255) (Z.land c2 255) (Z.land a2 255) payload2)] /\
    settled s' = settled s /\ currentCommand s' = None.
Proof.
  intros Hc Hrb Hn Hl1 Hl2 Hrest Hlen.
  set (f1 := responseFrame z1 c1 a1 payload1).
  set (f2 := responseFrame z2 c2 a2 payload2).
  pose proof (parseResponse_after_garbage noise z1 c1 a1 payload1 (f2 ++ rest) Hn Hl1) as P1.
  pose proof (parseResponse_after_garbage [] z2 c2 a2 payload2 rest eq_refl Hl2) as P2.
  fold f1 in P1. fold f2 in P2.
  change ([] ++ f2 ++ rest) with (f2 ++ rest) in P2.
  change (length (@nil byte) + length f2)%nat with (length f2) in P2.
  assert (Hf1 : (6 <= length f1)%nat) by (unfold f1; rewrite length_responseFrame; lia).
  assert (Hf2 : (6 <= length f2)%nat) by (unfold f2; rewrite length_responseFrame; lia).
  clearbody f1 f2.
  unfold onData. rewrite Hrb. cbn [app]. st_simpl.
  destruct (length (noise ++ f1 ++ f2 ++ rest)) as [|[|fuel]] eqn:Hfuel.
  1, 2: rewrite !length_app in Hfuel; lia.
  cbn [onData_loop]. st_simpl. rewrite P1.
  assert (E1 : onResponse
                 {| response := mkResponse (Z.land z1 255) (Z.land c1 255)
                                           (Z.land a1 255) payload1;
                    bytesConsumed := (length noise + length f1)%nat |}
                 (set_receiveBuffer (noise ++ f1 ++ f2 ++ rest) s)
               = emit (EmStatus (mkResponse (Z.land z1 255) (Z.land c1 255)
                                            (Z.land a1 255) payload1))
                   (set_receiveBuffer (f2 ++ rest) s)).
  { unfold onResponse. st_simpl. rewrite Hc. unfold subarray.
    cbn [bytesConsumed response].
    rewrite app_assoc, <- length_app, skipn_app, skipn_all, Nat.sub_diag.
    reflexivity. }
  rewrite E1. st_simpl. rewrite P2.
  assert (E2 : forall s0, currentCommand s0 = None -> receiveBuffer s0 = f2 ++ rest ->
               onResponse
                 {| response := mkResponse (Z.land z2 255) (Z.land c2 255)
                                           (Z.land a2 255) payload2;
                    bytesConsumed := length f2 |} s0
               = emit (EmStatus (mkResponse (Z.land z2 255) (Z.land c2 255)
                                            (Z.land a2 255) payload2))
                   (set_receiveBuffer rest s0)).
  { intros s0 Hc0 Hb0. unfold onResponse. st_simpl. rewrite Hc0, Hb0. unfold subarray.
    cbn [bytesConsumed response].
    rewrite skipn_app, skipn_all, Nat.sub_diag. reflexivity. }
  rewrite E2 by done.
  destruct fuel; cbn [onData_loop]; st_simpl; rewrite Hrest; st_simpl;
    (destruct (Nat.ltb_spec 1024 (length rest)); [lia|]);
    eexists; (split; [reflexivity|]); st_simpl; split_and!; try done;
    by rewrite <- app_assoc.
Qed.

(** * The further properties on sample inputs *)

Lemma parseResponse_sound_witness :
  exists pre post,
    sample_reply
    = pre ++ responseFrame 0x01 0x0D 0x00 (Buffer_from [0x32]) ++ post.
Proof.
  exact (proj1 (parseResponse_sound sample_reply _ parse_volume_reply)).
Defined.

Lemma decode_encodeSignedValue_witness :
  decodeSignedValue (encodeSignedValue (-12)) = -12.
Proof. exact (proj1 (decode_encodeSignedValue (-12) ltac:(lia))). Defined.

Lemma encode_decodeSignedValue_witness :
  -127 <= decodeSignedValue 0x8C <= 127.
Proof. exact (proj1 (encode_decodeSignedValue 0x8C ltac:(lia))). Defined.

Lemma decode_encodeSubTrim_witness :
  encodeSubTrim (inject_Z (-20) / 2) = 0x94.
Proof. exact (proj1 (proj2 (decode_encodeSubTrim (-20) ltac:(lia)))). Defined.

Lemma encode_decodeSubTrim_witness :
  encodeSubTrim (decodeSubTrim 0x94) = 0x94.
Proof.
  exact (encode_decodeSubTrim 0x94 ltac:(lia) ltac:(discriminate)).
Defined.

Lemma lipsync_roundtrip_witness :
  encodeLipsync (inject_Z (decodeLipsync 50)) = 50 /\
  Z.abs (decodeLipsync (encodeLipsync (inject_Z 123)) - 123) <= 2.
Proof.
  pose proof (lipsync_roundtrip 50 123 ltac:(lia) ltac:(lia)) as (H1 & _ & H2 & _).
  exact (conj H1 H2).
Defined.

Lemma buildCommand_injective_witness :
  length (buildCommand MASTER VOLUME [0x32]) = 6%nat.
Proof.
  exact (proj1 (proj2 (buildCommand_injective MASTER VOLUME [0x32] MASTER VOLUME [0x32]
                         ltac:(repeat constructor; lia) ltac:(repeat constructor; lia)))).
Defined.

Lemma reachable_requests_and_timers_witness :
  run no_write_error (constructor sample_options) sample_session = Some sample_state /\
  NoDup ((settled sample_state).*1) /\ NoDup (ids (pending sample_state)).
Proof.
  assert (Hrun : run no_write_error (constructor sample_options) sample_session
                 = Some sample_state) by (vm_compute; reflexivity).
  split; [exact Hrun|].
  pose proof (reachable_requests_and_timers _ _ _ _ Hrun) as (H1 & H2 & _).
  exact (conj H1 H2).
Defined.

Lemma processQueue_skips_failed_writes_witness :
  let q1 := mkQueued (buildQuery MASTER VOLUME) 3 in
  let q2 := mkQueued (buildQuery MASTER POWER) 4 in
  let s := set_commandQueue [q1; q2] (set_currentCommand None sample_state) in
  settled (processQueue sample_failing_write s)
  = settled s ++ [(3%nat, Rejected "write EPIPE")] /\
  currentCommand (processQueue sample_failing_write s) = Some q2.
Proof.
  intros q1 q2 s.
  pose proof (processQueue_skips_failed_writes sample_failing_write s 0%nat [q1] [q2]
                eq_refl eq_refl eq_refl eq_refl
                ltac:(repeat constructor; by eexists) eq_refl) as (H1 & H2 & _).
  exact (conj H1 H2).
Defined.

Lemma socket_connect_resets_backoff_witness :
  listeners sample_connecting !! 0%nat = Some 0%nat /\
  exists s1, step no_write_error sample_connecting (SocketConnect 0) = Some s1 /\
             _connected s1 = true /\ reconnectAttempts s1 = 0%nat.
Proof.
  assert (Hl : listeners sample_connecting !! 0%nat = Some 0%nat)
    by (vm_compute; reflexivity).
  split; [exact Hl|].
  destruct (socket_connect_resets_backoff no_write_error sample_connecting 0 0 Hl)
    as (s1 & h & H1 & H2 & H3 & _).
  exists s1. exact (conj H1 (conj H2 H3)).
Defined.

Lemma reply_then_next_command_witness :
  let c := mkQueued (buildQuery MASTER VOLUME) 2 in
  let q := mkQueued (buildQuery MASTER POWER) 3 in
  currentCommand sample_queued_state = Some c /\
  commandQueue sample_queued_state = [q] /\
  exists s1 s2,
    onData sample_reply sample_queued_state = Some s1 /\
    timers s1 !! 4%nat = Some (TProcessQueue, 50) /\
    step no_write_error s1 (TimerFires 4) = Some s2 /\
    currentCommand s2 = Some q.
Proof.
  intros c q.
  assert (Hc : currentCommand sample_queued_state = Some c) by reflexivity.
  assert (Hq : commandQueue sample_queued_state = [q]) by reflexivity.
  split; [exact Hc|]. split; [exact Hq|].
  destruct (reply_then_next_command no_write_error sample_reply sample_queued_state
              c _ q [] 0%nat Hc Hq eq_refl eq_refl eq_refl parse_volume_reply)
    as (s1 & s2 & H1 & _ & _ & _ & H2 & H3 & H4 & _).
  exists s1, s2. exact (conj H1 (conj H2 (conj H3 H4))).
Defined.

Lemma pause_not_kept_for_new_commands_witness :
  exists s1,
    onData sample_reply sample_state = Some s1 /\
    currentCommand (enqueue no_write_error (buildQuery MASTER POWER) s1)
    = Some (mkQueued (buildQuery MASTER POWER) 4) /\
    timers (enqueue no_write_error (buildQuery MASTER POWER) s1) !! 3%nat
    = Some (TProcessQueue, 50).
Proof.
  destruct (pause_not_kept_for_new_commands no_write_error sample_reply sample_state
              (mkQueued (buildQuery MASTER VOLUME) 2) _ (buildQuery MASTER POWER) 0%nat
              eq_refl eq_refl eq_refl eq_refl eq_refl parse_volume_reply)
    as (s1 & H1 & _ & H2 & H3 & _).
  exists s1. exact (conj H1 (conj H2 H3)).
Defined.

Lemma onData_reassembles_witness :
  let chunk1 := Buffer_from [0x21; 0x01; 0x0D] in
  let chunk2 := Buffer_from [0x00; 0x01; 0x32; 0x0D] in
  onData chunk2 (set_receiveBuffer chunk1 sample_state)
  = onData (chunk1 ++ chunk2) sample_state.
Proof.
  intros chunk1 chunk2.
  exact (proj2 (onData_reassembles chunk1 chunk2 sample_state
                  ltac:(vm_compute; reflexivity) ltac:(vm_compute; lia))).
Defined.

Lemma queued_command_timeout_witness :
  let q := mkQueued (buildQuery MASTER POWER) 3 in
  run no_write_error (constructor sample_options)
      (sample_session ++ [CallQuery MASTER POWER]) = Some sample_queued_state /\
  exists s1,
    step no_write_error sample_queued_state (TimerFires 3) = Some s1 /\
    settled s1 = settled sample_queued_state ++ [(3%nat, Rejected "Command timeout")] /\
    currentCommand s1 = currentCommand sample_queued_state.
Proof.
  intros q.
  assert (Hrun : run no_write_error (constructor sample_options)
                     (sample_session ++ [CallQuery MASTER POWER])
                 = Some sample_queued_state) by (vm_compute; reflexivity).
  split; [exact Hrun|].
  destruct (queued_command_timeout _ _ _ _ q Hrun ltac:(apply list_elem_of_here))
    as (s1 & H1 & H2 & H3 & _).
  exists s1. exact (conj H1 (conj H2 H3)).
Defined.

Lemma heartbeat_and_reconnect_timers_witness :
  run no_write_error (constructor sample_options) sample_session = Some sample_state /\
  timers sample_state !! 1%nat = Some (THeartbeat, 30000) /\
  heartbeatTimer sample_state = Some 1%nat /\ _connected sample_state = true.
Proof.
  assert (Hrun : run no_write_error (constructor sample_options) sample_session
                 = Some sample_state) by (vm_compute; reflexivity).
  assert (Ht : timers sample_state !! 1%nat = Some (THeartbeat, 30000))
    by (vm_compute; reflexivity).
  split; [exact Hrun|]. split; [exact Ht|].
  destruct (proj1 (heartbeat_and_reconnect_timers _ _ _ _ Hrun) _ _ Ht) as (H1 & H2 & _).
  exact (conj H1 H2).
Defined.

Lemma disconnect_is_final_witness :
  run no_write_error (constructor sample_options) sample_session = Some sample_state /\
  run no_write_error (disconnect sample_state) [CallQuery MASTER VOLUME; SocketClose 0]
  = Some sample_closed_state /\
  intentionalDisconnect sample_closed_state = true /\
  socket sample_closed_state = None /\
  wire sample_closed_state = wire sample_state.
Proof.
  assert (Hrun : run no_write_error (constructor sample_options) sample_session
                 = Some sample_state) by (vm_compute; reflexivity).
  assert (Hrun' : run no_write_error (disconnect sample_state)
                      [CallQuery MASTER VOLUME; SocketClose 0]
                  = Some sample_closed_state) by (vm_compute; reflexivity).
  assert (Hnc : CallConnect ∉ [CallQuery MASTER VOLUME; SocketClose 0]).
  { intros H. repeat (apply elem_of_cons in H as [H|H]; [discriminate H|]).
    by apply elem_of_nil in H. }
  split; [exact Hrun|]. split; [exact Hrun'|].
  destruct (disconnect_is_final _ _ _ _ _ _ Hrun Hnc Hrun') as (H1 & H2 & H3 & _).
  exact (conj H1 (conj H2 H3)).
Defined.


Lemma enqueued_request_never_lost_witness :
  let b := buildQuery MASTER POWER in
  run no_write_error (enqueue no_write_error b sample_state) [SocketClose 0]
  = Some sample_lost_link_state /\
  (mkQueued b 3 ∈ pending sample_lost_link_state \/
   exists out, (3%nat, out) ∈ settled sample_lost_link_state).
Proof.
  intros b.
  assert (Hrun : run no_write_error (enqueue no_write_error b sample_state) [SocketClose 0]
                 = Some sample_lost_link_state) by (vm_compute; reflexivity).
  split; [exact Hrun|].
  exact (enqueued_request_never_lost _ _ _ _ _ Hrun).
Defined.

Lemma connect_event_does_not_flush_witness :
  let q := mkQueued (buildQuery MASTER POWER) 1 in
  commandQueue sample_connecting = [q] /\
  exists s1,
    step no_write_error sample_connecting (SocketConnect 0) = Some s1 /\
    _connected s1 = true /\ wire s1 = wire sample_connecting /\
    commandQueue s1 = [q].
Proof.
  intros q.
  assert (Hq : commandQueue sample_connecting = [q]) by reflexivity.
  split; [exact Hq|].
  destruct (connect_event_does_not_flush no_write_error sample_connecting 0 0 q []
              ltac:(vm_compute; reflexivity) eq_refl eq_refl Hq eq_refl)
    as (s1 & H1 & H2 & H3 & _ & H4 & _).
  exists s1. exact (conj H1 (conj H2 (conj H3 H4))).
Defined.

Lemma onData_splits_frames_witness :
  let rest := Buffer_from [0x21; 0x01] in
  exists s',
    onData (Buffer_from [0x00; 0x0D]
              ++ responseFrame 0x01 0x0D 0x00 (Buffer_from [0x32])
              ++ responseFrame 0x01 0x00 0x00 (Buffer_from [0x01])
              ++ rest) (constructor sample_options) = Some s' /\
    receiveBuffer s' = rest /\
    emitted s'
    = [EmStatus (mkResponse 0x01 0x0D 0x00 (Buffer_from [0x32]));
       EmStatus (mkResponse 0x01 0x00 0x00 (Buffer_from [0x01]))].
Proof.
  intros rest.
  destruct (onData_splits_frames (Buffer_from [0x00; 0x0D])
              0x01 0x0D 0x00 (Buffer_from [0x32])
              0x01 0x00 0x00 (Buffer_from [0x01]) rest (constructor sample_options)
              eq_refl eq_refl eq_refl ltac:(simpl; lia) ltac:(simpl; lia)
              ltac:(vm_compute; reflexivity) ltac:(simpl; lia))
    as (s' & H1 & H2 & H3 & _).
  exists s'. exact (conj H1 (conj H2 H3)).
Defined.
